(** * go-lcov-summary: the LCOV record parser and aggregator

    Shallow embedding of package [lcov] (the counters-only parser and the
    extended parser that also retains per-file records) together with the
    parts of Go's [strings], [strconv], [bufio] and [fmt] that [Parse]
    relies on, and the properties of the natural-language specification
    stated over that embedding.

    Conventions of the embedding:
    - a Go [string] is a Rocq [string], byte by byte;
    - [int] is the 64-bit signed integer of the platforms the repository
      builds for, a [Z] kept in range by [GoInt.wrap] after every addition;
    - [float64] is Rocq's primitive binary64 [float];
    - an [error] is its message, [nil] is [None];
    - the input stream is the bytes it delivers followed by [io.EOF] or by
      a read error, and a scanner is what its caller observes of it: the
      tokens in order and the final value of [Err()]. *)

From Stdlib Require Import ZArith NArith List String Ascii Bool Lia Floats.
From Stdlib Require Import QArith Qabs Qpower Qfield Lqa.
Import ListNotations.

Local Open Scope string_scope.
Local Open Scope Z_scope.

(** ** Errors and fallible results

    A Go [error] is represented by its message.  A helper that returns
    [(T, error)] with exactly one of the two meaningful is a [result];
    [Parse] itself returns a pair, because it can hand back a non-nil
    [*Summary] together with a non-nil [error]. *)

Definition error : Type := string.

Inductive result (A : Type) : Type :=
| Ok (a : A)
| Err (e : error).

Arguments Ok {A} a.
Arguments Err {A} e.

(** ** Go's [int] (64 bit, two's complement) *)

Module GoInt.

Definition min_int : Z := - 2 ^ 63.
Definition max_int : Z := 2 ^ 63 - 1.

Definition in_range (z : Z) : bool := (min_int <=? z) && (z <=? max_int).

(** Reduction of a mathematical integer to the representable range. *)
Definition wrap (z : Z) : Z := (z + 2 ^ 63) mod 2 ^ 64 - 2 ^ 63.

(** [x + y] and [x++] on [int]. *)
Definition add (x y : Z) : Z := wrap (x + y).
Definition incr (x : Z) : Z := add x 1.

(** The sum of a list computed with [+=], left to right. *)
Definition sum (l : list Z) : Z := fold_left add l 0.

(** [float64(x)]: the nearest binary64 value, ties to even. *)
Definition float64 (x : Z) : float :=
  SF2Prim (SpecFloat.binary_normalize prec emax x 0 false).

End GoInt.

(** ** Package [strings] *)

Module Strings.

Fixpoint rev_append (s acc : string) : string :=
  match s with
  | EmptyString => acc
  | String c s' => rev_append s' (String c acc)
  end.

Definition rev (s : string) : string := rev_append s EmptyString.

(** [asciiSpace]: tab, newline, vertical tab, form feed, carriage return,
    space. *)
Definition asciiSpace (c : ascii) : bool :=
  let n := nat_of_ascii c in
  ((9 <=? n) && (n <=? 13))%nat || (n =? 32)%nat.

(** The white-space runes of [unicode.IsSpace] above U+007F, by their
    UTF-8 encoding: U+0085 and U+00A0 take two bytes; U+1680,
    U+2000..U+200A, U+2028, U+2029, U+202F, U+205F and U+3000 take three. *)
Definition space2 (c d : ascii) : bool :=
  (nat_of_ascii c =? 194)%nat
  && ((nat_of_ascii d =? 133)%nat || (nat_of_ascii d =? 160)%nat).

Definition space3 (c d e : ascii) : bool :=
  let c := nat_of_ascii c in
  let d := nat_of_ascii d in
  let e := nat_of_ascii e in
  ((c =? 225) && (d =? 154) && (e =? 128))%nat
  || ((c =? 226) && (d =? 128)
      && (((128 <=? e) && (e <=? 138)) || (e =? 168) || (e =? 169)
          || (e =? 175)))%nat
  || ((c =? 226) && (d =? 129) && (e =? 159))%nat
  || ((c =? 227) && (d =? 128) && (e =? 128))%nat.

(** Removal of the white-space runes at the front of [s].  [fwd] tells
    whether the bytes are met in reading order ([true]) or, on a reversed
    string, last byte first ([false]). *)
Fixpoint trim_front (fwd : bool) (s : string) : string :=
  match s with
  | EmptyString => s
  | String c s1 =>
      if asciiSpace c then trim_front fwd s1
      else
        match s1 with
        | EmptyString => s
        | String d s2 =>
            if (if fwd then space2 c d else space2 d c) then trim_front fwd s2
            else
              match s2 with
              | EmptyString => s
              | String e s3 =>
                  if (if fwd then space3 c d e else space3 e d c)
                  then trim_front fwd s3
                  else s
              end
        end
  end.

Definition TrimLeftSpace (s : string) : string := trim_front true s.
Definition TrimRightSpace (s : string) : string :=
  rev (trim_front false (rev s)).

(** [strings.TrimSpace(s)] *)
Definition TrimSpace (s : string) : string :=
  TrimRightSpace (TrimLeftSpace s).

(** [strings.Split(s, sep)] for a one-byte separator: every piece between
    two separators, [[""]] for the empty string. *)
Fixpoint Split (s : string) (sep : ascii) : list string :=
  match s with
  | EmptyString => [EmptyString]
  | String c s' =>
      if Ascii.eqb c sep then EmptyString :: Split s' sep
      else
        match Split s' sep with
        | h :: t => String c h :: t
        | [] => [String c EmptyString]
        end
  end.

(** [strings.SplitN(s, sep, n)] for a one-byte separator and [n >= 0]:
    at most [n] pieces, the last one being the unsplit remainder;
    [n = 0] gives no piece at all. *)
Fixpoint splitN (s : string) (sep : ascii) (n : nat) : list string :=
  match n with
  | O | S O => [s]
  | S (S _ as m) =>
      match s with
      | EmptyString => [EmptyString]
      | String c s' =>
          if Ascii.eqb c sep then EmptyString :: splitN s' sep m
          else
            match splitN s' sep n with
            | h :: t => String c h :: t
            | [] => [String c EmptyString]
            end
      end
  end.

Definition SplitN (s : string) (sep : ascii) (n : nat) : list string :=
  match n with
  | O => []
  | _ => splitN s sep n
  end.

(** [strings.Contains(s, substr)], used to state that a message mentions
    a text. *)
Fixpoint Contains (s substr : string) : bool :=
  String.prefix substr s
  || match s with
     | EmptyString => false
     | String _ s' => Contains s' substr
     end.

End Strings.

(** ** Package [strconv] *)

Module Strconv.

Definition digit (c : ascii) : option Z :=
  let n := Z.of_nat (nat_of_ascii c) in
  if (48 <=? n) && (n <=? 57) then Some (n - 48) else None.

Fixpoint digits (acc : Z) (s : string) : option Z :=
  match s with
  | EmptyString => Some acc
  | String c s' =>
      match digit c with
      | Some d => digits (10 * acc + d) s'
      | None => None
      end
  end.

(** [strconv.Atoi(s)]: an optional sign, then one or more decimal digits,
    the value within the range of [int]; anything else is an error
    ([None]: the callers never look at the error value). *)
Definition Atoi (s : string) : option Z :=
  let '(neg, body) :=
    match s with
    | String "-"%char r => (true, r)
    | String "+"%char r => (false, r)
    | _ => (false, s)
    end in
  match body with
  | EmptyString => None
  | _ =>
      match digits 0 body with
      | Some n =>
          let v := if neg then - n else n in
          if GoInt.in_range v then Some v else None
      | None => None
      end
  end.

(** [err == nil] for the error returned with a parsed number. *)
Definition succeeds (r : option Z) : bool :=
  match r with
  | Some _ => true
  | None => false
  end.

End Strconv.

(** ** Package [bufio]: a [Scanner] with the default [ScanLines] split *)

Module Bufio.

(** An [io.Reader] is given by the bytes it delivers and by how it ends:
    [None] for [io.EOF], [Some e] for a read error met after those bytes. *)
Record Reader : Type := {
  data : string;
  failure : option error
}.

(** What a run of the scanner shows to its caller: the values of [Text()]
    for the calls of [Scan()] that returned true, and the final [Err()]. *)
Record Scanner : Type := {
  tokens : list string;
  err : option error
}.

Definition MaxScanTokenSize : N := 65536.
Definition ErrTooLong : error := "bufio.Scanner: token too long".

Definition newline : ascii := "010"%char.
Definition carriage_return : ascii := "013"%char.

(** The lines of the input: the pieces between newlines, without a final
    empty piece (at the end of the data there is no token left). *)
Fixpoint drop_last_empty (l : list string) : list string :=
  match l with
  | [] => []
  | [EmptyString] => []
  | x :: l' => x :: drop_last_empty l'
  end.

Definition lines (s : string) : list string :=
  drop_last_empty (Strings.Split s newline).

(** [dropCR]: one trailing carriage return is removed. *)
Definition dropCR (s : string) : string :=
  match Strings.rev s with
  | String c r => if Ascii.eqb c carriage_return then Strings.rev r else s
  | EmptyString => s
  end.

(** A line the buffer cannot hold stops the scan with [ErrTooLong]: the
    buffer grows up to [MaxScanTokenSize] bytes and must hold the line up
    to its newline or, for the last line, up to the end of the data. *)
Definition too_long (s : string) : bool :=
  (MaxScanTokenSize <=? N.of_nat (String.length s))%N.

(** The run of the scanner over the lines [raw] of a stream that ends
    with [final].  The lines before the end are all delivered, the last
    one also when the stream ends with a read error; [Err()] is then that
    error, and nil after [io.EOF]. *)
Fixpoint scan (raw : list string) (final : option error) : Scanner :=
  match raw with
  | [] => {| tokens := []; err := final |}
  | l :: rest =>
      if too_long l then {| tokens := []; err := Some ErrTooLong |}
      else
        let sc := scan rest final in
        {| tokens := dropCR l :: tokens sc; err := err sc |}
  end.

(** [bufio.NewScanner(reader)], run to its end. *)
Definition NewScanner (r : Reader) : Scanner :=
  scan (lines (data r)) (failure r).

End Bufio.

Import Strings Strconv.

(** ** Package [lcov]: declarations shared by both versions of the parser *)

(** [type RecordType string] and its constants. *)
Definition RecordType : Type := string.

Definition RecordTestName : RecordType := "TN".
Definition RecordSourceFile : RecordType := "SF".
Definition RecordLineData : RecordType := "DA".
Definition RecordLinesFound : RecordType := "LF".
Definition RecordLinesHit : RecordType := "LH".
Definition RecordEndOfRecord : RecordType := "end_of_record".
Definition RecordFunctionName : RecordType := "FN".
Definition RecordFunctionData : RecordType := "FNDA".
Definition RecordBranchData : RecordType := "BRDA".
Definition RecordBranchFound : RecordType := "BRF".
Definition RecordBranchHit : RecordType := "BRH".

(** [type Record struct { Type RecordType; Value string }] *)
Record Record_ : Type := {
  Type_ : RecordType;
  Value : string
}.

(** The arm that [switch record.Type] of [Parse] selects, the arms being
    tried in the order in which they are written; [CaseNone] when no arm
    matches (the switch has no default). *)
Inductive Case : Type :=
| CaseTestName
| CaseSourceFile
| CaseLineData
| CaseLinesFound
| CaseLinesHit
| CaseFunctionName
| CaseFunctionData
| CaseBranchData
| CaseBranchFound
| CaseBranchHit
| CaseEndOfRecord
| CaseNone.

Definition switch (t : RecordType) : Case :=
  if String.eqb t RecordTestName then CaseTestName
  else if String.eqb t RecordSourceFile then CaseSourceFile
  else if String.eqb t RecordLineData then CaseLineData
  else if String.eqb t RecordLinesFound then CaseLinesFound
  else if String.eqb t RecordLinesHit then CaseLinesHit
  else if String.eqb t RecordFunctionName then CaseFunctionName
  else if String.eqb t RecordFunctionData then CaseFunctionData
  else if String.eqb t RecordBranchData then CaseBranchData
  else if String.eqb t RecordBranchFound then CaseBranchFound
  else if String.eqb t RecordBranchHit then CaseBranchHit
  else if String.eqb t RecordEndOfRecord then CaseEndOfRecord
  else CaseNone.

(** [type Parser struct { scanner *bufio.Scanner }] and [NewParser]. *)
Record Parser : Type := {
  scanner : Bufio.Scanner
}.

Definition NewParser (reader : Bufio.Reader) : Parser :=
  {| scanner := Bufio.NewScanner reader |}.

(** [parseRecord] (the same text in both versions). *)
Definition parseRecord (line : string) : result Record_ :=
  if String.eqb line "end_of_record" then
    Ok {| Type_ := RecordEndOfRecord; Value := "" |}
  else
    match SplitN line ":" 2 with
    | [recordType; value] => Ok {| Type_ := recordType; Value := value |}
    | _ => Err ("invalid record format: " ++ line)
    end.

(** [float64(covered) / float64(total) * 100] *)
Definition percentage (covered total : Z) : float :=
  (GoInt.float64 covered / GoInt.float64 total * 100)%float.

(** The condition under which an [FNDA] value counts as a hit:
    [len(parts) == 2], [err == nil] and [execCount > 0]. *)
Definition functionHit (value : string) : bool :=
  match Split value "," with
  | [count; _] =>
      match Atoi count with
      | Some execCount => 0 <? execCount
      | None => false
      end
  | _ => false
  end.

(** ** The counters-only parser *)

Module Counters.

Record Summary : Type := {
  TotalFiles : Z;
  TotalLines : Z;
  CoveredLines : Z;
  LineCoverageRate : float;
  TotalFunctions : Z;
  CoveredFunctions : Z;
  FunctionCoverageRate : float;
  TotalBranches : Z;
  CoveredBranches : Z;
  BranchCoverageRate : float
}.

(** The local variables of [Parse]. *)
Record Locals : Type := {
  currentFileLinesFound : Z;
  currentFileLinesHit : Z;
  currentFileFunctions : Z;
  currentFileFunctionsHit : Z;
  currentFileBranchesFound : Z;
  currentFileBranchesHit : Z;
  inFile : bool
}.

Definition State : Type := (Summary * Locals)%type.

(** [&Summary{}] and the zero values of the locals. *)
Definition emptySummary : Summary :=
  {| TotalFiles := 0; TotalLines := 0; CoveredLines := 0;
     LineCoverageRate := 0%float;
     TotalFunctions := 0; CoveredFunctions := 0;
     FunctionCoverageRate := 0%float;
     TotalBranches := 0; CoveredBranches := 0;
     BranchCoverageRate := 0%float |}.

Definition zeroLocals : Locals :=
  {| currentFileLinesFound := 0; currentFileLinesHit := 0;
     currentFileFunctions := 0; currentFileFunctionsHit := 0;
     currentFileBranchesFound := 0; currentFileBranchesHit := 0;
     inFile := false |}.

Definition isValidLineData (value : string) : bool :=
  match Split value "," with
  | [p0; p1] => succeeds (Atoi p0) && succeeds (Atoi p1)
  | _ => false
  end.

Definition isValidFunctionName (value : string) : bool :=
  match SplitN value "," 2 with
  | [p0; _] => succeeds (Atoi p0)
  | _ => false
  end.

Definition isValidBranchData (value : string) : bool :=
  match Split value "," with
  | [p0; p1; p2; p3] =>
      let err4 :=
        if negb (String.eqb p3 "-") then succeeds (Atoi p3) else true in
      succeeds (Atoi p0) && succeeds (Atoi p1) && succeeds (Atoi p2)
      && (String.eqb p3 "-" || err4)
  | _ => false
  end.

(** The fold of the current file into the totals at [end_of_record]. *)
Definition closeFile (summary : Summary) (v : Locals) : Summary :=
  {| TotalFiles := GoInt.incr (TotalFiles summary);
     TotalLines := GoInt.add (TotalLines summary) (currentFileLinesFound v);
     CoveredLines := GoInt.add (CoveredLines summary) (currentFileLinesHit v);
     LineCoverageRate := LineCoverageRate summary;
     TotalFunctions :=
       GoInt.add (TotalFunctions summary) (currentFileFunctions v);
     CoveredFunctions :=
       GoInt.add (CoveredFunctions summary) (currentFileFunctionsHit v);
     FunctionCoverageRate := FunctionCoverageRate summary;
     TotalBranches :=
       GoInt.add (TotalBranches summary) (currentFileBranchesFound v);
     CoveredBranches :=
       GoInt.add (CoveredBranches summary) (currentFileBranchesHit v);
     BranchCoverageRate := BranchCoverageRate summary |}.

(** The [switch record.Type] statement of the loop body: the state after
    it, or the error the loop returns with. *)
Definition dispatch (st : State) (record : Record_) : result State :=
  let '(summary, v) := st in
  let value := Value record in
  match switch (Type_ record) with
  | CaseTestName => Ok st
  | CaseSourceFile =>
      Ok (summary,
          {| currentFileLinesFound := 0; currentFileLinesHit := 0;
             currentFileFunctions := 0; currentFileFunctionsHit := 0;
             currentFileBranchesFound := 0; currentFileBranchesHit := 0;
             inFile := true |})
  | CaseLineData =>
      if negb (inFile v) then Err "line data without source file"
      else if negb (isValidLineData value) then
        Err ("invalid line data format: " ++ value)
      else Ok st
  | CaseLinesFound =>
      if negb (inFile v) then Err "lines found without source file"
      else
        match Atoi value with
        | None => Err ("invalid lines found value: " ++ value)
        | Some linesFound =>
            Ok (summary,
                {| currentFileLinesFound := linesFound;
                   currentFileLinesHit := currentFileLinesHit v;
                   currentFileFunctions := currentFileFunctions v;
                   currentFileFunctionsHit := currentFileFunctionsHit v;
                   currentFileBranchesFound := currentFileBranchesFound v;
                   currentFileBranchesHit := currentFileBranchesHit v;
                   inFile := inFile v |})
        end
  | CaseLinesHit =>
      if negb (inFile v) then Err "lines hit without source file"
      else
        match Atoi value with
        | None => Err ("invalid lines hit value: " ++ value)
        | Some linesHit =>
            Ok (summary,
                {| currentFileLinesFound := currentFileLinesFound v;
                   currentFileLinesHit := linesHit;
                   currentFileFunctions := currentFileFunctions v;
                   currentFileFunctionsHit := currentFileFunctionsHit v;
                   currentFileBranchesFound := currentFileBranchesFound v;
                   currentFileBranchesHit := currentFileBranchesHit v;
                   inFile := inFile v |})
        end
  | CaseFunctionName =>
      if negb (inFile v) then Err "function name without source file"
      else if negb (isValidFunctionName value) then
        Err ("invalid function name format: " ++ value)
      else
        Ok (summary,
            {| currentFileLinesFound := currentFileLinesFound v;
               currentFileLinesHit := currentFileLinesHit v;
               currentFileFunctions :=
                 GoInt.incr (currentFileFunctions v);
               currentFileFunctionsHit := currentFileFunctionsHit v;
               currentFileBranchesFound := currentFileBranchesFound v;
               currentFileBranchesHit := currentFileBranchesHit v;
               inFile := inFile v |})
  | CaseFunctionData =>
      if negb (inFile v) then Err "function data without source file"
      else if functionHit value then
        Ok (summary,
            {| currentFileLinesFound := currentFileLinesFound v;
               currentFileLinesHit := currentFileLinesHit v;
               currentFileFunctions := currentFileFunctions v;
               currentFileFunctionsHit :=
                 GoInt.incr (currentFileFunctionsHit v);
               currentFileBranchesFound := currentFileBranchesFound v;
               currentFileBranchesHit := currentFileBranchesHit v;
               inFile := inFile v |})
      else Ok st
  | CaseBranchData =>
      if negb (inFile v) then Err "branch data without source file"
      else if negb (isValidBranchData value) then
        Err ("invalid branch data format: " ++ value)
      else Ok st
  | CaseBranchFound =>
      if negb (inFile v) then Err "branch found without source file"
      else
        match Atoi value with
        | None => Err ("invalid branches found value: " ++ value)
        | Some branchesFound =>
            Ok (summary,
                {| currentFileLinesFound := currentFileLinesFound v;
                   currentFileLinesHit := currentFileLinesHit v;
                   currentFileFunctions := currentFileFunctions v;
                   currentFileFunctionsHit := currentFileFunctionsHit v;
                   currentFileBranchesFound := branchesFound;
                   currentFileBranchesHit := currentFileBranchesHit v;
                   inFile := inFile v |})
        end
  | CaseBranchHit =>
      if negb (inFile v) then Err "branch hit without source file"
      else
        match Atoi value with
        | None => Err ("invalid branches hit value: " ++ value)
        | Some branchesHit =>
            Ok (summary,
                {| currentFileLinesFound := currentFileLinesFound v;
                   currentFileLinesHit := currentFileLinesHit v;
                   currentFileFunctions := currentFileFunctions v;
                   currentFileFunctionsHit := currentFileFunctionsHit v;
                   currentFileBranchesFound := currentFileBranchesFound v;
                   currentFileBranchesHit := branchesHit;
                   inFile := inFile v |})
        end
  | CaseEndOfRecord =>
      if inFile v then
        Ok (closeFile summary v,
            {| currentFileLinesFound := currentFileLinesFound v;
               currentFileLinesHit := currentFileLinesHit v;
               currentFileFunctions := currentFileFunctions v;
               currentFileFunctionsHit := currentFileFunctionsHit v;
               currentFileBranchesFound := currentFileBranchesFound v;
               currentFileBranchesHit := currentFileBranchesHit v;
               inFile := false |})
      else Ok st
  | CaseNone => Ok st
  end.

(** One turn of the [for p.scanner.Scan()] loop on the token [text]. *)
Definition step (st : State) (text : string) : result State :=
  let line := TrimSpace text in
  if String.eqb line "" then Ok st
  else
    match parseRecord line with
    | Err e => Err ("failed to parse line '" ++ line ++ "': " ++ e)
    | Ok record => dispatch st record
    end.

(** The loop over the tokens the scanner yields. *)
Fixpoint loop (toks : list string) (st : State) : result State :=
  match toks with
  | [] => Ok st
  | text :: rest =>
      match step st text with
      | Ok st' => loop rest st'
      | Err e => Err e
      end
  end.

(** "Calculate coverage rates": three guarded assignments. *)
Definition rates (s : Summary) : Summary :=
  let s :=
    if 0 <? TotalLines s then
      {| TotalFiles := TotalFiles s; TotalLines := TotalLines s;
         CoveredLines := CoveredLines s;
         LineCoverageRate := percentage (CoveredLines s) (TotalLines s);
         TotalFunctions := TotalFunctions s;
         CoveredFunctions := CoveredFunctions s;
         FunctionCoverageRate := FunctionCoverageRate s;
         TotalBranches := TotalBranches s;
         CoveredBranches := CoveredBranches s;
         BranchCoverageRate := BranchCoverageRate s |}
    else s in
  let s :=
    if 0 <? TotalFunctions s then
      {| TotalFiles := TotalFiles s; TotalLines := TotalLines s;
         CoveredLines := CoveredLines s;
         LineCoverageRate := LineCoverageRate s;
         TotalFunctions := TotalFunctions s;
         CoveredFunctions := CoveredFunctions s;
         FunctionCoverageRate :=
           percentage (CoveredFunctions s) (TotalFunctions s);
         TotalBranches := TotalBranches s;
         CoveredBranches := CoveredBranches s;
         BranchCoverageRate := BranchCoverageRate s |}
    else s in
  if 0 <? TotalBranches s then
    {| TotalFiles := TotalFiles s; TotalLines := TotalLines s;
       CoveredLines := CoveredLines s;
       LineCoverageRate := LineCoverageRate s;
       TotalFunctions := TotalFunctions s;
       CoveredFunctions := CoveredFunctions s;
       FunctionCoverageRate := FunctionCoverageRate s;
       TotalBranches := TotalBranches s;
       CoveredBranches := CoveredBranches s;
       BranchCoverageRate :=
         percentage (CoveredBranches s) (TotalBranches s) |}
  else s.

(** [Parse]: the summary pointer and the error it returns, [None] for
    [nil]. *)
Definition Parse (p : Parser) : option Summary * option error :=
  match loop (Bufio.tokens (scanner p)) (emptySummary, zeroLocals) with
  | Err e => (None, Some e)
  | Ok (summary, _) => (Some (rates summary), Bufio.err (scanner p))
  end.

Definition Summarize (reader : Bufio.Reader) : option Summary * option error :=
  Parse (NewParser reader).

End Counters.

(** ** The extended parser, which also retains the per-file records *)

Module Extended.

Record LineData : Type := {
  LineNumber : Z;
  ExecutionCount : Z
}.

Record FunctionData : Type := {
  FnLineNumber : Z;
  Name : string
}.

Record BranchData : Type := {
  BrLineNumber : Z;
  BlockNumber : Z;
  BranchNumber : Z;
  BrExecutionCount : Z
}.

Record FileRecord : Type := {
  TestName : string;
  SourceFile : string;
  Lines : list LineData;
  LinesFound : Z;
  LinesHit : Z;
  Functions : list FunctionData;
  FunctionsHit : Z;
  Branches : list BranchData;
  BranchesFound : Z;
  BranchesHit : Z
}.

Record Summary : Type := {
  TotalFiles : Z;
  TotalLines : Z;
  CoveredLines : Z;
  LineCoverageRate : float;
  TotalFunctions : Z;
  CoveredFunctions : Z;
  FunctionCoverageRate : float;
  TotalBranches : Z;
  CoveredBranches : Z;
  BranchCoverageRate : float;
  Files : list FileRecord
}.

(** The summary under construction and [currentFile] ([None] for nil). *)
Definition State : Type := (Summary * option FileRecord)%type.

(** [&Summary{Files: make([]FileRecord, 0)}] *)
Definition emptySummary : Summary :=
  {| TotalFiles := 0; TotalLines := 0; CoveredLines := 0;
     LineCoverageRate := 0%float;
     TotalFunctions := 0; CoveredFunctions := 0;
     FunctionCoverageRate := 0%float;
     TotalBranches := 0; CoveredBranches := 0;
     BranchCoverageRate := 0%float;
     Files := [] |}.

(** [&FileRecord{TestName: testName, Lines: ..., Functions: ...,
    Branches: ...}] with three empty slices. *)
Definition newFileRecord (testName : string) : FileRecord :=
  {| TestName := testName; SourceFile := "";
     Lines := []; LinesFound := 0; LinesHit := 0;
     Functions := []; FunctionsHit := 0;
     Branches := []; BranchesFound := 0; BranchesHit := 0 |}.

Definition parseLineData (value : string) : result LineData :=
  match Split value "," with
  | [p0; p1] =>
      match Atoi p0 with
      | None => Err ("invalid line number: " ++ p0)
      | Some lineNumber =>
          match Atoi p1 with
          | None => Err ("invalid execution count: " ++ p1)
          | Some executionCount =>
              Ok {| LineNumber := lineNumber;
                    ExecutionCount := executionCount |}
          end
      end
  | _ => Err ("invalid line data format: " ++ value)
  end.

Definition parseFunctionName (value : string) : result FunctionData :=
  match SplitN value "," 2 with
  | [p0; p1] =>
      match Atoi p0 with
      | None => Err ("invalid function line number: " ++ p0)
      | Some lineNumber => Ok {| FnLineNumber := lineNumber; Name := p1 |}
      end
  | _ => Err ("invalid function name format: " ++ value)
  end.

Definition parseBranchData (value : string) : result BranchData :=
  match Split value "," with
  | [p0; p1; p2; p3] =>
      match Atoi p0 with
      | None => Err ("invalid branch line number: " ++ p0)
      | Some lineNumber =>
          match Atoi p1 with
          | None => Err ("invalid branch block number: " ++ p1)
          | Some blockNumber =>
              match Atoi p2 with
              | None => Err ("invalid branch number: " ++ p2)
              | Some branchNumber =>
                  if negb (String.eqb p3 "-") then
                    match Atoi p3 with
                    | None => Err ("invalid branch execution count: " ++ p3)
                    | Some executionCount =>
                        Ok {| BrLineNumber := lineNumber;
                              BlockNumber := blockNumber;
                              BranchNumber := branchNumber;
                              BrExecutionCount := executionCount |}
                    end
                  else
                    Ok {| BrLineNumber := lineNumber;
                          BlockNumber := blockNumber;
                          BranchNumber := branchNumber;
                          BrExecutionCount := 0 |}
              end
          end
      end
  | _ => Err ("invalid branch data format: " ++ value)
  end.

(** The assignments and appends to the fields of [*currentFile]. *)
Definition setTestName (f : FileRecord) (v : string) : FileRecord :=
  {| TestName := v; SourceFile := SourceFile f;
     Lines := Lines f; LinesFound := LinesFound f; LinesHit := LinesHit f;
     Functions := Functions f; FunctionsHit := FunctionsHit f;
     Branches := Branches f; BranchesFound := BranchesFound f;
     BranchesHit := BranchesHit f |}.

Definition setSourceFile (f : FileRecord) (v : string) : FileRecord :=
  {| TestName := TestName f; SourceFile := v;
     Lines := Lines f; LinesFound := LinesFound f; LinesHit := LinesHit f;
     Functions := Functions f; FunctionsHit := FunctionsHit f;
     Branches := Branches f; BranchesFound := BranchesFound f;
     BranchesHit := BranchesHit f |}.

Definition appendLine (f : FileRecord) (d : LineData) : FileRecord :=
  {| TestName := TestName f; SourceFile := SourceFile f;
     Lines := Lines f ++ [d]; LinesFound := LinesFound f;
     LinesHit := LinesHit f;
     Functions := Functions f; FunctionsHit := FunctionsHit f;
     Branches := Branches f; BranchesFound := BranchesFound f;
     BranchesHit := BranchesHit f |}.

Definition setLinesFound (f : FileRecord) (n : Z) : FileRecord :=
  {| TestName := TestName f; SourceFile := SourceFile f;
     Lines := Lines f; LinesFound := n; LinesHit := LinesHit f;
     Functions := Functions f; FunctionsHit := FunctionsHit f;
     Branches := Branches f; BranchesFound := BranchesFound f;
     BranchesHit := BranchesHit f |}.

Definition setLinesHit (f : FileRecord) (n : Z) : FileRecord :=
  {| TestName := TestName f; SourceFile := SourceFile f;
     Lines := Lines f; LinesFound := LinesFound f; LinesHit := n;
     Functions := Functions f; FunctionsHit := FunctionsHit f;
     Branches := Branches f; BranchesFound := BranchesFound f;
     BranchesHit := BranchesHit f |}.

Definition appendFunction (f : FileRecord) (d : FunctionData) : FileRecord :=
  {| TestName := TestName f; SourceFile := SourceFile f;
     Lines := Lines f; LinesFound := LinesFound f; LinesHit := LinesHit f;
     Functions := Functions f ++ [d]; FunctionsHit := FunctionsHit f;
     Branches := Branches f; BranchesFound := BranchesFound f;
     BranchesHit := BranchesHit f |}.

Definition incrFunctionsHit (f : FileRecord) : FileRecord :=
  {| TestName := TestName f; SourceFile := SourceFile f;
     Lines := Lines f; LinesFound := LinesFound f; LinesHit := LinesHit f;
     Functions := Functions f; FunctionsHit := GoInt.incr (FunctionsHit f);
     Branches := Branches f; BranchesFound := BranchesFound f;
     BranchesHit := BranchesHit f |}.

Definition appendBranch (f : FileRecord) (d : BranchData) : FileRecord :=
  {| TestName := TestName f; SourceFile := SourceFile f;
     Lines := Lines f; LinesFound := LinesFound f; LinesHit := LinesHit f;
     Functions := Functions f; FunctionsHit := FunctionsHit f;
     Branches := Branches f ++ [d]; BranchesFound := BranchesFound f;
     BranchesHit := BranchesHit f |}.

Definition setBranchesFound (f : FileRecord) (n : Z) : FileRecord :=
  {| TestName := TestName f; SourceFile := SourceFile f;
     Lines := Lines f; LinesFound := LinesFound f; LinesHit := LinesHit f;
     Functions := Functions f; FunctionsHit := FunctionsHit f;
     Branches := Branches f; BranchesFound := n;
     BranchesHit := BranchesHit f |}.

Definition setBranchesHit (f : FileRecord) (n : Z) : FileRecord :=
  {| TestName := TestName f; SourceFile := SourceFile f;
     Lines := Lines f; LinesFound := LinesFound f; LinesHit := LinesHit f;
     Functions := Functions f; FunctionsHit := FunctionsHit f;
     Branches := Branches f; BranchesFound := BranchesFound f;
     BranchesHit := n |}.

(** The fold of [*currentFile] into the summary at [end_of_record]. *)
Definition closeFile (summary : Summary) (f : FileRecord) : Summary :=
  {| TotalFiles := GoInt.incr (TotalFiles summary);
     TotalLines := GoInt.add (TotalLines summary) (LinesFound f);
     CoveredLines := GoInt.add (CoveredLines summary) (LinesHit f);
     LineCoverageRate := LineCoverageRate summary;
     TotalFunctions :=
       GoInt.add (TotalFunctions summary)
                 (Z.of_nat (List.length (Functions f)));
     CoveredFunctions := GoInt.add (CoveredFunctions summary) (FunctionsHit f);
     FunctionCoverageRate := FunctionCoverageRate summary;
     TotalBranches := GoInt.add (TotalBranches summary) (BranchesFound f);
     CoveredBranches := GoInt.add (CoveredBranches summary) (BranchesHit f);
     BranchCoverageRate := BranchCoverageRate summary;
     Files := Files summary ++ [f] |}.

(** The [switch record.Type] statement of the loop body: the state after
    it, or the error the loop returns with. *)
Definition dispatch (st : State) (record : Record_) : result State :=
  let '(summary, currentFile) := st in
  let value := Value record in
  match switch (Type_ record) with
  | CaseTestName =>
      match currentFile with
      | None => Ok (summary, Some (newFileRecord value))
      | Some f => Ok (summary, Some (setTestName f value))
      end
  | CaseSourceFile =>
      match currentFile with
      | None => Ok (summary, Some (setSourceFile (newFileRecord "") value))
      | Some f => Ok (summary, Some (setSourceFile f value))
      end
  | CaseLineData =>
      match currentFile with
      | None => Err "line data without source file"
      | Some f =>
          match parseLineData value with
          | Err e => Err e
          | Ok lineData => Ok (summary, Some (appendLine f lineData))
          end
      end
  | CaseLinesFound =>
      match currentFile with
      | None => Err "lines found without source file"
      | Some f =>
          match Atoi value with
          | None => Err ("invalid lines found value: " ++ value)
          | Some linesFound =>
              Ok (summary, Some (setLinesFound f linesFound))
          end
      end
  | CaseLinesHit =>
      match currentFile with
      | None => Err "lines hit without source file"
      | Some f =>
          match Atoi value with
          | None => Err ("invalid lines hit value: " ++ value)
          | Some linesHit => Ok (summary, Some (setLinesHit f linesHit))
          end
      end
  | CaseFunctionName =>
      match currentFile with
      | None => Err "function name without source file"
      | Some f =>
          match parseFunctionName value with
          | Err e => Err e
          | Ok functionData =>
              Ok (summary, Some (appendFunction f functionData))
          end
      end
  | CaseFunctionData =>
      match currentFile with
      | None => Err "function data without source file"
      | Some f =>
          if functionHit value then
            Ok (summary, Some (incrFunctionsHit f))
          else Ok st
      end
  | CaseBranchData =>
      match currentFile with
      | None => Err "branch data without source file"
      | Some f =>
          match parseBranchData value with
          | Err e => Err e
          | Ok branchData =>
              Ok (summary, Some (appendBranch f branchData))
          end
      end
  | CaseBranchFound =>
      match currentFile with
      | None => Err "branch found without source file"
      | Some f =>
          match Atoi value with
          | None => Err ("invalid branches found value: " ++ value)
          | Some branchesFound =>
              Ok (summary, Some (setBranchesFound f branchesFound))
          end
      end
  | CaseBranchHit =>
      match currentFile with
      | None => Err "branch hit without source file"
      | Some f =>
          match Atoi value with
          | None => Err ("invalid branches hit value: " ++ value)
          | Some branchesHit =>
              Ok (summary, Some (setBranchesHit f branchesHit))
          end
      end
  | CaseEndOfRecord =>
      match currentFile with
      | Some f => Ok (closeFile summary f, None)
      | None => Ok st
      end
  | CaseNone => Ok st
  end.

(** One turn of the [for p.scanner.Scan()] loop on the token [text]. *)
Definition step (st : State) (text : string) : result State :=
  let line := TrimSpace text in
  if String.eqb line "" then Ok st
  else
    match parseRecord line with
    | Err e => Err ("failed to parse line '" ++ line ++ "': " ++ e)
    | Ok record => dispatch st record
    end.

(** The loop over the tokens the scanner yields. *)
Fixpoint loop (toks : list string) (st : State) : result State :=
  match toks with
  | [] => Ok st
  | text :: rest =>
      match step st text with
      | Ok st' => loop rest st'
      | Err e => Err e
      end
  end.

(** "Calculate coverage rates": three guarded assignments. *)
Definition setLineCoverageRate (s : Summary) (r : float) : Summary :=
  {| TotalFiles := TotalFiles s; TotalLines := TotalLines s;
     CoveredLines := CoveredLines s; LineCoverageRate := r;
     TotalFunctions := TotalFunctions s;
     CoveredFunctions := CoveredFunctions s;
     FunctionCoverageRate := FunctionCoverageRate s;
     TotalBranches := TotalBranches s;
     CoveredBranches := CoveredBranches s;
     BranchCoverageRate := BranchCoverageRate s;
     Files := Files s |}.

Definition setFunctionCoverageRate (s : Summary) (r : float) : Summary :=
  {| TotalFiles := TotalFiles s; TotalLines := TotalLines s;
     CoveredLines := CoveredLines s;
     LineCoverageRate := LineCoverageRate s;
     TotalFunctions := TotalFunctions s;
     CoveredFunctions := CoveredFunctions s;
     FunctionCoverageRate := r;
     TotalBranches := TotalBranches s;
     CoveredBranches := CoveredBranches s;
     BranchCoverageRate := BranchCoverageRate s;
     Files := Files s |}.

Definition setBranchCoverageRate (s : Summary) (r : float) : Summary :=
  {| TotalFiles := TotalFiles s; TotalLines := TotalLines s;
     CoveredLines := CoveredLines s;
     LineCoverageRate := LineCoverageRate s;
     TotalFunctions := TotalFunctions s;
     CoveredFunctions := CoveredFunctions s;
     FunctionCoverageRate := FunctionCoverageRate s;
     TotalBranches := TotalBranches s;
     CoveredBranches := CoveredBranches s;
     BranchCoverageRate := r;
     Files := Files s |}.

Definition rates (s : Summary) : Summary :=
  let s :=
    if 0 <? TotalLines s then
      setLineCoverageRate s (percentage (CoveredLines s) (TotalLines s))
    else s in
  let s :=
    if 0 <? TotalFunctions s then
      setFunctionCoverageRate s
        (percentage (CoveredFunctions s) (TotalFunctions s))
    else s in
  if 0 <? TotalBranches s then
    setBranchCoverageRate s (percentage (CoveredBranches s) (TotalBranches s))
  else s.

(** [Parse]: the summary pointer and the error it returns, [None] for
    [nil]. *)
Definition Parse (p : Parser) : option Summary * option error :=
  match loop (Bufio.tokens (scanner p)) (emptySummary, None) with
  | Err e => (None, Some e)
  | Ok (summary, _) => (Some (rates summary), Bufio.err (scanner p))
  end.

Definition Summarize (reader : Bufio.Reader) : option Summary * option error :=
  Parse (NewParser reader).

End Extended.

(** ** The specification's view of an input

    The definitions of this part follow the wording of the specification:
    an input is a sequence of records, cut into file blocks by the
    end-of-record markers, and every total is a sum over the closed
    blocks.  They are compared with the parsers further down. *)

Module Spec.

(** The record a token stands for; none for a blank line and for a line
    the tokenizer rejects. *)
Definition recordOf (text : string) : option Record_ :=
  let line := TrimSpace text in
  if String.eqb line "" then None
  else
    match parseRecord line with
    | Ok r => Some r
    | Err _ => None
    end.

Fixpoint records (toks : list string) : list Record_ :=
  match toks with
  | [] => []
  | text :: rest =>
      match recordOf text with
      | Some r => r :: records rest
      | None => records rest
      end
  end.

Definition kind (r : Record_) : Case := switch (Type_ r).

Definition Case_eqb (a b : Case) : bool :=
  match a, b with
  | CaseTestName, CaseTestName
  | CaseSourceFile, CaseSourceFile
  | CaseLineData, CaseLineData
  | CaseLinesFound, CaseLinesFound
  | CaseLinesHit, CaseLinesHit
  | CaseFunctionName, CaseFunctionName
  | CaseFunctionData, CaseFunctionData
  | CaseBranchData, CaseBranchData
  | CaseBranchFound, CaseBranchFound
  | CaseBranchHit, CaseBranchHit
  | CaseEndOfRecord, CaseEndOfRecord
  | CaseNone, CaseNone => true
  | _, _ => false
  end.

Definition isKind (c : Case) (r : Record_) : bool := Case_eqb (kind r) c.

(** The eight kinds of record that belong to a file. *)
Definition fileScoped (c : Case) : bool :=
  match c with
  | CaseLineData | CaseLinesFound | CaseLinesHit | CaseFunctionName
  | CaseFunctionData | CaseBranchData | CaseBranchFound | CaseBranchHit =>
      true
  | _ => false
  end.

(** "<kind> without source file" *)
Definition sequencingError (c : Case) : error :=
  match c with
  | CaseLineData => "line data without source file"
  | CaseLinesFound => "lines found without source file"
  | CaseLinesHit => "lines hit without source file"
  | CaseFunctionName => "function name without source file"
  | CaseFunctionData => "function data without source file"
  | CaseBranchData => "branch data without source file"
  | CaseBranchFound => "branch found without source file"
  | CaseBranchHit => "branch hit without source file"
  | _ => ""
  end.

(** A file block is the list of its records, in reading order, the
    closing marker left out. *)
Definition Block : Type := list Record_.

(** Reading one record: with a block open, the marker closes it and any
    other record joins it; with none open, a record of an opening kind
    starts a block and any other record is passed over. *)
Definition read (opens : Case -> bool) (acc : list Block * option Block)
    (r : Record_) : list Block * option Block :=
  let '(closed, cur) := acc in
  match cur with
  | Some b =>
      if isKind CaseEndOfRecord r then ((closed ++ [b])%list, None)
      else (closed, Some (b ++ [r])%list)
  | None =>
      if opens (kind r) then (closed, Some [r]) else (closed, None)
  end.

Definition segment (opens : Case -> bool) (rs : list Record_)
    : list Block * option Block :=
  fold_left (read opens) rs ([], None).

Definition closedBlocks (opens : Case -> bool) (rs : list Record_)
    : list Block :=
  fst (segment opens rs).

Definition openBlock (opens : Case -> bool) (rs : list Record_)
    : option Block :=
  snd (segment opens rs).

(** What opens a block: a source-file record; in the extended parser also
    a test-name record. *)
Definition opensSF (c : Case) : bool :=
  match c with
  | CaseSourceFile => true
  | _ => false
  end.

Definition opensTNorSF (c : Case) : bool :=
  match c with
  | CaseTestName | CaseSourceFile => true
  | _ => false
  end.

(** The value of the last record of kind [c] in a block that parses as an
    integer; 0 when there is none. *)
Definition lastValue (c : Case) (b : Block) : Z :=
  fold_left
    (fun acc r =>
       if isKind c r then
         match Atoi (Value r) with
         | Some n => n
         | None => acc
         end
       else acc)
    b 0.

(** The number of records of kind [c] in a block. *)
Definition count (c : Case) (b : Block) : nat :=
  List.length (filter (isKind c) b).

(** The number of function-data records of a block whose execution count
    parsed and was positive. *)
Definition hits (b : Block) : nat :=
  List.length
    (filter (fun r => isKind CaseFunctionData r && functionHit (Value r)) b).

(** The mathematical sum of a list of integers. *)
Definition total (l : list Z) : Z := fold_right Z.add 0 l.

(** The inputs on which the two parsers are compared: no block holds a
    second source-file record, and after a test-name record met with no
    block open nothing but test-name and unrecognized records comes before
    the next source-file record.  [Pending] is the phase after such a
    test-name record, [Open] the one after the source-file record of a
    block. *)
Inductive Phase : Type :=
| Idle
| Pending
| Open.

Definition advance (ph : Phase) (c : Case) : option Phase :=
  match ph, c with
  | Idle, CaseTestName => Some Pending
  | Idle, CaseSourceFile => Some Open
  | Idle, _ => Some Idle
  | Pending, (CaseTestName | CaseNone) => Some Pending
  | Pending, CaseSourceFile => Some Open
  | Pending, _ => None
  | Open, CaseSourceFile => None
  | Open, CaseEndOfRecord => Some Idle
  | Open, _ => Some Open
  end.

Fixpoint sequenced (ph : Phase) (rs : list Record_) : bool :=
  match rs with
  | [] => true
  | r :: rs' =>
      match advance ph (kind r) with
      | Some ph' => sequenced ph' rs'
      | None => false
      end
  end.

End Spec.

(** The shared aggregate fields of an extended summary, as a summary of
    the counters-only parser. *)
Definition aggregates (s : Extended.Summary) : Counters.Summary :=
  {| Counters.TotalFiles := Extended.TotalFiles s;
     Counters.TotalLines := Extended.TotalLines s;
     Counters.CoveredLines := Extended.CoveredLines s;
     Counters.LineCoverageRate := Extended.LineCoverageRate s;
     Counters.TotalFunctions := Extended.TotalFunctions s;
     Counters.CoveredFunctions := Extended.CoveredFunctions s;
     Counters.FunctionCoverageRate := Extended.FunctionCoverageRate s;
     Counters.TotalBranches := Extended.TotalBranches s;
     Counters.CoveredBranches := Extended.CoveredBranches s;
     Counters.BranchCoverageRate := Extended.BranchCoverageRate s |}.

(** ** Inputs

    Readers and parsers over a text given line by line, and the sample
    reports used further down. *)

(** A reader over a text given line by line, the lines joined by
    newlines, that ends with [io.EOF]. *)
Definition textReader (ls : list string) : Bufio.Reader :=
  {| Bufio.data := String.concat (String Bufio.newline "") ls;
     Bufio.failure := None |}.

(** The reader of the scanner-error test: every [Read] fails. *)
Definition failingReader : Bufio.Reader :=
  {| Bufio.data := ""; Bufio.failure := Some "simulated read error" |}.

(** A parser over given tokens whose scanner ends without error. *)
Definition parserOf (toks : list string) : Parser :=
  {| scanner := {| Bufio.tokens := toks; Bufio.err := None |} |}.

(** The two-file report of the specification's scenario A. *)
Definition scenarioA : Bufio.Reader :=
  textReader
    ["SF:/a.go"; "DA:1,1"; "DA:2,0"; "LF:2"; "LH:1"; "end_of_record";
     "SF:/b.go"; "DA:1,1"; "LF:1"; "LH:1"; "end_of_record"].

(** A report with functions and branches, a repeated lines-found record
    and a last block that is never closed. *)
Definition scenarioFunctions : Bufio.Reader :=
  textReader
    ["TN:TestSuite"; "SF:/main.go"; "FN:1,main"; "FN:5,helper";
     "FNDA:3,main"; "FNDA:0,helper"; "DA:1,3"; "BRDA:1,0,0,-"; "BRF:2";
     "BRH:1"; "LF:6"; "LF:4"; "LH:4"; "end_of_record";
     "SF:/open.go"; "LF:100"; "LH:100"].

(** The state after ["SF:/a.go"]: a block open on that file. *)
Definition fileA : Extended.FileRecord :=
  Extended.setSourceFile (Extended.newFileRecord "") "/a.go".

(** ** The formats of the record values, in the specification's words *)

Module Format.

(** ["<int>,<int>"] *)
Definition lineData (v : string) : Prop :=
  exists a b la lb,
    Split v "," = [a; b] /\ Atoi a = Some la /\ Atoi b = Some lb.

(** ["<int>,<rest-of-line-as-name>"], split at the first comma only. *)
Definition functionName (v : string) : Prop :=
  exists a name la, SplitN v "," 2 = [a; name] /\ Atoi a = Some la.

(** ["<int>,<int>,<int>,<int-or-dash>"] *)
Definition branchData (v : string) : Prop :=
  exists a b c d la lb lc,
    Split v "," = [a; b; c; d]
    /\ Atoi a = Some la /\ Atoi b = Some lb /\ Atoi c = Some lc
    /\ (d = "-" \/ exists n, Atoi d = Some n).


End Format.

(** A record whose value has the format of its kind (the kinds without a
    format accept every value). *)
Definition wellFormed (r : Record_) : Prop :=
  match Spec.kind r with
  | CaseLineData => Format.lineData (Value r)
  | CaseFunctionName => Format.functionName (Value r)
  | CaseBranchData => Format.branchData (Value r)
  | CaseLinesFound | CaseLinesHit | CaseBranchFound | CaseBranchHit =>
      exists n, Atoi (Value r) = Some n
  | _ => True
  end.

(** A token that a parser with a block open accepts: a blank line or a
    well-formed record. *)
Definition acceptable (text : string) : Prop :=
  match Spec.recordOf text with
  | Some r => wellFormed r
  | None => TrimSpace text = ""
  end.

(** ** Error messages *)

(** The tags of the record kinds the format defines, the bare
    end-of-record marker apart. *)
Definition recognizedTags : list RecordType :=
  [RecordTestName; RecordSourceFile; RecordLineData; RecordLinesFound;
   RecordLinesHit; RecordFunctionName; RecordFunctionData; RecordBranchData;
   RecordBranchFound; RecordBranchHit].

(** A message mentions a text when the text occurs in it. *)
Definition mentions (msg : error) (text : string) : Prop :=
  Strings.Contains msg text = true.

(** A result that is an error, without summary, whose message is [prefix]
    followed by the offending text. *)
Definition failsMentioning {S : Type} (res : option S * option error)
    (prefix offending : string) : Prop :=
  res = (None, Some (prefix ++ offending))
  /\ mentions (prefix ++ offending) offending.

(** ** The parser states and the specification's view *)

(** Reading a token: its record, if it stands for one. *)
Definition readToken (opens : Case -> bool)
    (acc : list Spec.Block * option Spec.Block) (text : string)
    : list Spec.Block * option Spec.Block :=
  match Spec.recordOf text with
  | Some r => Spec.read opens acc r
  | None => acc
  end.

(** A token that is an end-of-record marker. *)
Definition closesBlock (text : string) : bool :=
  match Spec.recordOf text with
  | Some r => Spec.isKind CaseEndOfRecord r
  | None => false
  end.

(** Whether a block is open. *)
Definition isOpen (cur : option Spec.Block) : bool :=
  match cur with
  | Some _ => true
  | None => false
  end.

(** No rate has been assigned yet. *)
Definition ExtendedRatesZero (s : Extended.Summary) : Prop :=
  Extended.LineCoverageRate s = 0%float
  /\ Extended.FunctionCoverageRate s = 0%float
  /\ Extended.BranchCoverageRate s = 0%float.

(** The six counters of a file record. *)
Definition fileCounts (f : Extended.FileRecord) : list Z :=
  [Extended.LinesFound f; Extended.LinesHit f;
   Z.of_nat (List.length (Extended.Functions f)); Extended.FunctionsHit f;
   Extended.BranchesFound f; Extended.BranchesHit f].

(** The totals of a summary are the sums over the closed blocks. *)
Definition TotalsMatch (sm : Extended.Summary) (closed : list Spec.Block)
    : Prop :=
  Extended.TotalFiles sm = GoInt.wrap (Z.of_nat (List.length closed))
  /\ Extended.TotalLines sm
     = GoInt.sum (map (Spec.lastValue CaseLinesFound) closed)
  /\ Extended.CoveredLines sm
     = GoInt.sum (map (Spec.lastValue CaseLinesHit) closed)
  /\ Extended.TotalFunctions sm
     = GoInt.sum
         (map (fun b => Z.of_nat (Spec.count CaseFunctionName b)) closed)
  /\ Extended.CoveredFunctions sm
     = GoInt.sum (map (fun b => Z.of_nat (Spec.hits b)) closed)
  /\ Extended.TotalBranches sm
     = GoInt.sum (map (Spec.lastValue CaseBranchFound) closed)
  /\ Extended.CoveredBranches sm
     = GoInt.sum (map (Spec.lastValue CaseBranchHit) closed).

(** The counters of the current file record are those of the open block. *)
Definition BlockMatches (f : Extended.FileRecord) (b : Spec.Block) : Prop :=
  Extended.LinesFound f = Spec.lastValue CaseLinesFound b
  /\ Extended.LinesHit f = Spec.lastValue CaseLinesHit b
  /\ List.length (Extended.Functions f) = Spec.count CaseFunctionName b
  /\ Extended.FunctionsHit f = GoInt.wrap (Z.of_nat (Spec.hits b))
  /\ Extended.BranchesFound f = Spec.lastValue CaseBranchFound b
  /\ Extended.BranchesHit f = Spec.lastValue CaseBranchHit b.

Definition ExtendedMatches (st : Extended.State)
    (acc : list Spec.Block * option Spec.Block) : Prop :=
  TotalsMatch (fst st) (fst acc)
  /\ match snd st, snd acc with
     | Some f, Some b => BlockMatches f b
     | None, None => True
     | _, _ => False
     end.

(** ** The two parsers side by side *)

(** Agreement of the two results: the same aggregate fields when a
    summary is returned, none returned by one when none is returned by
    the other, an error from one exactly when from the other, and the
    same error beside a summary. *)
Definition parsersAgree (p : Parser) : Prop :=
  option_map aggregates (fst (Extended.Parse p)) = fst (Counters.Parse p)
  /\ (snd (Extended.Parse p) = None <-> snd (Counters.Parse p) = None)
  /\ (fst (Extended.Parse p) <> None ->
      snd (Extended.Parse p) = snd (Counters.Parse p)).

(** The states of the two loops after the same tokens, by phase. *)
Definition Sim (ph : Spec.Phase) (stE : Extended.State)
    (stC : Counters.State) : Prop :=
  aggregates (fst stE) = fst stC
  /\ match ph with
     | Spec.Idle => snd stE = None /\ Counters.inFile (snd stC) = false
     | Spec.Pending =>
         Counters.inFile (snd stC) = false
         /\ exists f, snd stE = Some f /\ fileCounts f = [0; 0; 0; 0; 0; 0]
     | Spec.Open =>
         Counters.inFile (snd stC) = true
         /\ exists f,
             snd stE = Some f
             /\ [Extended.LinesFound f; Extended.LinesHit f;
                 GoInt.wrap (Z.of_nat (List.length (Extended.Functions f)));
                 Extended.FunctionsHit f;
                 Extended.BranchesFound f; Extended.BranchesHit f]
                = [Counters.currentFileLinesFound (snd stC);
                   Counters.currentFileLinesHit (snd stC);
                   Counters.currentFileFunctions (snd stC);
                   Counters.currentFileFunctionsHit (snd stC);
                   Counters.currentFileBranchesFound (snd stC);
                   Counters.currentFileBranchesHit (snd stC)]
     end.

(** The two loops end alike: both with an error, or both without and then
    with the same aggregate fields. *)
Definition endAlike (resE : result Extended.State)
    (resC : result Counters.State) : Prop :=
  match resE, resC with
  | Ok stE, Ok stC => aggregates (fst stE) = fst stC
  | Err _, Err _ => True
  | _, _ => False
  end.

(** ** Tactics *)

(** Case analysis along the branches of [step] taken in hypothesis [H]. *)
Ltac break_match_in H :=
  repeat match type of H with
         | context [match ?x with _ => _ end] => destruct x eqn:?
         end.

Ltac step_inv H :=
  break_match_in H; try discriminate H; inversion H; subst; clear H.

(** ** Further notions: texts, inputs and file records *)

(** Whether the byte [c] occurs in [s]. *)
Fixpoint hasByte (c : ascii) (s : string) : bool :=
  match s with
  | EmptyString => false
  | String d s' => Ascii.eqb d c || hasByte c s'
  end.

(** A parser over given tokens whose scanner ends with [e]. *)
Definition parserWith (toks : list string) (e : option error) : Parser :=
  {| scanner := {| Bufio.tokens := toks; Bufio.err := e |} |}.

(** A token that both parsers pass over: a blank line or a record of
    unrecognized kind. *)
Definition ignorable (text : string) : Prop :=
  TrimSpace text = ""
  \/ exists r, Spec.recordOf text = Some r /\ Spec.kind r = CaseNone.

(** A token that is a line-data or a branch-data record. *)
Definition isData (text : string) : bool :=
  match Spec.recordOf text with
  | Some r => Spec.isKind CaseLineData r || Spec.isKind CaseBranchData r
  | None => false
  end.

(** ** The counters-only parser and its blocks

    In the counters-only parser a source-file record starts the counts
    afresh also when a block is open: its block is the span from the last
    source-file record to the end-of-record marker. *)

Definition readCounters (acc : list Spec.Block * option Spec.Block)
    (r : Record_) : list Spec.Block * option Spec.Block :=
  let '(closed, cur) := acc in
  if Spec.isKind CaseSourceFile r then (closed, Some [r])
  else
    match cur with
    | Some b =>
        if Spec.isKind CaseEndOfRecord r then ((closed ++ [b])%list, None)
        else (closed, Some (b ++ [r])%list)
    | None => (closed, None)
    end.

Definition countersBlocks (rs : list Record_) : list Spec.Block :=
  fst (fold_left readCounters rs ([], None)).

Definition readCountersToken (acc : list Spec.Block * option Spec.Block)
    (text : string) : list Spec.Block * option Spec.Block :=
  match Spec.recordOf text with
  | Some r => readCounters acc r
  | None => acc
  end.

(** The totals of a counters-only summary as sums over closed blocks. *)
Definition CountersTotalsMatch (sm : Counters.Summary)
    (closed : list Spec.Block) : Prop :=
  Counters.TotalFiles sm = GoInt.wrap (Z.of_nat (List.length closed))
  /\ Counters.TotalLines sm
     = GoInt.sum (map (Spec.lastValue CaseLinesFound) closed)
  /\ Counters.CoveredLines sm
     = GoInt.sum (map (Spec.lastValue CaseLinesHit) closed)
  /\ Counters.TotalFunctions sm
     = GoInt.sum
         (map (fun b => Z.of_nat (Spec.count CaseFunctionName b)) closed)
  /\ Counters.CoveredFunctions sm
     = GoInt.sum (map (fun b => Z.of_nat (Spec.hits b)) closed)
  /\ Counters.TotalBranches sm
     = GoInt.sum (map (Spec.lastValue CaseBranchFound) closed)
  /\ Counters.CoveredBranches sm
     = GoInt.sum (map (Spec.lastValue CaseBranchHit) closed).

(** The local counters are those of the open block. *)
Definition LocalsMatch (v : Counters.Locals) (b : Spec.Block) : Prop :=
  Counters.currentFileLinesFound v = Spec.lastValue CaseLinesFound b
  /\ Counters.currentFileLinesHit v = Spec.lastValue CaseLinesHit b
  /\ Counters.currentFileFunctions v
     = GoInt.wrap (Z.of_nat (Spec.count CaseFunctionName b))
  /\ Counters.currentFileFunctionsHit v
     = GoInt.wrap (Z.of_nat (Spec.hits b))
  /\ Counters.currentFileBranchesFound v = Spec.lastValue CaseBranchFound b
  /\ Counters.currentFileBranchesHit v = Spec.lastValue CaseBranchHit b.

Definition CountersMatches (st : Counters.State)
    (acc : list Spec.Block * option Spec.Block) : Prop :=
  CountersTotalsMatch (fst st) (fst acc)
  /\ match snd acc with
     | Some b => Counters.inFile (snd st) = true /\ LocalsMatch (snd st) b
     | None => Counters.inFile (snd st) = false
     end.

(** ** The file records of the extended parser *)

(** The value of the last record of kind [c] in a block; the empty text
    when there is none. *)
Definition lastText (c : Case) (b : Spec.Block) : string :=
  fold_left (fun acc r => if Spec.isKind c r then Value r else acc) b "".

(** The entries that the line-data, function-name and branch-data records
    of a block parse to, in reading order. *)
Definition linesOf (b : Spec.Block) : list Extended.LineData :=
  flat_map
    (fun r =>
       if Spec.isKind CaseLineData r then
         match Extended.parseLineData (Value r) with
         | Ok d => [d]
         | Err _ => []
         end
       else [])
    b.

Definition functionsOf (b : Spec.Block) : list Extended.FunctionData :=
  flat_map
    (fun r =>
       if Spec.isKind CaseFunctionName r then
         match Extended.parseFunctionName (Value r) with
         | Ok d => [d]
         | Err _ => []
         end
       else [])
    b.

Definition branchesOf (b : Spec.Block) : list Extended.BranchData :=
  flat_map
    (fun r =>
       if Spec.isKind CaseBranchData r then
         match Extended.parseBranchData (Value r) with
         | Ok d => [d]
         | Err _ => []
         end
       else [])
    b.

(** The file record of a block. *)
Definition fileOf (b : Spec.Block) : Extended.FileRecord :=
  {| Extended.TestName := lastText CaseTestName b;
     Extended.SourceFile := lastText CaseSourceFile b;
     Extended.Lines := linesOf b;
     Extended.LinesFound := Spec.lastValue CaseLinesFound b;
     Extended.LinesHit := Spec.lastValue CaseLinesHit b;
     Extended.Functions := functionsOf b;
     Extended.FunctionsHit := GoInt.wrap (Z.of_nat (Spec.hits b));
     Extended.Branches := branchesOf b;
     Extended.BranchesFound := Spec.lastValue CaseBranchFound b;
     Extended.BranchesHit := Spec.lastValue CaseBranchHit b |}.

Definition FilesMatch (st : Extended.State)
    (acc : list Spec.Block * option Spec.Block) : Prop :=
  Extended.Files (fst st) = map fileOf (fst acc)
  /\ snd st = option_map fileOf (snd acc).

(** The totals of a summary recomputed from its file records. *)
Definition TotalsOfFiles (sm : Extended.Summary) : Prop :=
  Extended.TotalFiles sm
  = GoInt.wrap (Z.of_nat (List.length (Extended.Files sm)))
  /\ Extended.TotalLines sm
     = GoInt.sum (map Extended.LinesFound (Extended.Files sm))
  /\ Extended.CoveredLines sm
     = GoInt.sum (map Extended.LinesHit (Extended.Files sm))
  /\ Extended.TotalFunctions sm
     = GoInt.sum
         (map (fun f => Z.of_nat (List.length (Extended.Functions f)))
              (Extended.Files sm))
  /\ Extended.CoveredFunctions sm
     = GoInt.sum (map Extended.FunctionsHit (Extended.Files sm))
  /\ Extended.TotalBranches sm
     = GoInt.sum (map Extended.BranchesFound (Extended.Files sm))
  /\ Extended.CoveredBranches sm
     = GoInt.sum (map Extended.BranchesHit (Extended.Files sm)).

(** A file record and a summary without the line and branch entries. *)
Definition stripFile (f : Extended.FileRecord) : Extended.FileRecord :=
  {| Extended.TestName := Extended.TestName f;
     Extended.SourceFile := Extended.SourceFile f;
     Extended.Lines := [];
     Extended.LinesFound := Extended.LinesFound f;
     Extended.LinesHit := Extended.LinesHit f;
     Extended.Functions := Extended.Functions f;
     Extended.FunctionsHit := Extended.FunctionsHit f;
     Extended.Branches := [];
     Extended.BranchesFound := Extended.BranchesFound f;
     Extended.BranchesHit := Extended.BranchesHit f |}.

Definition stripSummary (s : Extended.Summary) : Extended.Summary :=
  {| Extended.TotalFiles := Extended.TotalFiles s;
     Extended.TotalLines := Extended.TotalLines s;
     Extended.CoveredLines := Extended.CoveredLines s;
     Extended.LineCoverageRate := Extended.LineCoverageRate s;
     Extended.TotalFunctions := Extended.TotalFunctions s;
     Extended.CoveredFunctions := Extended.CoveredFunctions s;
     Extended.FunctionCoverageRate := Extended.FunctionCoverageRate s;
     Extended.TotalBranches := Extended.TotalBranches s;
     Extended.CoveredBranches := Extended.CoveredBranches s;
     Extended.BranchCoverageRate := Extended.BranchCoverageRate s;
     Extended.Files := map stripFile (Extended.Files s) |}.

Definition stripState (st : Extended.State) : Extended.State :=
  (stripSummary (fst st), option_map stripFile (snd st)).

(** The tokens of an input without its line-data and branch-data
    records. *)
Definition withoutData (toks : list string) : list string :=
  filter (fun t => negb (isData t)) toks.

(** A text of ASCII white space only: spaces, tabs, carriage returns and
    the like. *)
Fixpoint blank (s : string) : bool :=
  match s with
  | EmptyString => true
  | String c s' => Strings.asciiSpace c && blank s'
  end.

(** ** The number a binary64 value stands for

    What follows is not code of the program.  It gives the rational
    number that a binary64 value stands for, so that a rate the program
    computes can be compared with the exact quotient. *)

Definition signOf (s : bool) : Q := if s then (-1 # 1)%Q else 1%Q.

(** The value [(-1)^s * m * 2^e] of a finite number, 0 for the zeros. *)
Definition SF2Q (x : spec_float) : Q :=
  match x with
  | S754_finite s m e => (signOf s * inject_Z (Zpos m) * 2 ^ e)%Q
  | _ => 0%Q
  end.

(** The rational value of a [float64]; the infinities and NaN have none. *)
Definition rationalOf (f : float) : option Q :=
  match Prim2SF f with
  | S754_zero _ | S754_finite _ _ _ => Some (SF2Q (Prim2SF f))
  | S754_infinity _ | S754_nan => None
  end.

(** [v] is [x] up to the relative error [eps]. *)
Definition closeTo (eps v x : Q) : Prop := (Qabs (v - x) <= eps * Qabs x)%Q.

(** The relative error of one rounding to nearest, [2 ^ -53]. *)
Definition unitRoundoff : Q := 1 # 9007199254740992.

(** The relative error allowed to a rate, [2 ^ -50]: the rate comes out
    of four roundings (two conversions, a division, a multiplication). *)
Definition rateTolerance : Q := 1 # 1125899906842624.

(** [100 * covered / total], the exact quotient. *)
Definition exactPercentage (covered total : Z) : Q :=
  (inject_Z (100 * covered) / inject_Z total)%Q.

(** What is said of one rate and its two counts: 0.0 when the total is
    not positive; otherwise the result of the program's expression, which
    is a finite number and the exact quotient up to [rateTolerance]. *)
Definition RoundedPercentage (rate : float) (covered total : Z) : Prop :=
  (total <= 0 -> rate = 0%float)
  /\ (0 < total ->
      rate = (GoInt.float64 covered / GoInt.float64 total * 100)%float
      /\ exists v,
           rationalOf rate = Some v
           /\ closeTo rateTolerance v (exactPercentage covered total)).

(** The place of the exact quotient [N / D] between the integers around
    it: on the lower one, or below, at or above the middle. *)
Definition quotientLocation (N D : Z) : location :=
  if N mod D =? 0 then loc_Exact else loc_Inexact (2 * (N mod D) ?= D).

(** A shift record that holds the integer part of [N / D] and the place
    of the quotient. *)
Definition Located (N D : Z) (mrs : shr_record) : Prop :=
  shr_m mrs = N / D /\ loc_of_shr_record mrs = quotientLocation N D.

(** A finite number of sign [s] whose mantissa has 53 digits and whose
    exponent lies between [lo] and [hi]. *)
Definition normal53 (x : spec_float) (s : bool) (lo hi : Z) : Prop :=
  exists m e,
    x = S754_finite s m e /\ Zpos (digits2_pos m) = 53 /\ lo <= e <= hi.

(** * Properties *)

Local Open Scope list_scope.

(** ** Arithmetic of [int] *)

Section IntFacts.

Lemma wrap_in_range (z : Z) : GoInt.in_range z = true -> GoInt.wrap z = z.
Proof.
  unfold GoInt.in_range, GoInt.min_int, GoInt.max_int, GoInt.wrap.
  intros H. apply andb_prop in H. destruct H as [Hlo Hhi].
  apply Z.leb_le in Hlo. apply Z.leb_le in Hhi.
  rewrite Z.mod_small; lia.
Qed.

Lemma wrap_range (z : Z) : GoInt.in_range (GoInt.wrap z) = true.
Proof.
  unfold GoInt.in_range, GoInt.min_int, GoInt.max_int, GoInt.wrap.
  pose proof (Z.mod_pos_bound (z + 2 ^ 63) (2 ^ 64) ltac:(lia)) as B.
  apply andb_true_intro. split; apply Z.leb_le; lia.
Qed.

Lemma wrap_add_r (a b : Z) : GoInt.wrap (a + GoInt.wrap b) = GoInt.wrap (a + b).
Proof.
  unfold GoInt.wrap. f_equal.
  replace (a + ((b + 2 ^ 63) mod 2 ^ 64 - 2 ^ 63) + 2 ^ 63)
    with (a + (b + 2 ^ 63) mod 2 ^ 64) by lia.
  rewrite Z.add_mod_idemp_r by lia. f_equal. lia.
Qed.

Lemma wrap_add_l (a b : Z) : GoInt.wrap (GoInt.wrap a + b) = GoInt.wrap (a + b).
Proof. rewrite Z.add_comm, wrap_add_r. f_equal. lia. Qed.

Lemma add_wrap_r (a b : Z) : GoInt.add a (GoInt.wrap b) = GoInt.add a b.
Proof. apply wrap_add_r. Qed.

Lemma sum_from (l : list Z) (a : Z) :
  fold_left GoInt.add l (GoInt.wrap a) = GoInt.wrap (a + Spec.total l).
Proof.
  revert a. induction l as [|x l IH]; intros a; simpl.
  - f_equal. lia.
  - unfold GoInt.add at 2. rewrite wrap_add_l, IH. f_equal. lia.
Qed.

(** The sum computed with [+=] is the mathematical sum reduced to 64 bits,
    hence the mathematical sum itself whenever that is representable. *)
Lemma sum_wrap (l : list Z) : GoInt.sum l = GoInt.wrap (Spec.total l).
Proof.
  unfold GoInt.sum. change 0 with (GoInt.wrap 0) at 1. apply sum_from.
Qed.

Lemma sum_exact (l : list Z) :
  GoInt.in_range (Spec.total l) = true -> GoInt.sum l = Spec.total l.
Proof. intros H. rewrite sum_wrap. apply wrap_in_range, H. Qed.

Lemma sum_snoc (l : list Z) (x : Z) :
  GoInt.sum (l ++ [x]) = GoInt.add (GoInt.sum l) x.
Proof. unfold GoInt.sum. rewrite fold_left_app. reflexivity. Qed.

End IntFacts.

(** ** The loop of [Parse] *)

Lemma Extended_loop_app (a b : list string) (st : Extended.State) :
  Extended.loop (a ++ b) st =
  match Extended.loop a st with
  | Ok st' => Extended.loop b st'
  | Err e => Err e
  end.
Proof.
  revert st. induction a as [|t a IH]; intros st; simpl; [reflexivity|].
  destruct (Extended.step st t); [apply IH | reflexivity].
Qed.

Lemma Counters_loop_app (a b : list string) (st : Counters.State) :
  Counters.loop (a ++ b) st =
  match Counters.loop a st with
  | Ok st' => Counters.loop b st'
  | Err e => Err e
  end.
Proof.
  revert st. induction a as [|t a IH]; intros st; simpl; [reflexivity|].
  destruct (Counters.step st t); [apply IH | reflexivity].
Qed.

(** The arm selected by the switch and the tag of the record. *)
Lemma switch_tag (t : RecordType) :
  (switch t = CaseTestName <-> t = RecordTestName)
  /\ (switch t = CaseSourceFile <-> t = RecordSourceFile)
  /\ (switch t = CaseLineData <-> t = RecordLineData)
  /\ (switch t = CaseLinesFound <-> t = RecordLinesFound)
  /\ (switch t = CaseLinesHit <-> t = RecordLinesHit)
  /\ (switch t = CaseFunctionName <-> t = RecordFunctionName)
  /\ (switch t = CaseFunctionData <-> t = RecordFunctionData)
  /\ (switch t = CaseBranchData <-> t = RecordBranchData)
  /\ (switch t = CaseBranchFound <-> t = RecordBranchFound)
  /\ (switch t = CaseBranchHit <-> t = RecordBranchHit)
  /\ (switch t = CaseEndOfRecord <-> t = RecordEndOfRecord).
Proof.
  unfold switch.
  repeat match goal with
         | |- context [String.eqb t ?c] =>
             destruct (String.eqb_spec t c) as [-> | ?]
         end;
    repeat split; intros H; try discriminate H; try reflexivity;
    try contradiction.
Qed.

(** The specification's scenario A, on both parsers. *)
Lemma scenarioA_summary :
  (exists s,
      Extended.Summarize scenarioA = (Some s, None)
      /\ Extended.TotalFiles s = 2 /\ Extended.TotalLines s = 3
      /\ Extended.CoveredLines s = 2
      /\ Extended.LineCoverageRate s = percentage 2 3)
  /\ (exists s,
         Counters.Summarize scenarioA = (Some s, None)
         /\ Counters.TotalFiles s = 2 /\ Counters.TotalLines s = 3
         /\ Counters.CoveredLines s = 2
         /\ Counters.LineCoverageRate s = percentage 2 3).
Proof.
  split; eexists; (split; [vm_compute; reflexivity|]);
    repeat split; vm_compute; reflexivity.
Qed.

(** ** Coverage rates *)

Lemma Extended_step_rates (st st' : Extended.State) (text : string) :
  Extended.step st text = Ok st' ->
  ExtendedRatesZero (fst st) -> ExtendedRatesZero (fst st').
Proof.
  intros H Z0. unfold Extended.step, Extended.dispatch in H.
  step_inv H; simpl in *; try assumption.
Qed.

Lemma Extended_loop_rates (toks : list string) (st st' : Extended.State) :
  Extended.loop toks st = Ok st' ->
  ExtendedRatesZero (fst st) -> ExtendedRatesZero (fst st').
Proof.
  revert st. induction toks as [|t toks IH]; intros st H Z0; simpl in H.
  - inversion H; subst. exact Z0.
  - destruct (Extended.step st t) as [st1|e] eqn:E; [|discriminate].
    eapply IH; [exact H|]. eapply Extended_step_rates; eauto.
Qed.

Lemma Extended_Parse_inv (p : Parser) (s : Extended.Summary)
    (e : option error) :
  Extended.Parse p = (Some s, e) ->
  exists summary currentFile,
    Extended.loop (Bufio.tokens (scanner p)) (Extended.emptySummary, None)
    = Ok (summary, currentFile)
    /\ s = Extended.rates summary /\ e = Bufio.err (scanner p).
Proof.
  unfold Extended.Parse. intros H.
  destruct (Extended.loop _ _) as [[summary cf]|msg]; [|discriminate].
  inversion H; subst. eauto.
Qed.

Lemma Extended_rates_spec (sm : Extended.Summary) :
  ExtendedRatesZero sm ->
  let s := Extended.rates sm in
  (Extended.TotalFiles s = Extended.TotalFiles sm
   /\ Extended.TotalLines s = Extended.TotalLines sm
   /\ Extended.CoveredLines s = Extended.CoveredLines sm
   /\ Extended.TotalFunctions s = Extended.TotalFunctions sm
   /\ Extended.CoveredFunctions s = Extended.CoveredFunctions sm
   /\ Extended.TotalBranches s = Extended.TotalBranches sm
   /\ Extended.CoveredBranches s = Extended.CoveredBranches sm
   /\ Extended.Files s = Extended.Files sm)
  /\ Extended.LineCoverageRate s =
     (if 0 <? Extended.TotalLines sm
      then percentage (Extended.CoveredLines sm) (Extended.TotalLines sm)
      else 0%float)
  /\ Extended.FunctionCoverageRate s =
     (if 0 <? Extended.TotalFunctions sm
      then percentage (Extended.CoveredFunctions sm)
                      (Extended.TotalFunctions sm)
      else 0%float)
  /\ Extended.BranchCoverageRate s =
     (if 0 <? Extended.TotalBranches sm
      then percentage (Extended.CoveredBranches sm)
                      (Extended.TotalBranches sm)
      else 0%float).
Proof.
  intros (Hl & Hf & Hb). unfold Extended.rates.
  destruct (0 <? Extended.TotalLines sm) eqn:E1; simpl;
    destruct (0 <? Extended.TotalFunctions sm) eqn:E2; simpl;
    destruct (0 <? Extended.TotalBranches sm) eqn:E3; simpl;
    repeat split; try reflexivity; assumption.
Qed.

(** The rates of the repository's test reports. *)
Lemma percentage_samples :
  percentage 3 4 = 75%float
  /\ percentage 2 2 = 100%float
  /\ percentage 7 10 = 70%float
  /\ PrimFloat.ltb 66.625%float (percentage 6 9) = true
  /\ PrimFloat.ltb (percentage 6 9) 66.6875%float = true.
Proof. repeat split; vm_compute; reflexivity. Qed.

(** Whenever [Parse] returns a summary, each of its three rates is the
    value of [percentage] at its own two counts when the total is
    positive, and is 0.0 when the total is zero (or negative): no
    division takes place then. *)
Lemma Extended_rates_of_returned_summary (p : Parser)
    (s : Extended.Summary)
    (e : option error) :
  Extended.Parse p = (Some s, e) ->
  ((0 < Extended.TotalLines s ->
    Extended.LineCoverageRate s =
    percentage (Extended.CoveredLines s) (Extended.TotalLines s))
   /\ (Extended.TotalLines s <= 0 -> Extended.LineCoverageRate s = 0%float))
  /\ ((0 < Extended.TotalFunctions s ->
       Extended.FunctionCoverageRate s =
       percentage (Extended.CoveredFunctions s) (Extended.TotalFunctions s))
      /\ (Extended.TotalFunctions s <= 0 ->
          Extended.FunctionCoverageRate s = 0%float))
  /\ ((0 < Extended.TotalBranches s ->
       Extended.BranchCoverageRate s =
       percentage (Extended.CoveredBranches s) (Extended.TotalBranches s))
      /\ (Extended.TotalBranches s <= 0 ->
          Extended.BranchCoverageRate s = 0%float)).
Proof.
  intros H.
  destruct (Extended_Parse_inv _ _ _ H) as (sm & cf & Hloop & -> & _).
  assert (Z0 : ExtendedRatesZero sm).
  { apply (Extended_loop_rates _ _ _ Hloop). repeat split. }
  destruct (Extended_rates_spec sm Z0)
    as ((_ & Hl & Hcl & Hf & Hcf & Hb & Hcb & _) & Rl & Rf & Rb).
  cbv zeta in *.
  rewrite Hl, Hcl, Hf, Hcf, Hb, Hcb, Rl, Rf, Rb.
  repeat split; intros Hc.
  - apply Z.ltb_lt in Hc. rewrite Hc. reflexivity.
  - destruct (0 <? Extended.TotalLines sm) eqn:E; [|reflexivity].
    apply Z.ltb_lt in E. lia.
  - apply Z.ltb_lt in Hc. rewrite Hc. reflexivity.
  - destruct (0 <? Extended.TotalFunctions sm) eqn:E; [|reflexivity].
    apply Z.ltb_lt in E. lia.
  - apply Z.ltb_lt in Hc. rewrite Hc. reflexivity.
  - destruct (0 <? Extended.TotalBranches sm) eqn:E; [|reflexivity].
    apply Z.ltb_lt in E. lia.
Qed.

(** The counters-only parser computes its rates in the same way. *)
Lemma Counters_loop_rates (toks : list string) (st st' : Counters.State) :
  Counters.loop toks st = Ok st' ->
  Counters.LineCoverageRate (fst st') = Counters.LineCoverageRate (fst st)
  /\ Counters.FunctionCoverageRate (fst st')
     = Counters.FunctionCoverageRate (fst st)
  /\ Counters.BranchCoverageRate (fst st')
     = Counters.BranchCoverageRate (fst st).
Proof.
  revert st. induction toks as [|t toks IH]; intros st H; simpl in H.
  - inversion H; subst. repeat split.
  - destruct (Counters.step st t) as [st1|] eqn:E; [|discriminate H].
    destruct (IH _ H) as (-> & -> & ->).
    unfold Counters.step, Counters.dispatch in E.
    step_inv E; repeat split.
Qed.

(** X7.  Each rate of a summary that the counters-only [Parse] returns
    is the percentage of covered over total, as the program computes it,
    when the total is above 0, and 0 otherwise. *)
Lemma Counters_rates_of_returned_summary (p : Parser) (s : Counters.Summary)
    (e : option error) :
  Counters.Parse p = (Some s, e) ->
  Counters.LineCoverageRate s
  = (if 0 <? Counters.TotalLines s
     then percentage (Counters.CoveredLines s) (Counters.TotalLines s)
     else 0%float)
  /\ Counters.FunctionCoverageRate s
     = (if 0 <? Counters.TotalFunctions s
        then percentage (Counters.CoveredFunctions s)
                        (Counters.TotalFunctions s)
        else 0%float)
  /\ Counters.BranchCoverageRate s
     = (if 0 <? Counters.TotalBranches s
        then percentage (Counters.CoveredBranches s)
                        (Counters.TotalBranches s)
        else 0%float).
Proof.
  unfold Counters.Parse. intros H.
  destruct (Counters.loop _ _) as [[sm v]|] eqn:E; [|discriminate H].
  inversion H; subst; clear H.
  destruct (Counters_loop_rates _ _ _ E) as (Hl & Hf & Hb).
  simpl in Hl, Hf, Hb.
  destruct sm as [tf tl cl lr fn cf fr tb cb br]. simpl in Hl, Hf, Hb.
  subst lr fr br. unfold Counters.rates. cbn -[Z.ltb percentage].
  destruct (0 <? tl) eqn:E1; cbn -[Z.ltb percentage];
    destruct (0 <? fn) eqn:E2; cbn -[Z.ltb percentage];
    destruct (0 <? tb) eqn:E3; cbn -[Z.ltb percentage];
    rewrite ?E1, ?E2, ?E3; repeat split.
Qed.

(** ** Errors of the loop and of the scanner *)

Lemma Extended_Parse_step_error (p : Parser) (pre rest : list string)
    (text : string) (st : Extended.State) (msg : error) :
  Bufio.tokens (scanner p) = pre ++ text :: rest ->
  Extended.loop pre (Extended.emptySummary, None) = Ok st ->
  Extended.step st text = Err msg ->
  Extended.Parse p = (None, Some msg).
Proof.
  intros Ht Hpre Hstep. unfold Extended.Parse.
  rewrite Ht, Extended_loop_app, Hpre. simpl. rewrite Hstep. reflexivity.
Qed.

Lemma Counters_Parse_step_error (p : Parser) (pre rest : list string)
    (text : string) (st : Counters.State) (msg : error) :
  Bufio.tokens (scanner p) = pre ++ text :: rest ->
  Counters.loop pre (Counters.emptySummary, Counters.zeroLocals) = Ok st ->
  Counters.step st text = Err msg ->
  Counters.Parse p = (None, Some msg).
Proof.
  intros Ht Hpre Hstep. unfold Counters.Parse.
  rewrite Ht, Counters_loop_app, Hpre. simpl. rewrite Hstep. reflexivity.
Qed.

(** When every token is processed, [Parse] returns its summary together
    with whatever error the scanner ended with. *)
Lemma Extended_Parse_scanner_error (p : Parser) (st : Extended.State) :
  Extended.loop (Bufio.tokens (scanner p)) (Extended.emptySummary, None)
  = Ok st ->
  Extended.Parse p = (Some (Extended.rates (fst st)), Bufio.err (scanner p)).
Proof.
  intros H. unfold Extended.Parse. rewrite H. destruct st. reflexivity.
Qed.

Lemma Counters_Parse_scanner_error (p : Parser) (st : Counters.State) :
  Counters.loop (Bufio.tokens (scanner p))
                (Counters.emptySummary, Counters.zeroLocals)
  = Ok st ->
  Counters.Parse p = (Some (Counters.rates (fst st)), Bufio.err (scanner p)).
Proof.
  intros H. unfold Counters.Parse. rewrite H. destruct st. reflexivity.
Qed.

(** C3.  On the reader whose every read fails, both parsers hand back the
    read error together with a summary that is not nil (the empty one),
    where the claim asks for no summary at all. *)
Theorem read_error_comes_with_summary :
  Extended.Summarize failingReader
  = (Some Extended.emptySummary, Some "simulated read error")
  /\ Counters.Summarize failingReader
     = (Some Counters.emptySummary, Some "simulated read error").
Proof. split; vm_compute; reflexivity. Qed.

(** ** Test-name records and the opening of blocks *)

Lemma splitN_one (s : string) (sep : ascii) : Strings.splitN s sep 1 = [s].
Proof. destruct s; reflexivity. Qed.

Lemma Split_not_nil (s : string) (sep : ascii) : Strings.Split s sep <> [].
Proof.
  destruct s as [|c s]; simpl; [discriminate|].
  destruct (Ascii.eqb c sep); [discriminate|].
  destruct (Strings.Split s sep); discriminate.
Qed.

Lemma parseRecord_tag (tag value : string) :
  String.eqb (tag ++ ":" ++ value) "end_of_record" = false ->
  Strings.Split tag ":" = [tag] ->
  parseRecord (tag ++ ":" ++ value)
  = Ok {| Type_ := tag; Value := value |}.
Proof.
  intros Hne Htag. unfold parseRecord. rewrite Hne.
  assert (E : SplitN (tag ++ ":" ++ value) ":" 2 = [tag; value]).
  { unfold SplitN. revert Htag. clear Hne.
    induction tag as [|c tag IH]; intros Htag.
    - simpl. rewrite splitN_one. reflexivity.
    - simpl in Htag. cbn [String.append Strings.splitN].
      revert Htag. destruct (Ascii.eqb c ":"); [intros Htag; discriminate Htag|].
      destruct (Strings.Split tag ":") as [|h t] eqn:E; intros Htag;
        [elim (Split_not_nil _ _ E)|].
      inversion Htag; subst. cbn [String.append] in IH.
      rewrite IH; reflexivity. }
  rewrite E. reflexivity.
Qed.

Lemma parseLineData_error (v : string) (e : error) :
  Extended.parseLineData v = Err e ->
  exists x, e = ("invalid line " ++ x)%string
            \/ e = ("invalid execution count: " ++ x)%string.
Proof.
  unfold Extended.parseLineData. intros H.
  step_inv H; eexists; simpl; eauto.
Qed.

Lemma parseFunctionName_error (v : string) (e : error) :
  Extended.parseFunctionName v = Err e ->
  exists x, e = ("invalid function " ++ x)%string.
Proof.
  unfold Extended.parseFunctionName. intros H.
  step_inv H; eexists; simpl; eauto.
Qed.

Lemma parseBranchData_error (v : string) (e : error) :
  Extended.parseBranchData v = Err e ->
  exists x, e = ("invalid branch " ++ x)%string.
Proof.
  unfold Extended.parseBranchData. intros H.
  step_inv H; eexists; simpl; eauto.
Qed.

(** With a block open no record meets a sequencing error. *)
Lemma Extended_open_no_sequencing_error (summary : Extended.Summary)
    (f : Extended.FileRecord) (text : string) (r : Record_) :
  Spec.recordOf text = Some r ->
  Spec.fileScoped (Spec.kind r) = true ->
  Extended.step (summary, Some f) text
  <> Err (Spec.sequencingError (Spec.kind r)).
Proof.
  unfold Spec.recordOf, Extended.step, Extended.dispatch, Spec.kind.
  intros Hr Hfs.
  destruct (String.eqb (TrimSpace text) ""); [discriminate|].
  destruct (parseRecord (TrimSpace text)) as [r'|]; [|discriminate].
  inversion Hr; subst r'; clear Hr.
  destruct (switch (Type_ r)); simpl in Hfs; try discriminate; simpl.
  - destruct (Extended.parseLineData (Value r)) eqn:P; [discriminate|].
    apply parseLineData_error in P. destruct P as (x & [-> | ->]);
      simpl; discriminate.
  - destruct (Atoi (Value r)); simpl; discriminate.
  - destruct (Atoi (Value r)); simpl; discriminate.
  - destruct (Extended.parseFunctionName (Value r)) eqn:P; [discriminate|].
    apply parseFunctionName_error in P. destruct P as (x & ->).
    simpl; discriminate.
  - destruct (functionHit (Value r)); discriminate.
  - destruct (Extended.parseBranchData (Value r)) eqn:P; [discriminate|].
    apply parseBranchData_error in P. destruct P as (x & ->).
    simpl; discriminate.
  - destruct (Atoi (Value r)); simpl; discriminate.
  - destruct (Atoi (Value r)); simpl; discriminate.
Qed.

(** C9.  In the extended parser a test-name record met with no block open
    creates a file record (test name set, source path empty), so that the
    file-scoped records after it meet no sequencing error although no
    source-file record has appeared; ["TN:x"; "DA:1,1"] is accepted and
    ["TN:x"; "end_of_record"] counts one file with an empty source path. *)
Theorem test_name_opens_block :
  (forall (summary : Extended.Summary) (text v : string),
      TrimSpace text = ("TN:" ++ v)%string ->
      Extended.step (summary, None) text
      = Ok (summary, Some (Extended.newFileRecord v))
      /\ Extended.SourceFile (Extended.newFileRecord v) = ""%string
      /\ forall (next : string) (r : Record_),
          Spec.recordOf next = Some r ->
          Spec.fileScoped (Spec.kind r) = true ->
          Extended.step (summary, Some (Extended.newFileRecord v)) next
          <> Err (Spec.sequencingError (Spec.kind r)))
  /\ (exists s,
         Extended.Summarize (textReader ["TN:x"; "DA:1,1"]%string)
         = (Some s, None))
  /\ (exists s,
         Extended.Summarize (textReader ["TN:x"; "end_of_record"]%string)
         = (Some s, None)
         /\ Extended.TotalFiles s = 1
         /\ Extended.Files s = [Extended.newFileRecord "x"]
         /\ map Extended.SourceFile (Extended.Files s) = [""%string]).
Proof.
  split; [|split].
  - intros summary text v Ht. split; [|split].
    + unfold Extended.step. rewrite Ht.
      change ("TN:" ++ v)%string with ("TN" ++ ":" ++ v)%string.
      rewrite (parseRecord_tag "TN" v) by reflexivity. reflexivity.
    + reflexivity.
    + intros next r. apply Extended_open_no_sequencing_error.
  - eexists. vm_compute. reflexivity.
  - eexists. split; [vm_compute; reflexivity|]. repeat split.
Qed.

Lemma test_name_opens_block_witness :
  Extended.step (Extended.emptySummary, None) "  TN:x "
  = Ok (Extended.emptySummary, Some (Extended.newFileRecord "x"))
  /\ Extended.step (Extended.emptySummary, Some (Extended.newFileRecord "x"))
                   "DA:1,1"
     <> Err "line data without source file"%string.
Proof.
  destruct test_name_opens_block as (H & _).
  destruct (H Extended.emptySummary "  TN:x "%string "x"%string
              ltac:(vm_compute; reflexivity)) as (H1 & _ & H2).
  split; [exact H1|].
  apply (H2 "DA:1,1"%string {| Type_ := "DA"; Value := "1,1" |});
    vm_compute; reflexivity.
Defined.

(** ** An empty value after a recognized tag *)

(** C6.  On "FN:" followed by "end_of_record" both parsers return the
    sequencing error, which mentions neither the raw line nor one of the
    two format messages: the check that a block is open comes before any
    look at the value. *)
Lemma empty_function_name_not_a_format_error :
  exists msg,
    Extended.Summarize (textReader ["FN:"; "end_of_record"]%string)
    = (None, Some msg)
    /\ Counters.Summarize (textReader ["FN:"; "end_of_record"]%string)
       = (None, Some msg)
    /\ msg = "function name without source file"%string
    /\ ~ (mentions msg "FN:"
          /\ (mentions msg "invalid record format"
              \/ mentions msg "invalid function name format")).
Proof.
  exists "function name without source file"%string.
  split; [vm_compute; reflexivity|]. split; [vm_compute; reflexivity|].
  split; [reflexivity|].
  unfold mentions. intros (H & _). vm_compute in H. discriminate H.
Qed.

(** What the code does with an empty value: the tokenizer accepts every
    recognized tag followed by an empty value; "FN:" followed by
    "end_of_record" meets the sequencing check first; with a block open
    the empty function-name value is rejected by the validation of the
    value, the message ending with the (empty) value. *)
Theorem empty_value_after_tag :
  Forall
    (fun tag => parseRecord (tag ++ ":")%string
                = Ok {| Type_ := tag; Value := "" |})
    recognizedTags
  /\ Extended.Summarize (textReader ["FN:"; "end_of_record"]%string)
     = (None, Some "function name without source file"%string)
  /\ Counters.Summarize (textReader ["FN:"; "end_of_record"]%string)
     = (None, Some "function name without source file"%string)
  /\ (forall (summary : Extended.Summary) (f : Extended.FileRecord),
         Extended.step (summary, Some f) "FN:"
         = Err "invalid function name format: ")
  /\ Extended.Summarize
       (textReader ["SF:/a.go"; "FN:"; "end_of_record"]%string)
     = (None, Some "invalid function name format: "%string)
  /\ Counters.Summarize
       (textReader ["SF:/a.go"; "FN:"; "end_of_record"]%string)
     = (None, Some "invalid function name format: "%string).
Proof.
  split; [unfold recognizedTags; repeat constructor|].
  split; [vm_compute; reflexivity|].
  split; [vm_compute; reflexivity|].
  split; [intros summary f; reflexivity|].
  split; vm_compute; reflexivity.
Qed.

(** ** Validation of the record values *)

Lemma prefix_refl (s : string) : String.prefix s s = true.
Proof.
  induction s as [|c s IH]; simpl; [reflexivity|].
  destruct (ascii_dec c c); [exact IH | congruence].
Qed.

Lemma mentions_suffix (a b : string) : mentions (a ++ b)%string b.
Proof.
  unfold mentions. induction a as [|c a IH].
  - simpl. destruct b; simpl; [reflexivity|].
    destruct (ascii_dec a a); [|congruence].
    rewrite prefix_refl. reflexivity.
  - cbn [String.append Strings.Contains]. rewrite IH. apply orb_true_r.
Qed.


Lemma parseLineData_ok_iff (v : string) :
  (exists d, Extended.parseLineData v = Ok d) <-> Format.lineData v.
Proof.
  unfold Extended.parseLineData, Format.lineData. split.
  - intros (d & H). step_inv H. do 4 eexists. eauto.
  - intros (a & b & la & lb & -> & -> & ->). eauto.
Qed.

Lemma parseFunctionName_ok_iff (v : string) :
  (exists d, Extended.parseFunctionName v = Ok d) <-> Format.functionName v.
Proof.
  unfold Extended.parseFunctionName, Format.functionName. split.
  - intros (d & H). step_inv H. do 3 eexists. eauto.
  - intros (a & b & la & -> & ->). eauto.
Qed.

Lemma parseBranchData_ok_iff (v : string) :
  (exists d, Extended.parseBranchData v = Ok d) <-> Format.branchData v.
Proof.
  unfold Extended.parseBranchData, Format.branchData. split.
  - intros (d & H). step_inv H.
    + do 7 eexists. repeat split; eauto.
    + do 7 eexists. repeat split; eauto.
      left. apply String.eqb_eq.
      match goal with
      | E : negb _ = false |- _ => apply negb_false_iff in E; exact E
      end.
  - intros (a & b & c & d & la & lb & lc & -> & -> & -> & -> & Hd).
    destruct (String.eqb d "-") eqn:E; simpl; [eauto|].
    destruct Hd as [-> | (n & ->)]; [discriminate E | eauto].
Qed.

Lemma isValidLineData_iff (v : string) :
  Counters.isValidLineData v = true <-> Format.lineData v.
Proof.
  unfold Counters.isValidLineData, Format.lineData, succeeds. split.
  - intros H. step_inv H. do 4 eexists. eauto.
  - intros (a & b & la & lb & -> & -> & ->). reflexivity.
Qed.

Lemma isValidFunctionName_iff (v : string) :
  Counters.isValidFunctionName v = true <-> Format.functionName v.
Proof.
  unfold Counters.isValidFunctionName, Format.functionName, succeeds. split.
  - intros H. step_inv H. do 3 eexists. eauto.
  - intros (a & b & la & -> & ->). reflexivity.
Qed.

Lemma isValidBranchData_iff (v : string) :
  Counters.isValidBranchData v = true <-> Format.branchData v.
Proof.
  unfold Counters.isValidBranchData, Format.branchData, succeeds. split.
  - intros H. destruct (Split v ",") as [|a [|b [|c [|d [|]]]]];
      try discriminate H.
    destruct (Atoi a) as [la|] eqn:Ea; [|discriminate H].
    destruct (Atoi b) as [lb|] eqn:Eb; [|discriminate H].
    destruct (Atoi c) as [lc|] eqn:Ec; [|discriminate H].
    simpl in H. exists a, b, c, d, la, lb, lc.
    repeat (split; [solve [auto]|]).
    destruct (String.eqb d "-") eqn:E.
    + left. apply String.eqb_eq. exact E.
    + right. simpl in H. destruct (Atoi d) as [n|]; [eauto | discriminate H].
  - intros (a & b & c & d & la & lb & lc & -> & -> & -> & -> & Hd). simpl.
    destruct Hd as [-> | (n & ->)]; [reflexivity|].
    destruct (String.eqb d "-"); reflexivity.
Qed.

(** ** One turn of the loop on a record *)

Lemma Extended_step_record (st : Extended.State) (text : string)
    (r : Record_) :
  Spec.recordOf text = Some r ->
  Extended.step st text = Extended.dispatch st r.
Proof.
  unfold Spec.recordOf, Extended.step. intros H.
  destruct (String.eqb (TrimSpace text) ""); [discriminate H|].
  destruct (parseRecord (TrimSpace text)); [|discriminate H].
  inversion H; subst. reflexivity.
Qed.

Lemma Counters_step_record (st : Counters.State) (text : string)
    (r : Record_) :
  Spec.recordOf text = Some r ->
  Counters.step st text = Counters.dispatch st r.
Proof.
  unfold Spec.recordOf, Counters.step. intros H.
  destruct (String.eqb (TrimSpace text) ""); [discriminate H|].
  destruct (parseRecord (TrimSpace text)); [|discriminate H].
  inversion H; subst. reflexivity.
Qed.

(** A token that stands for no record is a blank line, which is skipped,
    or a line the tokenizer rejects, which ends the parse; both parsers
    treat it alike. *)
Lemma step_no_record (stE : Extended.State) (stC : Counters.State)
    (text : string) :
  Spec.recordOf text = None ->
  (Extended.step stE text = Ok stE /\ Counters.step stC text = Ok stC)
  \/ exists msg,
      Extended.step stE text = Err msg /\ Counters.step stC text = Err msg.
Proof.
  unfold Spec.recordOf, Extended.step, Counters.step. intros H.
  destruct (String.eqb (TrimSpace text) ""); [left; split; reflexivity|].
  destruct (parseRecord (TrimSpace text)); [discriminate H|].
  right. eexists. split; reflexivity.
Qed.

(** ** Function-data records *)



(** ** Branch-data records *)

(** C8.  For a branch-data record met with a block open: a fourth field
    "-" is accepted and stored as execution count 0; a value that has not
    four comma-separated parts ends the parse with "invalid branch data
    format: " and the value; a field that is not an integer (the fourth
    being allowed to be "-") ends it with a message that names the first
    such field.  The counters-only parser accepts the same values and
    rejects every other one with "invalid branch data format: " and the
    value. *)
Theorem branch_data_values (p : Parser) (pre rest : list string)
    (text : string) (r : Record_) :
  Bufio.tokens (scanner p) = pre ++ text :: rest ->
  Spec.recordOf text = Some r ->
  Spec.kind r = CaseBranchData ->
  (forall (summary : Extended.Summary) (f : Extended.FileRecord),
      Extended.loop pre (Extended.emptySummary, None)
      = Ok (summary, Some f) ->
      (forall a b c la lb lc,
          Split (Value r) "," = [a; b; c; "-"%string] ->
          Atoi a = Some la -> Atoi b = Some lb -> Atoi c = Some lc ->
          Extended.step (summary, Some f) text
          = Ok (summary,
                Some (Extended.appendBranch f
                        {| Extended.BrLineNumber := la;
                           Extended.BlockNumber := lb;
                           Extended.BranchNumber := lc;
                           Extended.BrExecutionCount := 0 |})))
      /\ (List.length (Split (Value r) ",") <> 4%nat ->
          failsMentioning (Extended.Parse p)
            "invalid branch data format: " (Value r))
      /\ (forall a b c d,
             Split (Value r) "," = [a; b; c; d] ->
             (Atoi a = None ->
              failsMentioning (Extended.Parse p)
                "invalid branch line number: " a)
             /\ (Atoi a <> None -> Atoi b = None ->
                 failsMentioning (Extended.Parse p)
                   "invalid branch block number: " b)
             /\ (Atoi a <> None -> Atoi b <> None -> Atoi c = None ->
                 failsMentioning (Extended.Parse p)
                   "invalid branch number: " c)
             /\ (Atoi a <> None -> Atoi b <> None -> Atoi c <> None ->
                 d <> "-"%string -> Atoi d = None ->
                 failsMentioning (Extended.Parse p)
                   "invalid branch execution count: " d)))
  /\ (forall (summary : Counters.Summary) (v : Counters.Locals),
         Counters.loop pre (Counters.emptySummary, Counters.zeroLocals)
         = Ok (summary, v) ->
         Counters.inFile v = true ->
         (Format.branchData (Value r) ->
          Counters.step (summary, v) text = Ok (summary, v))
         /\ (~ Format.branchData (Value r) ->
             failsMentioning (Counters.Parse p)
               "invalid branch data format: " (Value r)))
  /\ Extended.parseBranchData "10,2,1,-"
     = Ok {| Extended.BrLineNumber := 10; Extended.BlockNumber := 2;
             Extended.BranchNumber := 1; Extended.BrExecutionCount := 0 |}
  /\ Counters.isValidBranchData "10,2,1,-" = true.
Proof.
  intros Ht Hr K. unfold Spec.kind in K.
  split; [|split; [|split; reflexivity]].
  - intros summary f Hpre.
    pose proof (Extended_step_record (summary, Some f) text r Hr) as Hs.
    unfold Extended.dispatch in Hs. rewrite K in Hs.
    assert (Fail : forall pre' x,
               Extended.parseBranchData (Value r) = Err (pre' ++ x)%string ->
               failsMentioning (Extended.Parse p) pre' x).
    { intros pre' x E. split; [|apply mentions_suffix].
      eapply Extended_Parse_step_error; eauto. rewrite Hs, E. reflexivity. }
    split; [|split].
    + intros a b c la lb lc Hsp Ha Hb Hc. rewrite Hs.
      unfold Extended.parseBranchData. rewrite Hsp, Ha, Hb, Hc. reflexivity.
    + intros Hlen. apply Fail. unfold Extended.parseBranchData.
      destruct (Split (Value r) ",") as [|a [|b [|c [|d [|]]]]];
        try reflexivity.
      elim Hlen. reflexivity.
    + intros a b c d Hsp. split; [|split; [|split]].
      * intros Ha. apply Fail. unfold Extended.parseBranchData.
        rewrite Hsp, Ha. reflexivity.
      * intros Ha Hb. apply Fail. unfold Extended.parseBranchData.
        rewrite Hsp, Hb. destruct (Atoi a); [reflexivity | congruence].
      * intros Ha Hb Hc. apply Fail. unfold Extended.parseBranchData.
        rewrite Hsp, Hc.
        destruct (Atoi a); [|congruence]. destruct (Atoi b); [|congruence].
        reflexivity.
      * intros Ha Hb Hc Hd Hd'. apply Fail. unfold Extended.parseBranchData.
        rewrite Hsp, Hd'.
        destruct (Atoi a); [|congruence]. destruct (Atoi b); [|congruence].
        destruct (Atoi c); [|congruence].
        destruct (String.eqb d "-") eqn:E; [|reflexivity].
        apply String.eqb_eq in E. congruence.
  - intros summary v Hpre Hin.
    pose proof (Counters_step_record (summary, v) text r Hr) as Hs.
    unfold Counters.dispatch in Hs. rewrite K, Hin in Hs. simpl in Hs.
    split.
    + intros Hok. apply isValidBranchData_iff in Hok.
      rewrite Hs, Hok. reflexivity.
    + intros Hbad. split; [|apply mentions_suffix].
      eapply Counters_Parse_step_error; eauto. rewrite Hs.
      destruct (Counters.isValidBranchData (Value r)) eqn:E; [|reflexivity].
      elim Hbad. apply isValidBranchData_iff. exact E.
Qed.

Lemma branch_data_values_witness :
  Extended.Summarize
    (textReader ["SF:/a.go"; "BRDA:1,0,0"; "end_of_record"]%string)
  = (None, Some "invalid branch data format: 1,0,0"%string)
  /\ Counters.Summarize
       (textReader ["SF:/a.go"; "BRDA:1,0,x"; "end_of_record"]%string)
     = (None, Some "invalid branch data format: 1,0,x"%string)
  /\ Extended.step (Extended.emptySummary, Some fileA) "BRDA:10,2,1,-"
     = Ok (Extended.emptySummary,
           Some (Extended.appendBranch fileA
                   {| Extended.BrLineNumber := 10; Extended.BlockNumber := 2;
                      Extended.BranchNumber := 1;
                      Extended.BrExecutionCount := 0 |})).
Proof.
  split; [|split].
  - destruct (branch_data_values
                (NewParser
                   (textReader ["SF:/a.go"; "BRDA:1,0,0"; "end_of_record"]
                               %string))
                ["SF:/a.go"%string] ["end_of_record"%string]
                "BRDA:1,0,0"%string {| Type_ := "BRDA"; Value := "1,0,0" |}
                ltac:(vm_compute; reflexivity) ltac:(vm_compute; reflexivity)
                ltac:(vm_compute; reflexivity)) as (H & _).
    destruct (H Extended.emptySummary fileA ltac:(vm_compute; reflexivity))
      as (_ & Harity & _).
    destruct Harity as (Hres & _); [vm_compute; discriminate|].
    exact Hres.
  - destruct (branch_data_values
                (NewParser
                   (textReader ["SF:/a.go"; "BRDA:1,0,x"; "end_of_record"]
                               %string))
                ["SF:/a.go"%string] ["end_of_record"%string]
                "BRDA:1,0,x"%string {| Type_ := "BRDA"; Value := "1,0,x" |}
                ltac:(vm_compute; reflexivity) ltac:(vm_compute; reflexivity)
                ltac:(vm_compute; reflexivity)) as (_ & H & _).
    destruct (H Counters.emptySummary
                {| Counters.currentFileLinesFound := 0;
                   Counters.currentFileLinesHit := 0;
                   Counters.currentFileFunctions := 0;
                   Counters.currentFileFunctionsHit := 0;
                   Counters.currentFileBranchesFound := 0;
                   Counters.currentFileBranchesHit := 0;
                   Counters.inFile := true |}
                ltac:(vm_compute; reflexivity) ltac:(reflexivity))
      as (_ & Hbad).
    destruct Hbad as (Hres & _); [|exact Hres].
    intros (a & b & c & d & la & lb & lc & Hsp & _).
    vm_compute in Hsp. discriminate Hsp.
  - destruct (branch_data_values
                (NewParser
                   (textReader ["SF:/a.go"; "BRDA:10,2,1,-"]%string))
                ["SF:/a.go"%string] []
                "BRDA:10,2,1,-"%string
                {| Type_ := "BRDA"; Value := "10,2,1,-" |}
                ltac:(vm_compute; reflexivity) ltac:(vm_compute; reflexivity)
                ltac:(vm_compute; reflexivity)) as (H & _).
    destruct (H Extended.emptySummary fileA ltac:(vm_compute; reflexivity))
      as (Hdash & _).
    apply (Hdash "10"%string "2"%string "1"%string 10 2 1);
      vm_compute; reflexivity.
Defined.

(** ** The totals as sums over the closed blocks *)

Lemma records_fold (opens : Case -> bool) (toks : list string)
    (acc : list Spec.Block * option Spec.Block) :
  fold_left (Spec.read opens) (Spec.records toks) acc
  = fold_left (readToken opens) toks acc.
Proof.
  revert acc. induction toks as [|t toks IH]; intros acc; simpl;
    [reflexivity|].
  unfold readToken at 2. destruct (Spec.recordOf t); simpl; apply IH.
Qed.

Lemma lastValue_snoc (c : Case) (b : Spec.Block) (r : Record_) :
  Spec.lastValue c (b ++ [r])
  = if Spec.isKind c r then
      match Atoi (Value r) with
      | Some n => n
      | None => Spec.lastValue c b
      end
    else Spec.lastValue c b.
Proof. unfold Spec.lastValue. rewrite fold_left_app. reflexivity. Qed.

Lemma count_snoc (c : Case) (b : Spec.Block) (r : Record_) :
  Spec.count c (b ++ [r])
  = (Spec.count c b + if Spec.isKind c r then 1 else 0)%nat.
Proof.
  unfold Spec.count. rewrite filter_app, length_app. simpl.
  destruct (Spec.isKind c r); reflexivity.
Qed.

Lemma hits_snoc (b : Spec.Block) (r : Record_) :
  Spec.hits (b ++ [r])
  = (Spec.hits b
     + if Spec.isKind CaseFunctionData r && functionHit (Value r)
       then 1 else 0)%nat.
Proof.
  unfold Spec.hits. rewrite filter_app, length_app. simpl.
  destruct (Spec.isKind CaseFunctionData r && functionHit (Value r));
    reflexivity.
Qed.

Lemma incr_wrap_of_nat (n : nat) :
  GoInt.incr (GoInt.wrap (Z.of_nat n)) = GoInt.wrap (Z.of_nat (n + 1)).
Proof.
  unfold GoInt.incr, GoInt.add. rewrite wrap_add_l. f_equal. lia.
Qed.

Lemma TotalsMatch_close (sm : Extended.Summary) (f : Extended.FileRecord)
    (closed : list Spec.Block) (b : Spec.Block) :
  TotalsMatch sm closed -> BlockMatches f b ->
  TotalsMatch (Extended.closeFile sm f) (closed ++ [b]).
Proof.
  intros (T1 & T2 & T3 & T4 & T5 & T6 & T7) (B1 & B2 & B3 & B4 & B5 & B6).
  unfold TotalsMatch, Extended.closeFile.
  cbn [Extended.TotalFiles Extended.TotalLines Extended.CoveredLines
       Extended.TotalFunctions Extended.CoveredFunctions
       Extended.TotalBranches Extended.CoveredBranches].
  rewrite !map_app, length_app. cbn [map List.length]. rewrite !sum_snoc.
  rewrite T1, T2, T3, T4, T5, T6, T7, B1, B2, B3, B4, B5, B6.
  rewrite incr_wrap_of_nat, add_wrap_r. repeat split.
Qed.

Ltac block_goal K :=
  unfold BlockMatches, Spec.lastValue, Spec.count, Spec.hits;
  cbn [fold_left filter List.length
       Extended.LinesFound Extended.LinesHit Extended.Functions
       Extended.FunctionsHit Extended.BranchesFound Extended.BranchesHit
       Extended.newFileRecord Extended.setSourceFile];
  unfold Spec.isKind, Spec.kind; rewrite K; repeat split.

Ltac snoc_goal K :=
  unfold BlockMatches;
  rewrite ?lastValue_snoc, ?count_snoc, ?hits_snoc;
  unfold Spec.isKind, Spec.kind; rewrite K;
  cbn [Spec.Case_eqb andb
       Extended.LinesFound Extended.LinesHit Extended.Functions
       Extended.FunctionsHit Extended.BranchesFound Extended.BranchesHit
       Extended.setTestName Extended.setSourceFile Extended.appendLine
       Extended.setLinesFound Extended.setLinesHit Extended.appendFunction
       Extended.incrFunctionsHit Extended.appendBranch
       Extended.setBranchesFound Extended.setBranchesHit].

Lemma Extended_dispatch_matches (st st' : Extended.State)
    (acc : list Spec.Block * option Spec.Block) (r : Record_) :
  Extended.dispatch st r = Ok st' ->
  ExtendedMatches st acc ->
  ExtendedMatches st' (Spec.read Spec.opensTNorSF acc r).
Proof.
  destruct st as [sm cf], acc as [closed cur]. intros H [T B].
  simpl in T, B. unfold Extended.dispatch in H. unfold Spec.read.
  destruct cf as [f|], cur as [b|]; try contradiction.
  - (* a block is open *)
    destruct (switch (Type_ r)) eqn:K;
      try (step_inv H);
      unfold Spec.isKind at 1, Spec.kind at 1; rewrite K; simpl;
      try (split; [exact T|]); simpl.
    all: try (destruct B as (B1 & B2 & B3 & B4 & B5 & B6); snoc_goal K).
    all: try (rewrite ?Nat.add_0_r; repeat split; assumption).
    + (* LF *) rewrite Heqo. rewrite ?Nat.add_0_r. repeat split; assumption.
    + (* LH *) rewrite Heqo. rewrite ?Nat.add_0_r. repeat split; assumption.
    + (* FN *) rewrite length_app, ?Nat.add_0_r. simpl.
      repeat split; try assumption. congruence.
    + (* FNDA, counted *) rewrite Heqb0, ?Nat.add_0_r.
      repeat split; try assumption.
      rewrite B4. apply incr_wrap_of_nat.
    + (* FNDA, ignored *) rewrite Heqb0, ?Nat.add_0_r.
      repeat split; assumption.
    + (* BRF *) rewrite Heqo. rewrite ?Nat.add_0_r. repeat split; assumption.
    + (* BRH *) rewrite Heqo. rewrite ?Nat.add_0_r. repeat split; assumption.
    + (* end_of_record *) split; [|exact I]. apply TotalsMatch_close; assumption.
  - (* no block is open *)
    unfold Spec.kind.
    destruct (switch (Type_ r)) eqn:K; try discriminate H;
      inversion H; subst; clear H; simpl; split; try assumption;
      try exact I; simpl.
    + block_goal K.
    + block_goal K.
Qed.

Lemma Extended_step_matches (st st' : Extended.State)
    (acc : list Spec.Block * option Spec.Block) (text : string) :
  Extended.step st text = Ok st' ->
  ExtendedMatches st acc ->
  ExtendedMatches st' (readToken Spec.opensTNorSF acc text).
Proof.
  intros H M. unfold readToken.
  destruct (Spec.recordOf text) as [r|] eqn:R.
  - rewrite (Extended_step_record _ _ _ R) in H.
    eapply Extended_dispatch_matches; eauto.
  - destruct (step_no_record st (Counters.emptySummary, Counters.zeroLocals)
                text R) as [(E & _) | (msg & E & _)];
      rewrite E in H; [|discriminate H].
    inversion H; subst. exact M.
Qed.

Lemma Extended_loop_matches (toks : list string) (st st' : Extended.State)
    (acc : list Spec.Block * option Spec.Block) :
  Extended.loop toks st = Ok st' ->
  ExtendedMatches st acc ->
  ExtendedMatches st' (fold_left (readToken Spec.opensTNorSF) toks acc).
Proof.
  revert st acc. induction toks as [|t toks IH]; intros st acc H M;
    simpl in *.
  - inversion H; subst. exact M.
  - destruct (Extended.step st t) as [st1|] eqn:E; [|discriminate H].
    eapply IH; [exact H|]. eapply Extended_step_matches; eauto.
Qed.

Lemma Extended_init_matches :
  ExtendedMatches (Extended.emptySummary, None) ([], None).
Proof. repeat split. Qed.

(** The state the loop ends in and the segmentation of the input. *)
Lemma Extended_loop_segment (toks : list string) (st : Extended.State) :
  Extended.loop toks (Extended.emptySummary, None) = Ok st ->
  ExtendedMatches st (Spec.segment Spec.opensTNorSF (Spec.records toks)).
Proof.
  intros H. unfold Spec.segment. rewrite records_fold.
  eapply Extended_loop_matches; [exact H | apply Extended_init_matches].
Qed.

(** A line-data or branch-data record leaves the summary and the six
    counters of the block as they are. *)
Lemma Extended_data_records_count_nothing (summary : Extended.Summary)
    (f : Extended.FileRecord) (text : string) (r : Record_)
    (st' : Extended.State) :
  Spec.recordOf text = Some r ->
  Spec.kind r = CaseLineData \/ Spec.kind r = CaseBranchData ->
  Extended.step (summary, Some f) text = Ok st' ->
  exists f', st' = (summary, Some f') /\ fileCounts f' = fileCounts f.
Proof.
  intros R K H. rewrite (Extended_step_record _ _ _ R) in H.
  unfold Extended.dispatch, Spec.kind in *.
  destruct K as [K | K]; rewrite K in H; step_inv H;
    eexists; split; reflexivity.
Qed.

(** C2.  Whenever [Parse] returns a summary, its totals are sums over the
    closed file blocks of the input, taken in the arithmetic of [int]:
    the number of blocks, the last lines-found, lines-hit, branches-found
    and branches-hit values, the number of function-name records and the
    number of function-data records with a positive execution count.  Such
    a sum is the mathematical one whenever that is representable.  No
    line-data or branch-data record changes a total or a counter. *)
Theorem totals_are_sums_over_closed_blocks (p : Parser)
    (s : Extended.Summary) (e : option error) :
  Extended.Parse p = (Some s, e) ->
  let blocks :=
    Spec.closedBlocks Spec.opensTNorSF
      (Spec.records (Bufio.tokens (scanner p))) in
  (Extended.TotalFiles s = GoInt.wrap (Z.of_nat (List.length blocks))
   /\ Extended.TotalLines s
      = GoInt.sum (map (Spec.lastValue CaseLinesFound) blocks)
   /\ Extended.CoveredLines s
      = GoInt.sum (map (Spec.lastValue CaseLinesHit) blocks)
   /\ Extended.TotalFunctions s
      = GoInt.sum
          (map (fun b => Z.of_nat (Spec.count CaseFunctionName b)) blocks)
   /\ Extended.CoveredFunctions s
      = GoInt.sum (map (fun b => Z.of_nat (Spec.hits b)) blocks)
   /\ Extended.TotalBranches s
      = GoInt.sum (map (Spec.lastValue CaseBranchFound) blocks)
   /\ Extended.CoveredBranches s
      = GoInt.sum (map (Spec.lastValue CaseBranchHit) blocks))
  /\ (forall l : list Z,
         GoInt.in_range (Spec.total l) = true -> GoInt.sum l = Spec.total l)
  /\ (forall (summary : Extended.Summary) (f : Extended.FileRecord)
             (text : string) (r : Record_) (st' : Extended.State),
         Spec.recordOf text = Some r ->
         Spec.kind r = CaseLineData \/ Spec.kind r = CaseBranchData ->
         Extended.step (summary, Some f) text = Ok st' ->
         exists f', st' = (summary, Some f') /\ fileCounts f' = fileCounts f).
Proof.
  intros H blocks.
  destruct (Extended_Parse_inv _ _ _ H) as (sm & cf & Hloop & -> & _).
  split; [|split; [exact sum_exact | exact Extended_data_records_count_nothing]].
  pose proof (Extended_loop_segment _ _ Hloop) as [T _]. simpl in T.
  assert (Z0 : ExtendedRatesZero sm).
  { apply (Extended_loop_rates _ _ _ Hloop). repeat split. }
  destruct (Extended_rates_spec sm Z0)
    as ((R1 & R2 & R3 & R4 & R5 & R6 & R7 & _) & _).
  cbv zeta in *. rewrite R1, R2, R3, R4, R5, R6, R7. exact T.
Qed.

Lemma totals_are_sums_over_closed_blocks_witness :
  exists s,
    Extended.Summarize scenarioFunctions = (Some s, None)
    /\ Extended.TotalFiles s = 1
    /\ Extended.TotalLines s = 4 /\ Extended.CoveredLines s = 4
    /\ Extended.TotalFunctions s = 2 /\ Extended.CoveredFunctions s = 1
    /\ Extended.TotalBranches s = 2 /\ Extended.CoveredBranches s = 1.
Proof.
  eexists. split; [vm_compute; reflexivity|].
  match goal with
  | |- Extended.TotalFiles ?s = _ /\ _ =>
      destruct (totals_are_sums_over_closed_blocks
                  (NewParser scenarioFunctions) s None
                  ltac:(vm_compute; reflexivity))
        as ((T1 & T2 & T3 & T4 & T5 & T6 & T7) & _)
  end.
  repeat match goal with |- _ /\ _ => split end;
    [ etransitivity; [exact T1|] | etransitivity; [exact T2|]
    | etransitivity; [exact T3|] | etransitivity; [exact T4|]
    | etransitivity; [exact T5|] | etransitivity; [exact T6|]
    | etransitivity; [exact T7|] ];
    vm_compute; reflexivity.
Defined.

(** ** Blocks that are never closed *)

Lemma Extended_step_keeps_summary (st st' : Extended.State) (text : string) :
  Extended.step st text = Ok st' ->
  closesBlock text = false ->
  fst st' = fst st.
Proof.
  unfold closesBlock. intros H C.
  destruct (Spec.recordOf text) as [r|] eqn:R.
  - rewrite (Extended_step_record _ _ _ R) in H.
    unfold Spec.isKind, Spec.kind in C.
    destruct st as [sm cf]. unfold Extended.dispatch in H.
    destruct (switch (Type_ r)); try discriminate C;
      step_inv H; reflexivity.
  - destruct (step_no_record st (Counters.emptySummary, Counters.zeroLocals)
                text R) as [(E & _) | (msg & E & _)];
      rewrite E in H; [|discriminate H].
    inversion H; subst. reflexivity.
Qed.

Lemma Extended_loop_keeps_summary (toks : list string)
    (st st' : Extended.State) :
  Extended.loop toks st = Ok st' ->
  Forall (fun t => closesBlock t = false) toks ->
  fst st' = fst st.
Proof.
  revert st. induction toks as [|t toks IH]; intros st H F; simpl in H.
  - inversion H; subst. reflexivity.
  - destruct (Extended.step st t) as [st1|] eqn:E; [|discriminate H].
    inversion F; subst.
    rewrite (IH _ H) by assumption.
    eapply Extended_step_keeps_summary; eauto.
Qed.

Lemma Extended_step_acceptable (sm : Extended.Summary)
    (f : Extended.FileRecord) (text : string) :
  acceptable text ->
  closesBlock text = false ->
  exists f', Extended.step (sm, Some f) text = Ok (sm, Some f').
Proof.
  unfold acceptable, closesBlock. intros A C.
  destruct (Spec.recordOf text) as [r|] eqn:R.
  - rewrite (Extended_step_record _ _ _ R).
    unfold wellFormed, Spec.isKind, Spec.kind in *.
    unfold Extended.dispatch.
    destruct (switch (Type_ r)); try discriminate C; eauto.
    + apply parseLineData_ok_iff in A. destruct A as (d & ->). eauto.
    + destruct A as (n & ->). eauto.
    + destruct A as (n & ->). eauto.
    + apply parseFunctionName_ok_iff in A. destruct A as (d & ->). eauto.
    + destruct (functionHit (Value r)); eauto.
    + apply parseBranchData_ok_iff in A. destruct A as (d & ->). eauto.
    + destruct A as (n & ->). eauto.
    + destruct A as (n & ->). eauto.
  - exists f. unfold Extended.step. rewrite A. reflexivity.
Qed.

Lemma Extended_loop_acceptable (toks : list string) (sm : Extended.Summary)
    (f : Extended.FileRecord) :
  Forall acceptable toks ->
  Forall (fun t => closesBlock t = false) toks ->
  exists f', Extended.loop toks (sm, Some f) = Ok (sm, Some f').
Proof.
  revert f. induction toks as [|t toks IH]; intros f A C; simpl.
  - eauto.
  - inversion A; inversion C; subst.
    destruct (Extended_step_acceptable sm f t) as (f1 & ->); auto.
Qed.

(** C4.  Let the input be cut at a point after which no end-of-record
    marker follows, [sm] being the summary at the cut, and let the stream
    end without read error.  When the end of the input is reached with a
    block open, [Parse] succeeds, and the open block counts for nothing:
    the result is the one for the input up to the cut.  And the end is
    reached, with the block open, whenever a block is open at the cut and
    only blank lines and well-formed records follow. *)
Theorem open_block_is_dropped (p : Parser) (pre tail : list string)
    (sm : Extended.Summary) (cf : option Extended.FileRecord) :
  Bufio.tokens (scanner p) = pre ++ tail ->
  Bufio.err (scanner p) = None ->
  Extended.loop pre (Extended.emptySummary, None) = Ok (sm, cf) ->
  Forall (fun t => closesBlock t = false) tail ->
  (forall (sm' : Extended.Summary) (f : Extended.FileRecord),
      Extended.loop (Bufio.tokens (scanner p)) (Extended.emptySummary, None)
      = Ok (sm', Some f) ->
      sm' = sm
      /\ Extended.Parse p = (Some (Extended.rates sm), None)
      /\ Extended.Parse (parserOf pre) = Extended.Parse p
      /\ exists b,
          Spec.openBlock Spec.opensTNorSF
            (Spec.records (Bufio.tokens (scanner p))) = Some b)
  /\ (cf <> None -> Forall acceptable tail ->
      exists f,
        Extended.loop (Bufio.tokens (scanner p)) (Extended.emptySummary, None)
        = Ok (sm, Some f)).
Proof.
  intros Ht Herr Hpre F. split.
  - intros sm' f Hloop.
    pose proof Hloop as Hcut. rewrite Ht, Extended_loop_app, Hpre in Hcut.
    pose proof (Extended_loop_keeps_summary _ _ _ Hcut F) as Hk.
    simpl in Hk. subst sm'.
    assert (HP : Extended.Parse p = (Some (Extended.rates sm), None)).
    { rewrite (Extended_Parse_scanner_error p _ Hloop), Herr. reflexivity. }
    split; [reflexivity|]. split; [exact HP|]. split.
    + rewrite HP. unfold Extended.Parse, parserOf. simpl. rewrite Hpre.
      reflexivity.
    + pose proof (Extended_loop_segment _ _ Hloop) as [_ B]. simpl in B.
      unfold Spec.openBlock.
      destruct (snd (Spec.segment Spec.opensTNorSF
                       (Spec.records (Bufio.tokens (scanner p)))));
        [eauto | contradiction].
  - intros Hopen A. destruct cf as [f0|]; [|congruence].
    destruct (Extended_loop_acceptable tail sm f0 A F) as (f & Hf).
    exists f. rewrite Ht, Extended_loop_app, Hpre. exact Hf.
Qed.

Lemma open_block_is_dropped_witness :
  exists s,
    Extended.Summarize scenarioFunctions = (Some s, None)
    /\ Extended.Parse
         (parserOf
            ["TN:TestSuite"; "SF:/main.go"; "FN:1,main"; "FN:5,helper";
             "FNDA:3,main"; "FNDA:0,helper"; "DA:1,3"; "BRDA:1,0,0,-";
             "BRF:2"; "BRH:1"; "LF:6"; "LF:4"; "LH:4"; "end_of_record";
             "SF:/open.go"]%string)
       = (Some s, None)
    /\ Extended.TotalFiles s = 1 /\ Extended.TotalLines s = 4.
Proof.
  eassert (Hpre :
             Extended.loop
               ["TN:TestSuite"; "SF:/main.go"; "FN:1,main"; "FN:5,helper";
                "FNDA:3,main"; "FNDA:0,helper"; "DA:1,3"; "BRDA:1,0,0,-";
                "BRF:2"; "BRH:1"; "LF:6"; "LF:4"; "LH:4"; "end_of_record";
                "SF:/open.go"]%string
               (Extended.emptySummary, None)
             = Ok (_, Some _)) by (vm_compute; reflexivity).
  assert (F : Forall (fun t => closesBlock t = false)
                ["LF:100"; "LH:100"]%string) by (repeat constructor).
  assert (A : Forall acceptable ["LF:100"; "LH:100"]%string).
  { repeat constructor.
    - exists 100. reflexivity.
    - exists 100. reflexivity. }
  destruct (open_block_is_dropped (NewParser scenarioFunctions)
              ["TN:TestSuite"; "SF:/main.go"; "FN:1,main"; "FN:5,helper";
               "FNDA:3,main"; "FNDA:0,helper"; "DA:1,3"; "BRDA:1,0,0,-";
               "BRF:2"; "BRH:1"; "LF:6"; "LF:4"; "LH:4"; "end_of_record";
               "SF:/open.go"]%string
              ["LF:100"; "LH:100"]%string _ _
              ltac:(vm_compute; reflexivity) ltac:(vm_compute; reflexivity)
              Hpre F) as (Hdrop & Hend).
  destruct (Hend ltac:(discriminate) A) as (f & Hloop).
  destruct (Hdrop _ _ Hloop) as (_ & HP & Hcut & _).
  eexists. split; [exact HP|]. split; [rewrite Hcut; exact HP|].
  split; vm_compute; reflexivity.
Defined.

(** ** Records outside a block *)

Lemma Counters_dispatch_open (st st' : Counters.State)
    (acc : list Spec.Block * option Spec.Block) (r : Record_) :
  Counters.dispatch st r = Ok st' ->
  Counters.inFile (snd st) = isOpen (snd acc) ->
  Counters.inFile (snd st') = isOpen (snd (Spec.read Spec.opensSF acc r)).
Proof.
  destruct st as [sm v], acc as [closed cur]. simpl. intros H M.
  unfold Counters.dispatch in H. unfold Spec.read, Spec.isKind, Spec.kind.
  destruct (switch (Type_ r)) eqn:K; destruct cur as [b|]; simpl in *;
    rewrite ?M in H; simpl in H; step_inv H; simpl; auto.
Qed.

Lemma Counters_loop_open (toks : list string) (st st' : Counters.State)
    (acc : list Spec.Block * option Spec.Block) :
  Counters.loop toks st = Ok st' ->
  Counters.inFile (snd st) = isOpen (snd acc) ->
  Counters.inFile (snd st')
  = isOpen (snd (fold_left (readToken Spec.opensSF) toks acc)).
Proof.
  revert st acc. induction toks as [|t toks IH]; intros st acc H M;
    simpl in *.
  - inversion H; subst. exact M.
  - destruct (Counters.step st t) as [st1|] eqn:E; [|discriminate H].
    eapply IH; [exact H|]. unfold readToken.
    destruct (Spec.recordOf t) as [r|] eqn:R.
    + rewrite (Counters_step_record _ _ _ R) in E.
      eapply Counters_dispatch_open; eauto.
    + destruct (step_no_record (Extended.emptySummary, None) st t R)
        as [(_ & E') | (msg & _ & E')]; rewrite E' in E; [|discriminate E].
      inversion E; subst. exact M.
Qed.

Lemma Extended_dispatch_idle (summary : Extended.Summary) (r : Record_) :
  Spec.fileScoped (Spec.kind r) = true ->
  Extended.dispatch (summary, None) r
  = Err (Spec.sequencingError (Spec.kind r)).
Proof.
  unfold Extended.dispatch, Spec.kind.
  destruct (switch (Type_ r)); simpl; intros H;
    try discriminate H; reflexivity.
Qed.

Lemma Counters_dispatch_idle (summary : Counters.Summary)
    (v : Counters.Locals) (r : Record_) :
  Counters.inFile v = false ->
  Spec.fileScoped (Spec.kind r) = true ->
  Counters.dispatch (summary, v) r
  = Err (Spec.sequencingError (Spec.kind r)).
Proof.
  unfold Counters.dispatch, Spec.kind. intros ->.
  destruct (switch (Type_ r)); simpl; intros H;
    try discriminate H; reflexivity.
Qed.

(** The claim of C5 fails on the extended parser when a block is a span
    opened by a source-file record only: after "TN:x" no such block is
    open, and the line-data record that follows is accepted. *)
Lemma test_name_block_takes_line_data :
  Spec.openBlock Spec.opensSF (Spec.records ["TN:x"%string]) = None
  /\ (exists r,
         Spec.recordOf "DA:1,1" = Some r
         /\ Spec.fileScoped (Spec.kind r) = true)
  /\ exists s,
      Extended.Summarize (textReader ["TN:x"; "DA:1,1"]%string)
      = (Some s, None).
Proof.
  split; [reflexivity|]. split.
  - eexists. split; vm_compute; reflexivity.
  - eexists. vm_compute. reflexivity.
Qed.

(** C5, amended.  When a file-scoped record is met while no file block
    is open, no error having occurred before, [Parse] fails with the
    sequencing error of the record's kind and returns no summary.  A
    block is the span from a source-file record to the next end-of-record
    marker; in the extended parser a test-name record met with no block
    open opens one as well. *)
Theorem sequencing_errors (p : Parser) (pre rest : list string)
    (text : string) (r : Record_) :
  Bufio.tokens (scanner p) = pre ++ text :: rest ->
  Spec.recordOf text = Some r ->
  Spec.fileScoped (Spec.kind r) = true ->
  (forall st : Extended.State,
      Extended.loop pre (Extended.emptySummary, None) = Ok st ->
      Spec.openBlock Spec.opensTNorSF (Spec.records pre) = None ->
      Extended.Parse p = (None, Some (Spec.sequencingError (Spec.kind r))))
  /\ (forall st : Counters.State,
         Counters.loop pre (Counters.emptySummary, Counters.zeroLocals)
         = Ok st ->
         Spec.openBlock Spec.opensSF (Spec.records pre) = None ->
         Counters.Parse p
         = (None, Some (Spec.sequencingError (Spec.kind r)))).
Proof.
  intros Ht R Hfs. split.
  - intros [sm cf] Hpre Hopen.
    pose proof (Extended_loop_segment _ _ Hpre) as [_ B]. simpl in B.
    unfold Spec.openBlock in Hopen. rewrite Hopen in B.
    destruct cf as [f|]; [contradiction|].
    eapply Extended_Parse_step_error; eauto.
    rewrite (Extended_step_record _ _ _ R).
    apply Extended_dispatch_idle, Hfs.
  - intros [sm v] Hpre Hopen.
    pose proof (Counters_loop_open pre _ _ ([], None) Hpre eq_refl) as M.
    rewrite <- records_fold in M. simpl in M.
    unfold Spec.openBlock, Spec.segment in Hopen. rewrite Hopen in M.
    eapply Counters_Parse_step_error; eauto.
    rewrite (Counters_step_record _ _ _ R).
    apply Counters_dispatch_idle; assumption.
Qed.

Lemma sequencing_errors_witness :
  Extended.Summarize (textReader ["DA:1,5"; "end_of_record"]%string)
  = (None, Some "line data without source file"%string)
  /\ Counters.Summarize
       (textReader ["SF:/a.go"; "end_of_record"; "BRF:2"]%string)
     = (None, Some "branch found without source file"%string).
Proof.
  split.
  - destruct (sequencing_errors
                (NewParser (textReader ["DA:1,5"; "end_of_record"]%string))
                [] ["end_of_record"%string] "DA:1,5"%string
                {| Type_ := "DA"; Value := "1,5" |}
                ltac:(vm_compute; reflexivity) ltac:(vm_compute; reflexivity)
                ltac:(reflexivity)) as (H & _).
    apply (H (Extended.emptySummary, None)); reflexivity.
  - destruct (sequencing_errors
                (NewParser
                   (textReader ["SF:/a.go"; "end_of_record"; "BRF:2"]
                               %string))
                ["SF:/a.go"; "end_of_record"]%string [] "BRF:2"%string
                {| Type_ := "BRF"; Value := "2" |}
                ltac:(vm_compute; reflexivity) ltac:(vm_compute; reflexivity)
                ltac:(reflexivity)) as (_ & H).
    eapply H; vm_compute; reflexivity.
Defined.

(** ** Comparison of the two parsers *)

Lemma lineData_agree (v : string) :
  Counters.isValidLineData v
  = match Extended.parseLineData v with Ok _ => true | Err _ => false end.
Proof.
  destruct (Extended.parseLineData v) as [d|msg] eqn:E.
  - apply isValidLineData_iff, parseLineData_ok_iff. eauto.
  - destruct (Counters.isValidLineData v) eqn:V; [|reflexivity].
    apply isValidLineData_iff, parseLineData_ok_iff in V.
    destruct V as (d & V). congruence.
Qed.

Lemma functionName_agree (v : string) :
  Counters.isValidFunctionName v
  = match Extended.parseFunctionName v with Ok _ => true | Err _ => false end.
Proof.
  destruct (Extended.parseFunctionName v) as [d|msg] eqn:E.
  - apply isValidFunctionName_iff, parseFunctionName_ok_iff. eauto.
  - destruct (Counters.isValidFunctionName v) eqn:V; [|reflexivity].
    apply isValidFunctionName_iff, parseFunctionName_ok_iff in V.
    destruct V as (d & V). congruence.
Qed.

Lemma branchData_agree (v : string) :
  Counters.isValidBranchData v
  = match Extended.parseBranchData v with Ok _ => true | Err _ => false end.
Proof.
  destruct (Extended.parseBranchData v) as [d|msg] eqn:E.
  - apply isValidBranchData_iff, parseBranchData_ok_iff. eauto.
  - destruct (Counters.isValidBranchData v) eqn:V; [|reflexivity].
    apply isValidBranchData_iff, parseBranchData_ok_iff in V.
    destruct V as (d & V). congruence.
Qed.

Lemma aggregates_rates (sm : Extended.Summary) :
  aggregates (Extended.rates sm) = Counters.rates (aggregates sm).
Proof.
  destruct sm as [tf tl cl lr fn cf fr tb cb br files].
  unfold Extended.rates, Counters.rates, aggregates,
    Extended.setLineCoverageRate, Extended.setFunctionCoverageRate,
    Extended.setBranchCoverageRate.
  cbn -[Z.ltb percentage].
  destruct (0 <? tl); cbn -[Z.ltb percentage];
    destruct (0 <? fn); cbn -[Z.ltb percentage];
    destruct (0 <? tb); reflexivity.
Qed.

Lemma aggregates_closeFile (sm : Extended.Summary) (f : Extended.FileRecord)
    (v : Counters.Locals) :
  [Extended.LinesFound f; Extended.LinesHit f;
   GoInt.wrap (Z.of_nat (List.length (Extended.Functions f)));
   Extended.FunctionsHit f; Extended.BranchesFound f; Extended.BranchesHit f]
  = [Counters.currentFileLinesFound v; Counters.currentFileLinesHit v;
     Counters.currentFileFunctions v; Counters.currentFileFunctionsHit v;
     Counters.currentFileBranchesFound v; Counters.currentFileBranchesHit v] ->
  aggregates (Extended.closeFile sm f) = Counters.closeFile (aggregates sm) v.
Proof.
  intros H. injection H as H1 H2 H3 H4 H5 H6.
  unfold aggregates, Extended.closeFile, Counters.closeFile. simpl.
  rewrite <- H1, <- H2, <- H3, <- H4, <- H5, <- H6, add_wrap_r. reflexivity.
Qed.

Lemma Sim_dispatch_idle (stE : Extended.State) (stC : Counters.State)
    (r : Record_) (ph' : Spec.Phase) :
  Sim Spec.Idle stE stC ->
  Spec.advance Spec.Idle (Spec.kind r) = Some ph' ->
  match Extended.dispatch stE r, Counters.dispatch stC r with
  | Ok stE', Ok stC' => Sim ph' stE' stC'
  | Err _, Err _ => True
  | _, _ => False
  end.
Proof.
  destruct stE as [smE cfE], stC as [smC v]. intros [A [S1 S2]] Hadv.
  simpl in A, S1, S2. subst cfE.
  unfold Spec.kind in Hadv. unfold Extended.dispatch, Counters.dispatch.
  rewrite S2.
  destruct (switch (Type_ r)); simpl in Hadv; inversion Hadv; subst ph';
    simpl; try exact I; split; simpl; auto.
  - split; [assumption|]. eexists. split; reflexivity.
  - split; [reflexivity|]. eexists. split; reflexivity.
Qed.

Lemma Sim_dispatch_pending (stE : Extended.State) (stC : Counters.State)
    (r : Record_) (ph' : Spec.Phase) :
  Sim Spec.Pending stE stC ->
  Spec.advance Spec.Pending (Spec.kind r) = Some ph' ->
  match Extended.dispatch stE r, Counters.dispatch stC r with
  | Ok stE', Ok stC' => Sim ph' stE' stC'
  | Err _, Err _ => True
  | _, _ => False
  end.
Proof.
  destruct stE as [smE cfE], stC as [smC v].
  intros [A [S1 (f & S2 & S3)]] Hadv.
  simpl in A, S1, S2. subst cfE.
  unfold Spec.kind in Hadv. unfold Extended.dispatch, Counters.dispatch.
  unfold fileCounts in S3. injection S3 as H1 H2 H3 H4 H5 H6.
  destruct (switch (Type_ r)); simpl in Hadv; inversion Hadv; subst ph';
    simpl; split; simpl; auto.
  - split; [assumption|]. eexists. split; [reflexivity|].
    unfold fileCounts. simpl. rewrite H1, H2, H3, H4, H5, H6. reflexivity.
  - split; [reflexivity|]. eexists. split; [reflexivity|]. simpl.
    rewrite H1, H2, H3, H4, H5, H6. reflexivity.
  - split; [assumption|]. eexists. split; [reflexivity|].
    unfold fileCounts. rewrite H1, H2, H3, H4, H5, H6. reflexivity.
Qed.

Ltac sim_open :=
  split; [assumption|]; split; [reflexivity|];
  eexists; split; [reflexivity|]; simpl; try reflexivity.

Lemma Sim_dispatch_open (stE : Extended.State) (stC : Counters.State)
    (r : Record_) (ph' : Spec.Phase) :
  Sim Spec.Open stE stC ->
  Spec.advance Spec.Open (Spec.kind r) = Some ph' ->
  match Extended.dispatch stE r, Counters.dispatch stC r with
  | Ok stE', Ok stC' => Sim ph' stE' stC'
  | Err _, Err _ => True
  | _, _ => False
  end.
Proof.
  destruct stE as [smE cfE], stC as [smC v].
  intros [A [S1 (f & S2 & S3)]] Hadv.
  simpl in A, S1, S2. subst cfE.
  pose proof (aggregates_closeFile smE f v S3) as Hclose.
  destruct v as [vlf vlh vfn vfh vbf vbh vin]. simpl in S1, S3. subst vin.
  injection S3 as H1 H2 H3 H4 H5 H6. subst vlf vlh vfn vfh vbf vbh.
  unfold Spec.kind in Hadv. unfold Extended.dispatch, Counters.dispatch.
  cbv zeta.
  rewrite lineData_agree, functionName_agree, branchData_agree.
  destruct (switch (Type_ r)); simpl in Hadv; inversion Hadv; subst ph';
    clear Hadv; cbn [negb Counters.inFile].
  - (* TN *) sim_open.
  - (* DA *) destruct (Extended.parseLineData (Value r)); simpl;
      [sim_open | exact I].
  - (* LF *) destruct (Atoi (Value r)); [sim_open | exact I].
  - (* LH *) destruct (Atoi (Value r)); [sim_open | exact I].
  - (* FN *) destruct (Extended.parseFunctionName (Value r)); simpl;
      [sim_open | exact I].
    rewrite length_app. simpl. rewrite <- incr_wrap_of_nat. reflexivity.
  - (* FNDA *) destruct (functionHit (Value r)); sim_open.
  - (* BRDA *) destruct (Extended.parseBranchData (Value r)); simpl;
      [sim_open | exact I].
  - (* BRF *) destruct (Atoi (Value r)); [sim_open | exact I].
  - (* BRH *) destruct (Atoi (Value r)); [sim_open | exact I].
  - (* end_of_record *) split; [|split; reflexivity].
    simpl. rewrite Hclose, A. reflexivity.
  - (* unrecognized *) sim_open.
Qed.

Lemma Sim_dispatch (ph ph' : Spec.Phase) (stE : Extended.State)
    (stC : Counters.State) (r : Record_) :
  Sim ph stE stC ->
  Spec.advance ph (Spec.kind r) = Some ph' ->
  endAlike (Extended.dispatch stE r) (Counters.dispatch stC r)
  /\ forall stE' stC',
      Extended.dispatch stE r = Ok stE' ->
      Counters.dispatch stC r = Ok stC' ->
      Sim ph' stE' stC'.
Proof.
  intros S Hadv.
  assert (H : match Extended.dispatch stE r, Counters.dispatch stC r with
              | Ok stE', Ok stC' => Sim ph' stE' stC'
              | Err _, Err _ => True
              | _, _ => False
              end).
  { destruct ph;
      [ eapply Sim_dispatch_idle | eapply Sim_dispatch_pending
      | eapply Sim_dispatch_open ]; eauto. }
  unfold endAlike.
  destruct (Extended.dispatch stE r) as [stE1|], (Counters.dispatch stC r)
    as [stC1|]; try contradiction.
  - split; [exact (proj1 H)|]. intros ? ? E1 E2.
    inversion E1; inversion E2; subst. exact H.
  - split; [exact I|]. intros ? ? E1. discriminate E1.
Qed.

Lemma Sim_loop (toks : list string) (ph : Spec.Phase)
    (stE : Extended.State) (stC : Counters.State) :
  Sim ph stE stC ->
  Spec.sequenced ph (Spec.records toks) = true ->
  endAlike (Extended.loop toks stE) (Counters.loop toks stC).
Proof.
  revert ph stE stC. induction toks as [|t toks IH]; intros ph stE stC S Q.
  - simpl. exact (proj1 S).
  - simpl in Q |- *. destruct (Spec.recordOf t) as [r|] eqn:R.
    + simpl in Q.
      destruct (Spec.advance ph (Spec.kind r)) as [ph'|] eqn:Hadv;
        [|discriminate Q].
      rewrite (Extended_step_record _ _ _ R), (Counters_step_record _ _ _ R).
      destruct (Sim_dispatch _ _ _ _ _ S Hadv) as [HA HS].
      destruct (Extended.dispatch stE r) as [stE1|],
               (Counters.dispatch stC r) as [stC1|].
      * eapply IH; [apply HS; reflexivity | exact Q].
      * elim HA.
      * elim HA.
      * exact I.
    + destruct (step_no_record stE stC t R)
        as [(E1 & E2) | (msg & E1 & E2)]; rewrite E1, E2.
      * eapply IH; eauto.
      * exact I.
Qed.

(** The claim of C10 fails: the two parsers differ on a closed block that
    a test-name record opened, on a file-scoped record after such a
    record, and on a second source-file record inside a block. *)
Lemma parsers_disagree :
  ~ parsersAgree (NewParser (textReader ["TN:x"; "end_of_record"]%string))
  /\ ~ parsersAgree (NewParser (textReader ["TN:x"; "DA:1,1"]%string))
  /\ ~ parsersAgree
         (NewParser
            (textReader ["SF:/a.go"; "LF:5"; "SF:/b.go"; "end_of_record"]
                        %string)).
Proof.
  unfold parsersAgree. repeat split; intros [H1 _].
  - vm_compute in H1. discriminate H1.
  - vm_compute in H1. discriminate H1.
  - vm_compute in H1. discriminate H1.
Qed.

(** C10, amended.  On every input in which no file block holds a second
    source-file record, and in which a test-name record met with no block
    open is followed by test-name and unrecognized records only up to the
    next source-file record or the end of the input, the two parsers
    agree: both return no summary and an error, or both return summaries
    with the same aggregate fields and the same scanner error. *)
Theorem parsers_agree_when_sequenced (p : Parser) :
  Spec.sequenced Spec.Idle (Spec.records (Bufio.tokens (scanner p))) = true ->
  parsersAgree p.
Proof.
  intros Q.
  assert (S0 : Sim Spec.Idle (Extended.emptySummary, None)
                 (Counters.emptySummary, Counters.zeroLocals)).
  { repeat split. }
  pose proof (Sim_loop _ _ _ _ S0 Q) as H.
  unfold parsersAgree, Extended.Parse, Counters.Parse, endAlike in *.
  destruct (Extended.loop _ _) as [[smE cfE]|],
           (Counters.loop _ _) as [[smC v]|]; try contradiction; simpl.
  - simpl in H. rewrite aggregates_rates, H.
    split; [reflexivity|]. split; [reflexivity|]. intros _. reflexivity.
  - split; [reflexivity|]. split.
    + split; intros E; discriminate E.
    + intros E. elim E. reflexivity.
Qed.

Lemma parsers_agree_when_sequenced_witness :
  parsersAgree (NewParser scenarioFunctions)
  /\ parsersAgree
       (NewParser (textReader ["SF:/a.go"; "DA:1"; "end_of_record"]%string)).
Proof.
  split; apply parsers_agree_when_sequenced; vm_compute; reflexivity.
Defined.

(** * Further properties of the code *)

(** ** The tokenizer *)

Lemma splitN_no_sep (s : string) (sep : ascii) (n : nat) :
  hasByte sep s = false -> Strings.splitN s sep (S n) = [s].
Proof.
  revert n. induction s as [|c s IH]; intros n H.
  - destruct n as [|n]; reflexivity.
  - simpl in H. apply orb_false_iff in H. destruct H as [Hc Hs].
    destruct n as [|n]; [reflexivity|].
    cbn [Strings.splitN]. rewrite Hc, (IH (S n) Hs). reflexivity.
Qed.

Lemma splitN_two_cut (a b : string) (sep : ascii) :
  hasByte sep a = false ->
  Strings.splitN (a ++ String sep b) sep 2 = [a; b].
Proof.
  induction a as [|c a IH]; intros H.
  - cbn [String.append Strings.splitN]. rewrite Ascii.eqb_refl, splitN_one.
    reflexivity.
  - simpl in H. apply orb_false_iff in H. destruct H as [Hc Ha].
    cbn [String.append Strings.splitN]. rewrite Hc, (IH Ha). reflexivity.
Qed.

(** The two outcomes of a split in two: no separator and the text itself,
    or the cut at the first separator. *)
Lemma splitN_two_inv (s : string) (sep : ascii) :
  (hasByte sep s = false /\ Strings.splitN s sep 2 = [s])
  \/ exists a b,
      s = (a ++ String sep b)%string /\ hasByte sep a = false
      /\ Strings.splitN s sep 2 = [a; b].
Proof.
  induction s as [|c s IH].
  - left. split; reflexivity.
  - destruct (Ascii.eqb c sep) eqn:E.
    + right. apply Ascii.eqb_eq in E. subst c.
      exists EmptyString, s. repeat split.
      cbn [Strings.splitN]. rewrite Ascii.eqb_refl, splitN_one. reflexivity.
    + destruct IH as [[Hn Hs] | (a & b & -> & Ha & Hs)].
      * left. split; [simpl; rewrite E, Hn; reflexivity|].
        cbn [Strings.splitN]. rewrite E, Hs. reflexivity.
      * right. exists (String c a), b. repeat split.
        -- simpl. rewrite E, Ha. reflexivity.
        -- cbn [Strings.splitN]. rewrite E, Hs. reflexivity.
Qed.

(** X1.  [parseRecord] accepts the bare marker and every line with a
    colon; the record of such a line is the text before its first colon
    and the text after it, so that tag, colon and value give the line
    back. *)
Theorem parseRecord_accepts (line : string) (r : Record_) :
  parseRecord line = Ok r <->
  (line = "end_of_record"%string
   /\ r = {| Type_ := RecordEndOfRecord; Value := "" |})
  \/ (line <> "end_of_record"%string
      /\ line = (Type_ r ++ ":" ++ Value r)%string
      /\ hasByte ":" (Type_ r) = false).
Proof.
  unfold parseRecord.
  destruct (String.eqb_spec line "end_of_record") as [-> | Hne].
  - split.
    + intros H. inversion H; subst. left. split; reflexivity.
    + intros [[_ ->] | [Hc _]]; [reflexivity | congruence].
  - unfold SplitN. split.
    + intros H. right. split; [exact Hne|].
      destruct (splitN_two_inv line ":") as [[_ Hs] | (a & b & -> & Ha & Hs)];
        rewrite Hs in H; [discriminate H|].
      inversion H; subst. simpl. split; [reflexivity | exact Ha].
    + intros [[Hc _] | (_ & Hl & Ht)]; [congruence|].
      rewrite Hl. change (":" ++ Value r)%string with (String ":" (Value r)).
      rewrite (splitN_two_cut _ _ _ Ht). destruct r; reflexivity.
Qed.

(** X2.  [parseRecord] rejects exactly the lines that hold no colon and
    are not the bare marker, with "invalid record format: " and the
    line. *)
Theorem parseRecord_rejects (line : string) (msg : error) :
  parseRecord line = Err msg <->
  line <> "end_of_record"%string
  /\ hasByte ":" line = false
  /\ msg = ("invalid record format: " ++ line)%string.
Proof.
  unfold parseRecord.
  destruct (String.eqb_spec line "end_of_record") as [-> | Hne].
  - split; [discriminate | intros (H & _); congruence].
  - unfold SplitN.
    destruct (splitN_two_inv line ":") as [[Hn Hs] | (a & b & E & Ha & Hs)];
      rewrite Hs.
    + split.
      * intros H. inversion H; subst. repeat split; assumption.
      * intros (_ & _ & ->). reflexivity.
    + split; [discriminate|]. intros (_ & Hn & _). subst line.
      exfalso. clear - Hn. induction a as [|c a IH]; simpl in Hn.
      * discriminate Hn.
      * apply orb_false_iff in Hn. destruct Hn as [_ Hn]. exact (IH Hn).
Qed.

(** ** The values of line-data, function-name and branch-data records *)

Lemma Split_no_sep (s : string) (sep : ascii) :
  hasByte sep s = false -> Strings.Split s sep = [s].
Proof.
  induction s as [|c s IH]; intros H; [reflexivity|].
  simpl in H. apply orb_false_iff in H. destruct H as [Hc Hs].
  simpl. rewrite Hc, (IH Hs). reflexivity.
Qed.

Lemma Split_cut (a b : string) (sep : ascii) :
  hasByte sep a = false ->
  Strings.Split (a ++ String sep b) sep = a :: Strings.Split b sep.
Proof.
  induction a as [|c a IH]; intros H.
  - simpl. rewrite Ascii.eqb_refl. reflexivity.
  - simpl in H. apply orb_false_iff in H. destruct H as [Hc Ha].
    simpl. rewrite Hc, (IH Ha). reflexivity.
Qed.

Lemma Split_case (s : string) (sep : ascii) :
  (hasByte sep s = false /\ Strings.Split s sep = [s])
  \/ exists a b,
      s = (a ++ String sep b)%string /\ hasByte sep a = false
      /\ Strings.Split s sep = a :: Strings.Split b sep.
Proof.
  induction s as [|c s IH].
  - left. split; reflexivity.
  - destruct (Ascii.eqb c sep) eqn:E.
    + right. apply Ascii.eqb_eq in E. subst c.
      exists EmptyString, s. repeat split. simpl.
      rewrite Ascii.eqb_refl. reflexivity.
    + destruct IH as [[Hn Hs] | (a & b & -> & Ha & Hs)].
      * left. split; simpl; rewrite E; [exact Hn|]. rewrite Hs. reflexivity.
      * right. exists (String c a), b. repeat split.
        -- simpl. rewrite E. exact Ha.
        -- simpl. rewrite E, Hs. reflexivity.
Qed.

Lemma Split_one (s x : string) (sep : ascii) :
  Strings.Split s sep = [x] -> x = s /\ hasByte sep s = false.
Proof.
  destruct (Split_case s sep) as [[Hn Hs] | (a & b & -> & Ha & Hs)];
    rewrite Hs; intros H.
  - inversion H; subst. split; [reflexivity | exact Hn].
  - inversion H as [[H1 H2]]. elim (Split_not_nil _ _ H2).
Qed.

Lemma Split_cons (s a : string) (rest : list string) (sep : ascii) :
  Strings.Split s sep = a :: rest -> rest <> [] ->
  exists b, s = (a ++ String sep b)%string /\ Strings.Split b sep = rest.
Proof.
  destruct (Split_case s sep) as [[Hn Hs] | (a' & b & -> & Ha & Hs)];
    rewrite Hs; intros H Hr; inversion H; subst.
  - elim Hr. reflexivity.
  - exists b. split; reflexivity.
Qed.

Lemma digits_no_byte (c : ascii) (s : string) (acc n : Z) :
  Strconv.digit c = None -> Strconv.digits acc s = Some n ->
  hasByte c s = false.
Proof.
  intros Hc. revert acc. induction s as [|d s IH]; intros acc H;
    [reflexivity|].
  simpl in H. destruct (Strconv.digit d) as [k|] eqn:Hd; [|discriminate H].
  simpl. rewrite (IH _ H), orb_false_r.
  destruct (Ascii.eqb_spec d c) as [-> | ?]; [congruence | reflexivity].
Qed.

(** A text that [Atoi] accepts holds no comma. *)
Lemma Atoi_no_comma (s : string) (n : Z) :
  Atoi s = Some n -> hasByte "," s = false.
Proof.
  unfold Atoi. intros H.
  assert (D : forall body k,
             match body with
             | EmptyString => None
             | String _ _ =>
                 match Strconv.digits 0 body with
                 | Some m => k m
                 | None => None
                 end
             end = Some n -> hasByte "," body = false).
  { intros body k Hb. destruct body as [|c b]; [discriminate Hb|].
    destruct (Strconv.digits 0 (String c b)) as [m|] eqn:E;
      [|discriminate Hb].
    eapply digits_no_byte; [reflexivity | exact E]. }
  destruct s as [|c s]; [discriminate H|].
  destruct (Ascii.eqb_spec c "-") as [-> | Hm].
  - simpl. apply (D s (fun m => if GoInt.in_range (- m) then Some (- m)
                                else None)). exact H.
  - destruct (Ascii.eqb_spec c "+") as [-> | Hp].
    + simpl. apply (D s (fun m => if GoInt.in_range m then Some m else None)).
      exact H.
    + apply (D (String c s)
               (fun m => if GoInt.in_range m then Some m else None)).
      destruct c as [[] [] [] [] [] [] [] []]; try exact H; congruence.
Qed.

(** X3.  [parseLineData] accepts exactly the values made of two texts
    that [Atoi] accepts with one comma between them, and returns the two
    numbers. *)
Theorem parseLineData_accepts (v : string) (d : Extended.LineData) :
  Extended.parseLineData v = Ok d <->
  exists a b,
    v = (a ++ "," ++ b)%string
    /\ Atoi a = Some (Extended.LineNumber d)
    /\ Atoi b = Some (Extended.ExecutionCount d).
Proof.
  unfold Extended.parseLineData. split.
  - intros H.
    destruct (Split v ",") as [|p0 [|p1 [|]]] eqn:Hs; try discriminate H.
    destruct (Atoi p0) as [la|] eqn:Ha; [|discriminate H].
    destruct (Atoi p1) as [lb|] eqn:Hb; [|discriminate H].
    inversion H; subst; clear H. simpl.
    destruct (Split_cons _ _ _ _ Hs ltac:(discriminate)) as (b & -> & Hb').
    apply Split_one in Hb'. destruct Hb' as [-> _].
    exists p0, b. repeat split; assumption.
  - intros (a & b & -> & Ha & Hb).
    change ("," ++ b)%string with (String "," b).
    rewrite (Split_cut _ _ _ (Atoi_no_comma _ _ Ha)).
    rewrite (Split_no_sep _ _ (Atoi_no_comma _ _ Hb)).
    rewrite Ha, Hb. destruct d; reflexivity.
Qed.

(** X4.  [parseFunctionName] cuts the value at its first comma only: it
    accepts exactly a text that [Atoi] accepts, a comma and any name, be
    it empty or with further commas, and returns the number and the
    name. *)
Theorem parseFunctionName_accepts (v : string) (d : Extended.FunctionData) :
  Extended.parseFunctionName v = Ok d <->
  exists a,
    v = (a ++ "," ++ Extended.Name d)%string
    /\ Atoi a = Some (Extended.FnLineNumber d).
Proof.
  unfold Extended.parseFunctionName, SplitN. split.
  - intros H.
    destruct (splitN_two_inv v ",") as [[_ Hs] | (a & b & -> & Hn & Hs)];
      rewrite Hs in H; [discriminate H|].
    destruct (Atoi a) as [la|] eqn:Ha; [|discriminate H].
    inversion H; subst; clear H. simpl. exists a. split; [reflexivity|].
    exact Ha.
  - intros (a & -> & Ha).
    change ("," ++ Extended.Name d)%string
      with (String "," (Extended.Name d)).
    rewrite (splitN_two_cut _ _ _ (Atoi_no_comma _ _ Ha)), Ha.
    destruct d; reflexivity.
Qed.

(** X5.  [parseBranchData] accepts exactly the values made of four
    comma-separated fields of which the first three are accepted by
    [Atoi] and the fourth is "-" or accepted by [Atoi]; it returns the
    numbers, with 0 for "-". *)
Theorem parseBranchData_accepts (v : string) (d : Extended.BranchData) :
  Extended.parseBranchData v = Ok d <->
  exists a b c e,
    v = (a ++ "," ++ b ++ "," ++ c ++ "," ++ e)%string
    /\ Atoi a = Some (Extended.BrLineNumber d)
    /\ Atoi b = Some (Extended.BlockNumber d)
    /\ Atoi c = Some (Extended.BranchNumber d)
    /\ ((e = "-"%string /\ Extended.BrExecutionCount d = 0)
        \/ Atoi e = Some (Extended.BrExecutionCount d)).
Proof.
  unfold Extended.parseBranchData. split.
  - intros H.
    destruct (Split v ",") as [|p0 [|p1 [|p2 [|p3 [|]]]]] eqn:Hs;
      try discriminate H.
    destruct (Atoi p0) as [la|] eqn:Ha; [|discriminate H].
    destruct (Atoi p1) as [lb|] eqn:Hb; [|discriminate H].
    destruct (Atoi p2) as [lc|] eqn:Hc; [|discriminate H].
    destruct (Split_cons _ _ _ _ Hs ltac:(discriminate)) as (s1 & -> & Hs1).
    destruct (Split_cons _ _ _ _ Hs1 ltac:(discriminate)) as (s2 & -> & Hs2).
    destruct (Split_cons _ _ _ _ Hs2 ltac:(discriminate)) as (s3 & -> & Hs3).
    apply Split_one in Hs3. destruct Hs3 as [-> _].
    exists p0, p1, p2, s3.
    destruct (String.eqb_spec s3 "-") as [-> | Hne]; simpl in H.
    + inversion H; subst; clear H. simpl. repeat split; auto.
    + destruct (Atoi s3) as [n|] eqn:Hd; [|discriminate H].
      inversion H; subst; clear H. simpl. repeat split; auto.
  - intros (a & b & c & e & -> & Ha & Hb & Hc & He).
    change (a ++ "," ++ b ++ "," ++ c ++ "," ++ e)%string
      with (a ++ String "," (b ++ String "," (c ++ String "," e)))%string.
    rewrite !Split_cut by (eapply Atoi_no_comma; eassumption).
    assert (Hn : hasByte "," e = false).
    { destruct He as [[-> _] | He]; [reflexivity|].
      eapply Atoi_no_comma; eassumption. }
    rewrite (Split_no_sep _ _ Hn), Ha, Hb, Hc.
    destruct He as [[-> Hz] | He].
    + simpl. destruct d; simpl in *; subst; reflexivity.
    + destruct (String.eqb_spec e "-") as [-> | Hne]; [discriminate He|].
      simpl. rewrite He. destruct d; reflexivity.
Qed.

(** X6.  The validators of the counters-only parser accept exactly the
    values that the parse functions of the extended parser accept. *)
Theorem validators_accept_what_is_parsed (v : string) :
  (Counters.isValidLineData v = true
   <-> exists d, Extended.parseLineData v = Ok d)
  /\ (Counters.isValidFunctionName v = true
      <-> exists d, Extended.parseFunctionName v = Ok d)
  /\ (Counters.isValidBranchData v = true
      <-> exists d, Extended.parseBranchData v = Ok d).
Proof.
  rewrite lineData_agree, functionName_agree, branchData_agree.
  repeat split;
    try (intros H;
         match type of H with
         | match ?x with _ => _ end = true =>
             destruct x; [eauto | discriminate H]
         end);
    intros (d & ->); reflexivity.
Qed.

(** ** The counters-only parser: rates, blocks and totals *)

Lemma Counters_rates_of_returned_summary_witness :
  exists s,
    Counters.Summarize scenarioFunctions = (Some s, None)
    /\ Counters.LineCoverageRate s = 100%float
    /\ Counters.FunctionCoverageRate s = 50%float
    /\ Counters.BranchCoverageRate s = 50%float.
Proof.
  eexists. split; [vm_compute; reflexivity|].
  match goal with
  | |- Counters.LineCoverageRate ?s = _ /\ _ =>
      destruct (Counters_rates_of_returned_summary
                  (NewParser scenarioFunctions) s None
                  ltac:(vm_compute; reflexivity)) as (Hl & Hf & Hb)
  end.
  split; [|split];
    [ etransitivity; [exact Hl|] | etransitivity; [exact Hf|]
    | etransitivity; [exact Hb|] ]; vm_compute; reflexivity.
Defined.

Lemma records_fold_counters (toks : list string)
    (acc : list Spec.Block * option Spec.Block) :
  fold_left readCounters (Spec.records toks) acc
  = fold_left readCountersToken toks acc.
Proof.
  revert acc. induction toks as [|t toks IH]; intros acc; simpl;
    [reflexivity|].
  unfold readCountersToken at 2. destruct (Spec.recordOf t); simpl; apply IH.
Qed.

Lemma CountersTotalsMatch_close (sm : Counters.Summary)
    (v : Counters.Locals) (closed : list Spec.Block) (b : Spec.Block) :
  CountersTotalsMatch sm closed -> LocalsMatch v b ->
  CountersTotalsMatch (Counters.closeFile sm v) (closed ++ [b]).
Proof.
  intros (T1 & T2 & T3 & T4 & T5 & T6 & T7) (B1 & B2 & B3 & B4 & B5 & B6).
  unfold CountersTotalsMatch, Counters.closeFile.
  cbn [Counters.TotalFiles Counters.TotalLines Counters.CoveredLines
       Counters.TotalFunctions Counters.CoveredFunctions
       Counters.TotalBranches Counters.CoveredBranches].
  rewrite !map_app, length_app. cbn [map List.length]. rewrite !sum_snoc.
  rewrite T1, T2, T3, T4, T5, T6, T7, B1, B2, B3, B4, B5, B6.
  rewrite incr_wrap_of_nat, !add_wrap_r. repeat split.
Qed.

Ltac locals_goal K :=
  unfold LocalsMatch;
  rewrite ?lastValue_snoc, ?count_snoc, ?hits_snoc;
  unfold Spec.isKind, Spec.kind; rewrite K;
  cbn [Spec.Case_eqb andb
       Counters.currentFileLinesFound Counters.currentFileLinesHit
       Counters.currentFileFunctions Counters.currentFileFunctionsHit
       Counters.currentFileBranchesFound Counters.currentFileBranchesHit];
  rewrite ?Nat.add_0_r.

Lemma Counters_dispatch_matches (st st' : Counters.State)
    (acc : list Spec.Block * option Spec.Block) (r : Record_) :
  Counters.dispatch st r = Ok st' ->
  CountersMatches st acc ->
  CountersMatches st' (readCounters acc r).
Proof.
  destruct st as [sm v], acc as [closed cur]. intros H [T B].
  simpl in T, B. unfold Counters.dispatch in H. unfold readCounters.
  unfold Spec.isKind, Spec.kind.
  destruct cur as [b|].
  - destruct B as [Hin (B1 & B2 & B3 & B4 & B5 & B6)].
    destruct (switch (Type_ r)) eqn:K; cbn [Spec.Case_eqb];
      rewrite ?Hin in H; cbn [negb] in H; step_inv H.
    all: split; [try exact T|]; cbn [snd Counters.inFile].
    all: try (split; [first [exact Hin | reflexivity]|]).
    all: try (locals_goal K; repeat split; assumption).
    + (* SF *) unfold LocalsMatch, Spec.lastValue, Spec.count, Spec.hits.
      cbn [fold_left filter List.length]. unfold Spec.isKind, Spec.kind.
      rewrite K. repeat split.
    + (* LF *) locals_goal K. rewrite Heqo. repeat split; assumption.
    + (* LH *) locals_goal K. rewrite Heqo. repeat split; assumption.
    + (* FN *) locals_goal K. repeat split; try assumption.
      rewrite B3. apply incr_wrap_of_nat.
    + (* FNDA, counted *) locals_goal K. rewrite Heqb0.
      repeat split; try assumption. rewrite B4. apply incr_wrap_of_nat.
    + (* FNDA, ignored *) locals_goal K. rewrite Heqb0, ?Nat.add_0_r.
      repeat split; assumption.
    + (* BRF *) locals_goal K. rewrite Heqo. repeat split; assumption.
    + (* BRH *) locals_goal K. rewrite Heqo. repeat split; assumption.
    + (* end_of_record *) apply CountersTotalsMatch_close; [exact T|].
      repeat split; assumption.
    + reflexivity.
  - rename B into Hin.
    destruct (switch (Type_ r)) eqn:K; cbn [Spec.Case_eqb];
      rewrite ?Hin in H; cbn [negb] in H; step_inv H.
    all: split; [exact T|]; cbn [snd Counters.inFile]; try exact Hin.
    (* SF *) split; [reflexivity|].
    unfold LocalsMatch, Spec.lastValue, Spec.count, Spec.hits.
    cbn [fold_left filter List.length]. unfold Spec.isKind, Spec.kind.
    rewrite K. repeat split.
Qed.

Lemma Counters_loop_matches (toks : list string) (st st' : Counters.State)
    (acc : list Spec.Block * option Spec.Block) :
  Counters.loop toks st = Ok st' ->
  CountersMatches st acc ->
  CountersMatches st' (fold_left readCountersToken toks acc).
Proof.
  revert st acc. induction toks as [|t toks IH]; intros st acc H M;
    simpl in *.
  - inversion H; subst. exact M.
  - destruct (Counters.step st t) as [st1|] eqn:E; [|discriminate H].
    eapply IH; [exact H|]. unfold readCountersToken.
    destruct (Spec.recordOf t) as [r|] eqn:R.
    + rewrite (Counters_step_record _ _ _ R) in E.
      eapply Counters_dispatch_matches; eauto.
    + destruct (step_no_record (Extended.emptySummary, None) st t R)
        as [(_ & E') | (msg & _ & E')]; rewrite E' in E; [|discriminate E].
      inversion E; subst. exact M.
Qed.

Lemma Counters_rates_totals (sm : Counters.Summary) :
  let s := Counters.rates sm in
  Counters.TotalFiles s = Counters.TotalFiles sm
  /\ Counters.TotalLines s = Counters.TotalLines sm
  /\ Counters.CoveredLines s = Counters.CoveredLines sm
  /\ Counters.TotalFunctions s = Counters.TotalFunctions sm
  /\ Counters.CoveredFunctions s = Counters.CoveredFunctions sm
  /\ Counters.TotalBranches s = Counters.TotalBranches sm
  /\ Counters.CoveredBranches s = Counters.CoveredBranches sm.
Proof.
  destruct sm as [tf tl cl lr fn cf fr tb cb br].
  unfold Counters.rates. cbn -[Z.ltb percentage].
  destruct (0 <? tl); cbn -[Z.ltb percentage];
    destruct (0 <? fn); cbn -[Z.ltb percentage];
    destruct (0 <? tb); cbn -[Z.ltb percentage]; repeat split.
Qed.

(** X8.  Whenever the counters-only [Parse] returns a summary, its
    totals are sums, in the arithmetic of [int], over the closed blocks of
    the input, a block being the span from the last source-file record to
    the end-of-record marker: what a block gathered before a further
    source-file record is not counted. *)
Theorem counters_totals_are_sums_over_blocks (p : Parser)
    (s : Counters.Summary) (e : option error) :
  Counters.Parse p = (Some s, e) ->
  let blocks := countersBlocks (Spec.records (Bufio.tokens (scanner p))) in
  Counters.TotalFiles s = GoInt.wrap (Z.of_nat (List.length blocks))
  /\ Counters.TotalLines s
     = GoInt.sum (map (Spec.lastValue CaseLinesFound) blocks)
  /\ Counters.CoveredLines s
     = GoInt.sum (map (Spec.lastValue CaseLinesHit) blocks)
  /\ Counters.TotalFunctions s
     = GoInt.sum
         (map (fun b => Z.of_nat (Spec.count CaseFunctionName b)) blocks)
  /\ Counters.CoveredFunctions s
     = GoInt.sum (map (fun b => Z.of_nat (Spec.hits b)) blocks)
  /\ Counters.TotalBranches s
     = GoInt.sum (map (Spec.lastValue CaseBranchFound) blocks)
  /\ Counters.CoveredBranches s
     = GoInt.sum (map (Spec.lastValue CaseBranchHit) blocks).
Proof.
  intros H blocks. unfold Counters.Parse in H.
  destruct (Counters.loop _ _) as [[sm v]|] eqn:E; [|discriminate H].
  inversion H; subst; clear H.
  assert (M0 : CountersMatches (Counters.emptySummary, Counters.zeroLocals)
                 ([], None)) by (repeat split).
  pose proof (Counters_loop_matches _ _ _ _ E M0) as [T _].
  rewrite <- records_fold_counters in T. simpl in T.
  destruct (Counters_rates_totals sm) as (R1 & R2 & R3 & R4 & R5 & R6 & R7).
  cbv zeta in *. rewrite R1, R2, R3, R4, R5, R6, R7. exact T.
Qed.

Lemma counters_totals_are_sums_over_blocks_witness :
  exists s,
    Counters.Summarize
      (textReader ["SF:/a.go"; "LF:5"; "LH:5"; "FN:1,f"; "SF:/b.go"; "LF:3";
                   "end_of_record"]%string)
    = (Some s, None)
    /\ Counters.TotalFiles s = 1 /\ Counters.TotalLines s = 3
    /\ Counters.CoveredLines s = 0 /\ Counters.TotalFunctions s = 0.
Proof.
  eexists. split; [vm_compute; reflexivity|].
  match goal with
  | |- Counters.TotalFiles ?s = _ /\ _ =>
      destruct (counters_totals_are_sums_over_blocks
                  (NewParser
                     (textReader ["SF:/a.go"; "LF:5"; "LH:5"; "FN:1,f";
                                  "SF:/b.go"; "LF:3"; "end_of_record"]
                                 %string))
                  s None ltac:(vm_compute; reflexivity))
        as (T1 & T2 & T3 & T4 & _)
  end.
  repeat match goal with |- _ /\ _ => split end;
    [ etransitivity; [exact T1|] | etransitivity; [exact T2|]
    | etransitivity; [exact T3|] | etransitivity; [exact T4|] ];
    vm_compute; reflexivity.
Defined.

(** ** The file records that the extended parser retains *)

Lemma Extended_dispatch_totals_of_files (st st' : Extended.State)
    (r : Record_) :
  Extended.dispatch st r = Ok st' ->
  TotalsOfFiles (fst st) -> TotalsOfFiles (fst st').
Proof.
  destruct st as [sm cf]. unfold Extended.dispatch. intros H T.
  step_inv H; try exact T.
  simpl in T. destruct T as (T1 & T2 & T3 & T4 & T5 & T6 & T7).
  unfold TotalsOfFiles, Extended.closeFile.
  cbn [fst Extended.TotalFiles Extended.TotalLines Extended.CoveredLines
       Extended.TotalFunctions Extended.CoveredFunctions
       Extended.TotalBranches Extended.CoveredBranches Extended.Files].
  rewrite !map_app, length_app. cbn [map List.length]. rewrite !sum_snoc.
  rewrite T1, T2, T3, T4, T5, T6, T7, incr_wrap_of_nat.
  repeat split.
Qed.

Lemma Extended_loop_totals_of_files (toks : list string)
    (st st' : Extended.State) :
  Extended.loop toks st = Ok st' ->
  TotalsOfFiles (fst st) -> TotalsOfFiles (fst st').
Proof.
  revert st. induction toks as [|t toks IH]; intros st H T; simpl in H.
  - inversion H; subst. exact T.
  - destruct (Extended.step st t) as [st1|] eqn:E; [|discriminate H].
    eapply IH; [exact H|].
    destruct (Spec.recordOf t) as [r|] eqn:R.
    + rewrite (Extended_step_record _ _ _ R) in E.
      eapply Extended_dispatch_totals_of_files; eauto.
    + destruct (step_no_record st (Counters.emptySummary, Counters.zeroLocals)
                  t R) as [(E' & _) | (msg & E' & _)];
        rewrite E' in E; [|discriminate E].
      inversion E; subst. exact T.
Qed.

(** X9.  In every summary that the extended [Parse] returns, the totals
    can be recomputed from the retained file records: [TotalFiles] is
    their number, and each total is the sum, in the arithmetic of [int],
    of the matching field over the records, [TotalFunctions] being the sum
    of the lengths of their function lists. *)
Theorem totals_recomputed_from_files (p : Parser) (s : Extended.Summary)
    (e : option error) :
  Extended.Parse p = (Some s, e) ->
  Extended.TotalFiles s
  = GoInt.wrap (Z.of_nat (List.length (Extended.Files s)))
  /\ Extended.TotalLines s
     = GoInt.sum (map Extended.LinesFound (Extended.Files s))
  /\ Extended.CoveredLines s
     = GoInt.sum (map Extended.LinesHit (Extended.Files s))
  /\ Extended.TotalFunctions s
     = GoInt.sum
         (map (fun f => Z.of_nat (List.length (Extended.Functions f)))
              (Extended.Files s))
  /\ Extended.CoveredFunctions s
     = GoInt.sum (map Extended.FunctionsHit (Extended.Files s))
  /\ Extended.TotalBranches s
     = GoInt.sum (map Extended.BranchesFound (Extended.Files s))
  /\ Extended.CoveredBranches s
     = GoInt.sum (map Extended.BranchesHit (Extended.Files s)).
Proof.
  intros H.
  destruct (Extended_Parse_inv _ _ _ H) as (sm & cf & Hloop & -> & _).
  assert (T0 : TotalsOfFiles Extended.emptySummary) by (repeat split).
  pose proof (Extended_loop_totals_of_files _ _ _ Hloop T0) as T.
  assert (Z0 : ExtendedRatesZero sm).
  { apply (Extended_loop_rates _ _ _ Hloop). repeat split. }
  destruct (Extended_rates_spec sm Z0)
    as ((R1 & R2 & R3 & R4 & R5 & R6 & R7 & R8) & _).
  cbv zeta in *. rewrite R1, R2, R3, R4, R5, R6, R7, R8. exact T.
Qed.

Lemma totals_recomputed_from_files_witness :
  exists s,
    Extended.Summarize scenarioA = (Some s, None)
    /\ Extended.TotalFiles s = 2 /\ Extended.TotalLines s = 3
    /\ Extended.CoveredLines s = 2.
Proof.
  eexists. split; [vm_compute; reflexivity|].
  match goal with
  | |- Extended.TotalFiles ?s = _ /\ _ =>
      destruct (totals_recomputed_from_files (NewParser scenarioA) s None
                  ltac:(vm_compute; reflexivity)) as (T1 & T2 & T3 & _)
  end.
  repeat match goal with |- _ /\ _ => split end;
    [ etransitivity; [exact T1|] | etransitivity; [exact T2|]
    | etransitivity; [exact T3|] ]; vm_compute; reflexivity.
Defined.

Lemma lastText_snoc (c : Case) (b : Spec.Block) (r : Record_) :
  lastText c (b ++ [r])
  = if Spec.isKind c r then Value r else lastText c b.
Proof. unfold lastText. rewrite fold_left_app. reflexivity. Qed.

Lemma linesOf_snoc (b : Spec.Block) (r : Record_) :
  linesOf (b ++ [r])
  = linesOf b
    ++ (if Spec.isKind CaseLineData r then
          match Extended.parseLineData (Value r) with
          | Ok d => [d]
          | Err _ => []
          end
        else []).
Proof. unfold linesOf. rewrite flat_map_app. simpl. rewrite app_nil_r.
  reflexivity. Qed.

Lemma functionsOf_snoc (b : Spec.Block) (r : Record_) :
  functionsOf (b ++ [r])
  = functionsOf b
    ++ (if Spec.isKind CaseFunctionName r then
          match Extended.parseFunctionName (Value r) with
          | Ok d => [d]
          | Err _ => []
          end
        else []).
Proof. unfold functionsOf. rewrite flat_map_app. simpl. rewrite app_nil_r.
  reflexivity. Qed.

Lemma branchesOf_snoc (b : Spec.Block) (r : Record_) :
  branchesOf (b ++ [r])
  = branchesOf b
    ++ (if Spec.isKind CaseBranchData r then
          match Extended.parseBranchData (Value r) with
          | Ok d => [d]
          | Err _ => []
          end
        else []).
Proof. unfold branchesOf. rewrite flat_map_app. simpl. rewrite app_nil_r.
  reflexivity. Qed.

Ltac file_goal K :=
  unfold fileOf;
  rewrite ?lastText_snoc, ?lastValue_snoc, ?hits_snoc, ?linesOf_snoc,
    ?functionsOf_snoc, ?branchesOf_snoc;
  unfold Spec.isKind, Spec.kind; rewrite K;
  cbn [Spec.Case_eqb andb]; rewrite ?app_nil_r, ?Nat.add_0_r.

Lemma Extended_dispatch_files (st st' : Extended.State)
    (acc : list Spec.Block * option Spec.Block) (r : Record_) :
  Extended.dispatch st r = Ok st' ->
  FilesMatch st acc ->
  FilesMatch st' (Spec.read Spec.opensTNorSF acc r).
Proof.
  destruct st as [sm cf], acc as [closed cur]. intros H [F B].
  simpl in F, B. subst cf. unfold Extended.dispatch in H. unfold Spec.read.
  destruct cur as [b|]; cbn [option_map] in H.
  - destruct (switch (Type_ r)) eqn:K;
      unfold Spec.isKind at 1, Spec.kind at 1; rewrite K;
      cbn [Spec.Case_eqb]; step_inv H;
      (split; [try exact F|]); cbn [snd option_map]; try reflexivity.
    all: try (f_equal; file_goal K; reflexivity).
    + (* DA *) f_equal. file_goal K. rewrite Heqr0. reflexivity.
    + (* LF *) f_equal. file_goal K. rewrite Heqo. reflexivity.
    + (* LH *) f_equal. file_goal K. rewrite Heqo. reflexivity.
    + (* FN *) f_equal. file_goal K. rewrite Heqr0. reflexivity.
    + (* FNDA, counted *) f_equal. file_goal K. rewrite Heqb0.
      unfold Extended.incrFunctionsHit. cbn. rewrite incr_wrap_of_nat.
      reflexivity.
    + (* FNDA, ignored *) f_equal. file_goal K. rewrite Heqb0, Nat.add_0_r.
      reflexivity.
    + (* BRDA *) f_equal. file_goal K. rewrite Heqr0. reflexivity.
    + (* BRF *) f_equal. file_goal K. rewrite Heqo. reflexivity.
    + (* BRH *) f_equal. file_goal K. rewrite Heqo. reflexivity.
    + (* end_of_record *) cbn [fst Extended.closeFile Extended.Files].
      rewrite F, map_app. reflexivity.
  - unfold Spec.kind.
    destruct (switch (Type_ r)) eqn:K; try discriminate H;
      inversion H; subst; clear H; cbn [Spec.opensTNorSF];
      (split; [exact F|]); cbn [snd option_map]; try reflexivity.
    + f_equal. unfold fileOf, lastText, Spec.lastValue, Spec.hits, linesOf,
        functionsOf, branchesOf.
      cbn [fold_left flat_map filter List.length app].
      unfold Spec.isKind, Spec.kind. rewrite K. reflexivity.
    + f_equal. unfold fileOf, lastText, Spec.lastValue, Spec.hits, linesOf,
        functionsOf, branchesOf.
      cbn [fold_left flat_map filter List.length app].
      unfold Spec.isKind, Spec.kind. rewrite K. reflexivity.
Qed.

Lemma Extended_loop_files (toks : list string) (st st' : Extended.State)
    (acc : list Spec.Block * option Spec.Block) :
  Extended.loop toks st = Ok st' ->
  FilesMatch st acc ->
  FilesMatch st' (fold_left (readToken Spec.opensTNorSF) toks acc).
Proof.
  revert st acc. induction toks as [|t toks IH]; intros st acc H M;
    simpl in *.
  - inversion H; subst. exact M.
  - destruct (Extended.step st t) as [st1|] eqn:E; [|discriminate H].
    eapply IH; [exact H|]. unfold readToken.
    destruct (Spec.recordOf t) as [r|] eqn:R.
    + rewrite (Extended_step_record _ _ _ R) in E.
      eapply Extended_dispatch_files; eauto.
    + destruct (step_no_record st (Counters.emptySummary, Counters.zeroLocals)
                  t R) as [(E' & _) | (msg & E' & _)];
        rewrite E' in E; [|discriminate E].
      inversion E; subst. exact M.
Qed.

(** X10.  The file records of a summary that the extended [Parse] returns
    are those of the closed blocks of the input, in reading order.  The
    record of a block holds the value of its last test-name record and of
    its last source-file record (the empty text without one), the entries
    parsed from its line-data, function-name and branch-data records in
    reading order, and its counts. *)
Theorem files_are_the_closed_blocks (p : Parser) (s : Extended.Summary)
    (e : option error) :
  Extended.Parse p = (Some s, e) ->
  Extended.Files s
  = map fileOf
      (Spec.closedBlocks Spec.opensTNorSF
         (Spec.records (Bufio.tokens (scanner p)))).
Proof.
  intros H.
  destruct (Extended_Parse_inv _ _ _ H) as (sm & cf & Hloop & -> & _).
  assert (M0 : FilesMatch (Extended.emptySummary, None) ([], None))
    by (split; reflexivity).
  pose proof (Extended_loop_files _ _ _ _ Hloop M0) as [F _].
  rewrite <- records_fold in F. simpl in F.
  assert (Z0 : ExtendedRatesZero sm).
  { apply (Extended_loop_rates _ _ _ Hloop). repeat split. }
  destruct (Extended_rates_spec sm Z0) as ((_ & _ & _ & _ & _ & _ & _ & R) & _).
  cbv zeta in R. rewrite R. exact F.
Qed.

Lemma files_are_the_closed_blocks_witness :
  exists s,
    Extended.Summarize scenarioFunctions = (Some s, None)
    /\ map Extended.TestName (Extended.Files s) = ["TestSuite"%string]
    /\ map Extended.SourceFile (Extended.Files s) = ["/main.go"%string]
    /\ map (fun f => List.length (Extended.Functions f)) (Extended.Files s)
       = [2%nat].
Proof.
  eexists. split; [vm_compute; reflexivity|].
  match goal with
  | |- map _ (Extended.Files ?s) = _ /\ _ =>
      pose proof (files_are_the_closed_blocks (NewParser scenarioFunctions)
                    s None ltac:(vm_compute; reflexivity)) as F
  end.
  rewrite F. repeat match goal with |- _ /\ _ => split end;
    vm_compute; reflexivity.
Defined.

(** ** Lines that change nothing *)

Lemma Extended_step_ignorable (st : Extended.State) (text : string) :
  ignorable text -> Extended.step st text = Ok st.
Proof.
  intros [Hb | (r & R & K)].
  - unfold Extended.step. rewrite Hb. reflexivity.
  - rewrite (Extended_step_record _ _ _ R). unfold Spec.kind in K.
    unfold Extended.dispatch. destruct st. rewrite K. reflexivity.
Qed.

Lemma Counters_step_ignorable (st : Counters.State) (text : string) :
  ignorable text -> Counters.step st text = Ok st.
Proof.
  intros [Hb | (r & R & K)].
  - unfold Counters.step. rewrite Hb. reflexivity.
  - rewrite (Counters_step_record _ _ _ R). unfold Spec.kind in K.
    unfold Counters.dispatch. destruct st. rewrite K. reflexivity.
Qed.

Lemma Extended_Parse_skip (pre rest : list string) (text : string)
    (e : option error) :
  (forall st, Extended.loop pre (Extended.emptySummary, None) = Ok st ->
              Extended.step st text = Ok st) ->
  Extended.Parse (parserWith (pre ++ text :: rest) e)
  = Extended.Parse (parserWith (pre ++ rest) e).
Proof.
  intros H. unfold Extended.Parse, parserWith. simpl.
  rewrite !Extended_loop_app.
  destruct (Extended.loop pre _) as [st|] eqn:E; [|reflexivity].
  simpl. rewrite (H st eq_refl). reflexivity.
Qed.

Lemma Counters_Parse_skip (pre rest : list string) (text : string)
    (e : option error) :
  (forall st,
      Counters.loop pre (Counters.emptySummary, Counters.zeroLocals) = Ok st ->
      Counters.step st text = Ok st) ->
  Counters.Parse (parserWith (pre ++ text :: rest) e)
  = Counters.Parse (parserWith (pre ++ rest) e).
Proof.
  intros H. unfold Counters.Parse, parserWith. simpl.
  rewrite !Counters_loop_app.
  destruct (Counters.loop pre _) as [st|] eqn:E; [|reflexivity].
  simpl. rewrite (H st eq_refl). reflexivity.
Qed.

(** X11.  A blank line or a record of unrecognized kind may stand
    anywhere in the input: both parsers return what they return without
    it, be it a summary or an error. *)
Theorem ignorable_lines_change_nothing (pre rest : list string)
    (text : string) (e : option error) :
  ignorable text ->
  Extended.Parse (parserWith (pre ++ text :: rest) e)
  = Extended.Parse (parserWith (pre ++ rest) e)
  /\ Counters.Parse (parserWith (pre ++ text :: rest) e)
     = Counters.Parse (parserWith (pre ++ rest) e).
Proof.
  intros H. split.
  - apply Extended_Parse_skip. intros st _.
    apply Extended_step_ignorable, H.
  - apply Counters_Parse_skip. intros st _.
    apply Counters_step_ignorable, H.
Qed.

Lemma ignorable_lines_change_nothing_witness :
  Extended.Parse
    (parserWith ["SF:/a.go"; "VER:2"; "LF:2"; "   "; "end_of_record"]%string
                None)
  = Extended.Parse
      (parserWith ["SF:/a.go"; "LF:2"; "end_of_record"]%string None).
Proof.
  destruct (ignorable_lines_change_nothing
              ["SF:/a.go"]%string ["LF:2"; "   "; "end_of_record"]%string
              "VER:2"%string None) as [H1 _].
  { right. exists {| Type_ := "VER"; Value := "2" |}.
    split; vm_compute; reflexivity. }
  destruct (ignorable_lines_change_nothing
              ["SF:/a.go"; "LF:2"]%string ["end_of_record"]%string
              "   "%string None) as [H2 _].
  { left. vm_compute. reflexivity. }
  etransitivity; [exact H1 | exact H2].
Defined.

(** X12.  The counters-only parser passes over a test-name record
    wherever it stands. *)
Theorem counters_ignore_test_names (pre rest : list string) (text : string)
    (r : Record_) (e : option error) :
  Spec.recordOf text = Some r ->
  Spec.kind r = CaseTestName ->
  Counters.Parse (parserWith (pre ++ text :: rest) e)
  = Counters.Parse (parserWith (pre ++ rest) e).
Proof.
  intros R K. apply Counters_Parse_skip. intros [sm v] _.
  rewrite (Counters_step_record _ _ _ R). unfold Spec.kind in K.
  unfold Counters.dispatch. rewrite K. reflexivity.
Qed.

Lemma counters_ignore_test_names_witness :
  Counters.Parse
    (parserWith ["SF:/a.go"; "LF:2"; "TN:late"; "end_of_record"]%string None)
  = Counters.Parse
      (parserWith ["SF:/a.go"; "LF:2"; "end_of_record"]%string None).
Proof.
  apply (counters_ignore_test_names
           ["SF:/a.go"; "LF:2"]%string ["end_of_record"]%string
           "TN:late"%string {| Type_ := "TN"; Value := "late" |} None);
    vm_compute; reflexivity.
Defined.

(** X13.  An end-of-record marker that follows another one is a no-op:
    both parsers return what they return for the input with a single
    marker. *)
Theorem repeated_marker_changes_nothing (pre rest : list string)
    (first second : string) (e : option error) :
  closesBlock first = true ->
  closesBlock second = true ->
  Extended.Parse (parserWith ((pre ++ [first]) ++ second :: rest) e)
  = Extended.Parse (parserWith ((pre ++ [first]) ++ rest) e)
  /\ Counters.Parse (parserWith ((pre ++ [first]) ++ second :: rest) e)
     = Counters.Parse (parserWith ((pre ++ [first]) ++ rest) e).
Proof.
  unfold closesBlock. intros C1 C2.
  destruct (Spec.recordOf first) as [r1|] eqn:R1; [|discriminate C1].
  destruct (Spec.recordOf second) as [r2|] eqn:R2; [|discriminate C2].
  unfold Spec.isKind, Spec.kind in C1, C2.
  assert (K1 : switch (Type_ r1) = CaseEndOfRecord)
    by (destruct (switch (Type_ r1)); try discriminate C1; reflexivity).
  assert (K2 : switch (Type_ r2) = CaseEndOfRecord)
    by (destruct (switch (Type_ r2)); try discriminate C2; reflexivity).
  split.
  - apply Extended_Parse_skip. intros st H.
    rewrite Extended_loop_app in H.
    destruct (Extended.loop pre _) as [[sm cf]|]; [|discriminate H].
    simpl in H. rewrite (Extended_step_record _ _ _ R1) in H.
    rewrite (Extended_step_record _ _ _ R2).
    unfold Extended.dispatch in *. rewrite K1 in H.
    destruct cf; inversion H; subst; rewrite K2; reflexivity.
  - apply Counters_Parse_skip. intros st H.
    rewrite Counters_loop_app in H.
    destruct (Counters.loop pre _) as [[sm v]|]; [|discriminate H].
    simpl in H. rewrite (Counters_step_record _ _ _ R1) in H.
    rewrite (Counters_step_record _ _ _ R2).
    unfold Counters.dispatch in *. rewrite K1 in H.
    destruct (Counters.inFile v) eqn:Hin; inversion H; subst; rewrite K2;
      cbn [Counters.inFile]; rewrite ?Hin; reflexivity.
Qed.

Lemma repeated_marker_changes_nothing_witness :
  Extended.Parse
    (parserWith ["SF:/a.go"; "LF:2"; "end_of_record"; "end_of_record";
                 "SF:/b.go"]%string None)
  = Extended.Parse
      (parserWith ["SF:/a.go"; "LF:2"; "end_of_record"; "SF:/b.go"]%string
                  None).
Proof.
  apply (repeated_marker_changes_nothing
           ["SF:/a.go"; "LF:2"]%string ["SF:/b.go"]%string
           "end_of_record"%string "end_of_record"%string None);
    vm_compute; reflexivity.
Defined.

(** ** The line-data and branch-data records and the result *)

Lemma Counters_step_data (st st' : Counters.State) (text : string) :
  isData text = true ->
  Counters.step st text = Ok st' -> st' = st.
Proof.
  unfold isData. intros D H.
  destruct (Spec.recordOf text) as [r|] eqn:R; [|discriminate D].
  rewrite (Counters_step_record _ _ _ R) in H.
  unfold Spec.isKind, Spec.kind in D. destruct st as [sm v].
  unfold Counters.dispatch in H.
  destruct (switch (Type_ r)); try discriminate D; step_inv H; reflexivity.
Qed.

Lemma Counters_loop_without_data (toks : list string)
    (st st' : Counters.State) :
  Counters.loop toks st = Ok st' ->
  Counters.loop (withoutData toks) st = Ok st'.
Proof.
  revert st. induction toks as [|t toks IH]; intros st H; simpl in *;
    [exact H|].
  destruct (Counters.step st t) as [st1|] eqn:E; [|discriminate H].
  destruct (isData t) eqn:D; simpl.
  - rewrite (Counters_step_data _ _ _ D E) in H. apply IH, H.
  - rewrite E. apply IH, H.
Qed.

(** X14.  When the counters-only [Parse] returns a summary, it returns
    the same summary, with the same error, for the input without its
    line-data and branch-data records: once validated, these records
    leave no trace in it. *)
Theorem counters_data_records_count_nothing (p : Parser)
    (s : Counters.Summary) (e : option error) :
  Counters.Parse p = (Some s, e) ->
  Counters.Parse
    (parserWith (withoutData (Bufio.tokens (scanner p)))
                (Bufio.err (scanner p)))
  = (Some s, e).
Proof.
  unfold Counters.Parse. intros H.
  destruct (Counters.loop (Bufio.tokens (scanner p)) _) as [[sm v]|] eqn:E;
    [|discriminate H].
  cbn [parserWith scanner Bufio.tokens Bufio.err].
  rewrite (Counters_loop_without_data _ _ _ E). exact H.
Qed.

Lemma counters_data_records_count_nothing_witness :
  exists s,
    Counters.Summarize scenarioA = (Some s, None)
    /\ Counters.Parse
         (parserWith ["SF:/a.go"; "LF:2"; "LH:1"; "end_of_record";
                      "SF:/b.go"; "LF:1"; "LH:1"; "end_of_record"]%string
                     None)
       = (Some s, None).
Proof.
  eexists. split; [vm_compute; reflexivity|].
  match goal with
  | |- _ = (Some ?s, None) =>
      apply (counters_data_records_count_nothing (NewParser scenarioA) s None)
  end.
  vm_compute. reflexivity.
Defined.

Lemma Extended_dispatch_strip (st st' : Extended.State) (r : Record_) :
  Extended.dispatch st r = Ok st' ->
  (Spec.isKind CaseLineData r || Spec.isKind CaseBranchData r = true ->
   stripState st' = stripState st)
  /\ (Spec.isKind CaseLineData r || Spec.isKind CaseBranchData r = false ->
      Extended.dispatch (stripState st) r = Ok (stripState st')).
Proof.
  destruct st as [sm cf]. unfold Extended.dispatch, stripState.
  unfold Spec.isKind, Spec.kind. cbn [fst snd]. intros H.
  destruct (switch (Type_ r)); cbn [Spec.Case_eqb orb];
    (split; intros D; try discriminate D);
    destruct cf as [f|]; cbn [option_map]; step_inv H; try reflexivity.
  unfold stripSummary, Extended.closeFile. cbn. rewrite map_app.
  reflexivity.
Qed.

Lemma Extended_loop_without_data (toks : list string)
    (st st' : Extended.State) :
  Extended.loop toks st = Ok st' ->
  Extended.loop (withoutData toks) (stripState st) = Ok (stripState st').
Proof.
  revert st. induction toks as [|t toks IH]; intros st H; simpl in *.
  - inversion H; subst. reflexivity.
  - destruct (Extended.step st t) as [st1|] eqn:E; [|discriminate H].
    unfold isData. destruct (Spec.recordOf t) as [r|] eqn:R.
    + rewrite (Extended_step_record _ _ _ R) in E.
      destruct (Extended_dispatch_strip _ _ _ E) as [Hd Hn].
      destruct (Spec.isKind CaseLineData r || Spec.isKind CaseBranchData r);
        simpl.
      * rewrite <- (Hd eq_refl). apply IH, H.
      * rewrite (Extended_step_record _ _ _ R), (Hn eq_refl). apply IH, H.
    + simpl. unfold Extended.step in E |- *. unfold Spec.recordOf in R.
      destruct (String.eqb (TrimSpace t) "").
      * inversion E; subst. apply IH, H.
      * destruct (parseRecord (TrimSpace t)); [discriminate R|discriminate E].
Qed.

Lemma stripSummary_rates (sm : Extended.Summary) :
  stripSummary (Extended.rates sm) = Extended.rates (stripSummary sm).
Proof.
  destruct sm as [tf tl cl lr fn cf fr tb cb br files].
  unfold Extended.rates, stripSummary, Extended.setLineCoverageRate,
    Extended.setFunctionCoverageRate, Extended.setBranchCoverageRate.
  cbn -[Z.ltb percentage map].
  destruct (0 <? tl); cbn -[Z.ltb percentage map];
    destruct (0 <? fn); cbn -[Z.ltb percentage map];
    destruct (0 <? tb); reflexivity.
Qed.

(** X15.  When the extended [Parse] returns a summary, it returns for the
    input without its line-data and branch-data records the same summary
    but for the line and branch entries of the file records, which are
    empty then; every count and every rate is the same. *)
Theorem extended_summary_without_data_records (p : Parser)
    (s : Extended.Summary) (e : option error) :
  Extended.Parse p = (Some s, e) ->
  Extended.Parse
    (parserWith (withoutData (Bufio.tokens (scanner p)))
                (Bufio.err (scanner p)))
  = (Some (stripSummary s), e).
Proof.
  intros H.
  destruct (Extended_Parse_inv _ _ _ H) as (sm & cf & Hloop & -> & ->).
  pose proof (Extended_loop_without_data _ _ _ Hloop) as L.
  unfold Extended.Parse. cbn [parserWith scanner Bufio.tokens Bufio.err].
  change (Extended.emptySummary, @None Extended.FileRecord)
    with (stripState (Extended.emptySummary, None)).
  rewrite L. unfold stripState. cbn [fst snd].
  rewrite stripSummary_rates. reflexivity.
Qed.

Lemma extended_summary_without_data_records_witness :
  exists s,
    Extended.Summarize scenarioA = (Some s, None)
    /\ Extended.Parse
         (parserWith ["SF:/a.go"; "LF:2"; "LH:1"; "end_of_record";
                      "SF:/b.go"; "LF:1"; "LH:1"; "end_of_record"]%string
                     None)
       = (Some (stripSummary s), None).
Proof.
  eexists. split; [vm_compute; reflexivity|].
  match goal with
  | |- _ = (Some (stripSummary ?s), None) =>
      apply (extended_summary_without_data_records (NewParser scenarioA) s
               None)
  end.
  vm_compute. reflexivity.
Defined.

(** ** The first error *)

Lemma Split_app_sep (a b : string) (sep : ascii) :
  Split (a ++ String sep b) sep = (Split a sep ++ Split b sep)%list.
Proof.
  induction a as [|c a IH]; simpl.
  - rewrite Ascii.eqb_refl. reflexivity.
  - destruct (Ascii.eqb c sep); rewrite IH; [reflexivity|].
    destruct (Split a sep) as [|h t] eqn:E; [|reflexivity].
    exfalso. revert E. apply Split_not_nil.
Qed.

Lemma drop_last_empty_app (l l' : list string) :
  l' <> [] ->
  Bufio.drop_last_empty (l ++ l') = (l ++ Bufio.drop_last_empty l')%list.
Proof.
  intros Hn. induction l as [|x l IH]; [reflexivity|].
  simpl. rewrite <- IH.
  destruct (l ++ l')%list as [|y r] eqn:E.
  - destruct l; [simpl in E; contradiction | discriminate E].
  - destruct x; reflexivity.
Qed.

Lemma lines_app_newline (d rest : string) :
  Bufio.lines (d ++ String Bufio.newline rest)
  = (Bufio.lines (d ++ String Bufio.newline "") ++ Bufio.lines rest)%list.
Proof.
  unfold Bufio.lines. rewrite !Split_app_sep.
  rewrite !drop_last_empty_app by apply Split_not_nil.
  simpl. rewrite app_nil_r. reflexivity.
Qed.

Lemma scan_app (l1 l2 : list string) (f1 f2 : option error) :
  exists more,
    Bufio.tokens (Bufio.scan (l1 ++ l2) f2)
    = (Bufio.tokens (Bufio.scan l1 f1) ++ more)%list.
Proof.
  induction l1 as [|l l1 (more & IH)]; simpl.
  - eexists. reflexivity.
  - destruct (Bufio.too_long l); simpl.
    + exists []. reflexivity.
    + exists more. rewrite IH. reflexivity.
Qed.

(** X16.  The parse stops at the first line that fails: when [Summarize]
    returns an error and no summary for an input that ends with a
    newline, it returns the same error and no summary for every input
    that continues it, however the stream ends.  (A last line without its
    newline is another matter: what follows may complete it.) *)
Theorem first_error_is_final (d rest : string) (msg : error)
    (f1 f2 : option error) :
  (Extended.Summarize
     {| Bufio.data := d ++ String Bufio.newline ""; Bufio.failure := f1 |}
   = (None, Some msg) ->
   Extended.Summarize
     {| Bufio.data := d ++ String Bufio.newline rest; Bufio.failure := f2 |}
   = (None, Some msg))
  /\ (Counters.Summarize
        {| Bufio.data := d ++ String Bufio.newline ""; Bufio.failure := f1 |}
      = (None, Some msg) ->
      Counters.Summarize
        {| Bufio.data := d ++ String Bufio.newline rest;
           Bufio.failure := f2 |}
      = (None, Some msg)).
Proof.
  unfold Extended.Summarize, Counters.Summarize, NewParser,
    Bufio.NewScanner. cbn [Bufio.data Bufio.failure].
  rewrite (lines_app_newline d rest).
  destruct (scan_app (Bufio.lines (d ++ String Bufio.newline ""))
              (Bufio.lines rest) f1 f2) as (more & E).
  unfold Extended.Parse, Counters.Parse. cbn [scanner]. rewrite E.
  rewrite Extended_loop_app, Counters_loop_app. split; intros H.
  - destruct (Extended.loop _ _) as [[sm cf]|]; [discriminate H | exact H].
  - destruct (Counters.loop _ _) as [[sm v]|]; [discriminate H | exact H].
Qed.

Lemma first_error_is_final_witness :
  Extended.Summarize
    {| Bufio.data :=
         "SF:/a.go" ++ String Bufio.newline
           ("LF:x" ++ String Bufio.newline
              ("LF:2" ++ String Bufio.newline "end_of_record"));
       Bufio.failure := None |}
  = (None, Some "invalid lines found value: x"%string).
Proof.
  refine (proj1 (first_error_is_final
                   ("SF:/a.go" ++ String Bufio.newline "LF:x")
                   ("LF:2" ++ String Bufio.newline "end_of_record")
                   "invalid lines found value: x" None None) _).
  vm_compute. reflexivity.
Defined.

(** ** White space around a line *)

Lemma rev_append_app (s t acc : string) :
  Strings.rev_append (s ++ t) acc
  = Strings.rev_append t (Strings.rev_append s acc).
Proof.
  revert acc. induction s as [|c s IH]; intros acc; simpl;
    [reflexivity | apply IH].
Qed.

Lemma append_assoc (s t u : string) :
  ((s ++ t) ++ u = s ++ (t ++ u))%string.
Proof.
  induction s as [|c s IH]; simpl; [reflexivity | now rewrite IH].
Qed.

Lemma rev_append_acc (s acc : string) :
  Strings.rev_append s acc = (Strings.rev s ++ acc)%string.
Proof.
  unfold Strings.rev. revert acc.
  induction s as [|c s IH]; intros acc; simpl; [reflexivity|].
  rewrite IH, (IH (String c "")).
  rewrite append_assoc. reflexivity.
Qed.

Lemma rev_app (s t : string) :
  Strings.rev (s ++ t) = (Strings.rev t ++ Strings.rev s)%string.
Proof.
  unfold Strings.rev at 1. rewrite rev_append_app. apply rev_append_acc.
Qed.

Lemma blank_app (s t : string) :
  blank (s ++ t) = blank s && blank t.
Proof.
  induction s as [|c s IH]; simpl; [reflexivity|].
  rewrite IH. apply andb_assoc.
Qed.

Lemma blank_rev (s : string) : blank (Strings.rev s) = blank s.
Proof.
  induction s as [|c s IH]; [reflexivity|].
  unfold Strings.rev. simpl. rewrite rev_append_acc, blank_app, IH. simpl.
  rewrite andb_true_r. apply andb_comm.
Qed.

Lemma trim_front_blank (fwd : bool) (pad s : string) :
  blank pad = true ->
  Strings.trim_front fwd (pad ++ s) = Strings.trim_front fwd s.
Proof.
  induction pad as [|c pad IH]; simpl; intros H; [reflexivity|].
  apply andb_true_iff in H as [Hc Hp]. rewrite Hc. apply IH, Hp.
Qed.

Lemma asciiSpace_low (c : ascii) :
  Strings.asciiSpace c = true -> (nat_of_ascii c <= 32)%nat.
Proof.
  unfold Strings.asciiSpace. intros H.
  apply orb_true_iff in H as [H | H].
  - apply andb_true_iff in H as [_ H]. apply Nat.leb_le in H. lia.
  - apply Nat.eqb_eq in H. lia.
Qed.

Lemma space2_second (c d : ascii) :
  Strings.asciiSpace d = true -> Strings.space2 c d = false.
Proof.
  intros H. apply asciiSpace_low in H. unfold Strings.space2.
  destruct (Nat.eqb_spec (nat_of_ascii d) 133); [lia|].
  destruct (Nat.eqb_spec (nat_of_ascii d) 160); [lia|].
  apply andb_false_r.
Qed.

Lemma space3_second (c d e : ascii) :
  Strings.asciiSpace d = true -> Strings.space3 c d e = false.
Proof.
  intros H. apply asciiSpace_low in H. unfold Strings.space3.
  destruct (Nat.eqb_spec (nat_of_ascii d) 154); [lia|].
  destruct (Nat.eqb_spec (nat_of_ascii d) 128); [lia|].
  destruct (Nat.eqb_spec (nat_of_ascii d) 129); [lia|].
  rewrite !andb_false_r. reflexivity.
Qed.

Lemma space3_third (c d e : ascii) :
  Strings.asciiSpace e = true -> Strings.space3 c d e = false.
Proof.
  intros H. apply asciiSpace_low in H. unfold Strings.space3.
  destruct (Nat.eqb_spec (nat_of_ascii e) 128); [lia|].
  destruct (Nat.eqb_spec (nat_of_ascii e) 159); [lia|].
  destruct (Nat.eqb_spec (nat_of_ascii e) 168); [lia|].
  destruct (Nat.eqb_spec (nat_of_ascii e) 169); [lia|].
  destruct (Nat.eqb_spec (nat_of_ascii e) 175); [lia|].
  destruct (Nat.leb_spec 128 (nat_of_ascii e)); [lia|].
  rewrite !andb_false_r. reflexivity.
Qed.

Lemma trim_front_of_blank (fwd : bool) (pad : string) :
  blank pad = true -> Strings.trim_front fwd pad = ""%string.
Proof.
  induction pad as [|c pad IH]; simpl; intros H; [reflexivity|].
  apply andb_true_iff in H as [Hc Hp]. rewrite Hc. apply IH, Hp.
Qed.

Lemma trim_left_app_blank (n : nat) (t pad : string) :
  (String.length t <= n)%nat -> blank pad = true ->
  Strings.trim_front true (t ++ pad)
  = match Strings.trim_front true t with
    | EmptyString => EmptyString
    | x => (x ++ pad)%string
    end.
Proof.
  revert t. induction n as [|n IH]; intros t Hn Hp.
  - destruct t; [|simpl in Hn; lia]. simpl.
    apply trim_front_of_blank, Hp.
  - destruct t as [|c s1]; [simpl; apply trim_front_of_blank, Hp|].
    simpl in Hn. cbn [String.append Strings.trim_front].
    destruct (Strings.asciiSpace c); [apply IH; [lia | exact Hp]|].
    destruct s1 as [|d s2].
    + cbn [String.append]. destruct pad as [|d s2]; [reflexivity|].
      simpl in Hp. apply andb_true_iff in Hp as [Hd Hp].
      rewrite (space2_second c d Hd).
      destruct s2 as [|e s3]; [reflexivity|].
      rewrite (space3_second c d e Hd). reflexivity.
    + simpl in Hn. cbn [String.append].
      destruct (Strings.space2 c d); [apply IH; [lia | exact Hp]|].
      destruct s2 as [|e s3].
      * cbn [String.append]. destruct pad as [|e s3]; [reflexivity|].
        simpl in Hp. apply andb_true_iff in Hp as [He Hp].
        rewrite (space3_third c d e He). reflexivity.
      * simpl in Hn. cbn [String.append].
        destruct (Strings.space3 c d e); [apply IH; [lia | exact Hp]|].
        reflexivity.
Qed.

Lemma TrimSpace_padded (pad1 t pad2 : string) :
  blank pad1 = true -> blank pad2 = true ->
  TrimSpace (pad1 ++ t ++ pad2) = TrimSpace t.
Proof.
  intros H1 H2. unfold TrimSpace, Strings.TrimLeftSpace.
  rewrite (trim_front_blank true pad1 _ H1).
  rewrite (trim_left_app_blank _ t pad2 (le_n _) H2).
  destruct (Strings.trim_front true t) as [|c x]; [reflexivity|].
  unfold Strings.TrimRightSpace. rewrite rev_app.
  rewrite trim_front_blank; [reflexivity|].
  rewrite blank_rev. exact H2.
Qed.

(** X17.  White space around a line is not part of it: with a line
    padded on either side by spaces, tabs or carriage returns, both
    parsers return what they return for the line itself, be it a summary
    or an error. *)
Theorem padding_is_ignored (pre rest : list string)
    (pad1 text pad2 : string) (e : option error) :
  blank pad1 = true -> blank pad2 = true ->
  Extended.Parse (parserWith (pre ++ (pad1 ++ text ++ pad2)%string :: rest) e)
  = Extended.Parse (parserWith (pre ++ text :: rest) e)
  /\ Counters.Parse
       (parserWith (pre ++ (pad1 ++ text ++ pad2)%string :: rest) e)
     = Counters.Parse (parserWith (pre ++ text :: rest) e).
Proof.
  intros H1 H2.
  unfold Extended.Parse, Counters.Parse, parserWith. simpl.
  rewrite !Extended_loop_app, !Counters_loop_app. simpl.
  unfold Extended.step, Counters.step.
  rewrite (TrimSpace_padded _ _ _ H1 H2). split; reflexivity.
Qed.

Lemma padding_is_ignored_witness :
  Extended.Parse
    (parserWith ["SF:/a.go"; "  LF:2 "; "LH:1"; "end_of_record"]%string None)
  = Extended.Parse
      (parserWith ["SF:/a.go"; "LF:2"; "LH:1"; "end_of_record"]%string None).
Proof.
  refine (proj1 (padding_is_ignored ["SF:/a.go"]%string
                   ["LH:1"; "end_of_record"]%string "  " "LF:2" " " None
                   _ _)); reflexivity.
Defined.

(** * The rates against the exact quotients *)

(** ** Rounding to nearest in binary64 *)

Lemma digits2_pos_bounds (p : positive) :
  2 ^ (Zpos (digits2_pos p) - 1) <= Zpos p < 2 ^ Zpos (digits2_pos p).
Proof.
  induction p as [p IH | p IH |]; cbn [digits2_pos].
  - rewrite Pos2Z.inj_succ.
    replace (Z.succ (Zpos (digits2_pos p)) - 1)
      with (Z.succ (Zpos (digits2_pos p) - 1)) by lia.
    rewrite !Z.pow_succ_r by lia. lia.
  - rewrite Pos2Z.inj_succ.
    replace (Z.succ (Zpos (digits2_pos p)) - 1)
      with (Z.succ (Zpos (digits2_pos p) - 1)) by lia.
    rewrite !Z.pow_succ_r by lia. lia.
  - simpl. lia.
Qed.

Lemma digits2_pos_unique (p : positive) (k : Z) :
  2 ^ (k - 1) <= Zpos p < 2 ^ k -> Zpos (digits2_pos p) = k.
Proof.
  intros [Hl Hu]. pose proof (digits2_pos_bounds p) as [Bl Bu].
  set (d := Zpos (digits2_pos p)) in *.
  assert (0 < d) by (subst d; lia).
  destruct (Z.lt_trichotomy d k) as [L | [E | G]]; [|exact E|].
  - assert (2 ^ d <= 2 ^ (k - 1)) by (apply Z.pow_le_mono_r; lia). lia.
  - assert (0 <= k).
    { destruct (Z.lt_ge_cases k 0) as [N|N]; [|exact N].
      rewrite (Z.pow_neg_r 2 k N) in Hu. lia. }
    assert (2 ^ k <= 2 ^ (d - 1)) by (apply Z.pow_le_mono_r; lia). lia.
Qed.

Lemma shr_1_spec (m : Z) (r s : bool) :
  0 <= m ->
  shr_1 (Build_shr_record m r s)
  = Build_shr_record (m / 2) (Z.odd m) (r || s).
Proof.
  intros H. destruct m as [|p|p]; [reflexivity| |lia].
  destruct p as [p|p|]; cbn [shr_1 Z.odd].
  - f_equal. rewrite Pos2Z.inj_xI.
    apply (Z.div_unique _ _ _ 1); lia.
  - f_equal. rewrite Pos2Z.inj_xO.
    apply (Z.div_unique _ _ _ 0); lia.
  - reflexivity.
Qed.

Lemma Located_shr_1 (N D : Z) (mrs : shr_record) :
  0 <= N -> 0 < D -> Located N D mrs -> Located N (2 * D) (shr_1 mrs).
Proof.
  intros HN HD [Hm Hl]. destruct mrs as [m r s]. cbn [shr_m] in Hm.
  assert (Hm0 : 0 <= m) by (subst m; apply Z.div_pos; lia).
  rewrite (shr_1_spec m r s Hm0).
  pose proof (Z.div_mod N D ltac:(lia)) as E.
  pose proof (Z.mod_pos_bound N D HD) as B.
  rewrite <- Hm in E.
  pose proof (Z.div_mod m 2 ltac:(lia)) as E2.
  pose proof (Z.mod_pos_bound m 2 ltac:(lia)) as B2.
  assert (Hq : N / (2 * D) = m / 2).
  { symmetry. apply (Z.div_unique _ _ _ (D * (m mod 2) + N mod D)); nia. }
  assert (Hr : N mod (2 * D) = D * (m mod 2) + N mod D).
  { symmetry. apply (Z.mod_unique _ _ (m / 2)); nia. }
  split; [cbn [shr_m]; congruence|].
  unfold quotientLocation in *. rewrite Hr.
  assert (Hodd : m mod 2 = if Z.odd m then 1 else 0).
  { rewrite Zmod_odd. reflexivity. }
  rewrite Hodd. cbn [loc_of_shr_record] in *.
  destruct (Z.eqb_spec (N mod D) 0) as [Z0|NZ].
  - assert (r = false /\ s = false) as [-> ->]
        by (destruct r, s; try discriminate Hl; auto).
    rewrite Z0. destruct (Z.odd m); cbn [orb].
    + destruct (Z.eqb_spec (D * 1 + 0) 0); [lia|].
      replace (2 * (D * 1 + 0)) with (2 * D) by lia.
      rewrite Z.compare_refl. reflexivity.
    + destruct (Z.eqb_spec (D * 0 + 0) 0); [reflexivity|lia].
  - assert (r || s = true) as ->
        by (destruct r, s; try discriminate Hl; auto).
    destruct (Z.odd m).
    + destruct (Z.eqb_spec (D * 1 + N mod D) 0); [lia|].
      replace (2 * (D * 1 + N mod D) ?= 2 * D) with Gt; [reflexivity|].
      symmetry. apply Z.compare_gt_iff. lia.
    + destruct (Z.eqb_spec (D * 0 + N mod D) 0); [lia|].
      replace (2 * (D * 0 + N mod D) ?= 2 * D) with Lt; [reflexivity|].
      symmetry. apply Z.compare_lt_iff. lia.
Qed.

Lemma pow2_xO (p : positive) : 2 ^ Zpos p~0 = 2 ^ Zpos p * 2 ^ Zpos p.
Proof. rewrite <- Z.pow_add_r by lia. f_equal. lia. Qed.

Lemma pow2_xI (p : positive) : 2 ^ Zpos p~1 = 2 * (2 ^ Zpos p * 2 ^ Zpos p).
Proof.
  rewrite <- Z.pow_add_r, <- Z.pow_succ_r by lia. f_equal. lia.
Qed.

Lemma Located_iter (p : positive) (N D : Z) (mrs : shr_record) :
  0 <= N -> 0 < D -> Located N D mrs ->
  Located N (D * 2 ^ Zpos p) (SpecFloat.iter_pos shr_1 p mrs).
Proof.
  intros HN. revert D mrs.
  induction p as [p IH | p IH |]; intros D mrs HD H; cbn [SpecFloat.iter_pos].
  - assert (0 < 2 ^ Zpos p) by (apply Z.pow_pos_nonneg; lia).
    replace (D * 2 ^ Zpos p~1) with (2 * D * 2 ^ Zpos p * 2 ^ Zpos p)
      by (rewrite pow2_xI; ring).
    apply IH; [nia|]. apply IH; [lia|]. apply Located_shr_1; assumption.
  - assert (0 < 2 ^ Zpos p) by (apply Z.pow_pos_nonneg; lia).
    replace (D * 2 ^ Zpos p~0) with (D * 2 ^ Zpos p * 2 ^ Zpos p)
      by (rewrite pow2_xO; ring).
    apply IH; [nia|]. apply IH; [lia|]. exact H.
  - replace (D * 2 ^ 1) with (2 * D) by lia.
    apply Located_shr_1; assumption.
Qed.

Lemma Located_of_loc (N D : Z) :
  Located N D (shr_record_of_loc (N / D) (quotientLocation N D)).
Proof.
  split; destruct (quotientLocation N D) as [|[]]; reflexivity.
Qed.

(** [shr] by [n] places. *)
Lemma Located_shr (N D : Z) (mrs : shr_record) (e n : Z) :
  0 <= N -> 0 < D -> Located N D mrs ->
  Located N (D * 2 ^ Z.max n 0) (fst (shr mrs e n))
  /\ snd (shr mrs e n) = e + Z.max n 0.
Proof.
  intros HN HD H. unfold shr. destruct n as [|p|p]; cbn [fst snd].
  - rewrite Z.mul_1_r. split; [exact H | lia].
  - rewrite Z.max_l by lia. split; [apply Located_iter; assumption | lia].
  - rewrite Z.max_r by lia. rewrite Z.mul_1_r. split; [exact H | lia].
Qed.

Lemma round_nearest_even_spec (N D : Z) :
  0 <= N -> 0 < D ->
  let mr := round_nearest_even (N / D) (quotientLocation N D) in
  (mr = N / D \/ mr = N / D + 1)
  /\ 2 * Z.abs (mr * D - N) <= D.
Proof.
  intros HN HD.
  pose proof (Z.div_mod N D ltac:(lia)) as E.
  pose proof (Z.mod_pos_bound N D HD) as B.
  unfold quotientLocation, round_nearest_even.
  destruct (Z.eqb_spec (N mod D) 0) as [Z0|NZ]; [split; [auto|lia]|].
  destruct (Z.compare_spec (2 * (N mod D)) D) as [C|C|C].
  - destruct (Z.even (N / D)); (split; [auto|lia]).
  - split; [auto|lia].
  - split; [auto|lia].
Qed.

Lemma fexp_eq (e : Z) : fexp prec emax e = Z.max (e - 53) (-1074).
Proof. reflexivity. Qed.

Lemma Zdigits2_unique (m k : Z) :
  0 < m -> 2 ^ (k - 1) <= m < 2 ^ k -> Zdigits2 m = k.
Proof.
  intros Hm H. destruct m as [|p|p]; try lia.
  apply digits2_pos_unique, H.
Qed.

Lemma Zdigits2_bounds (m : Z) :
  0 < m -> 2 ^ (Zdigits2 m - 1) <= m < 2 ^ Zdigits2 m.
Proof.
  intros Hm. destruct m as [|p|p]; try lia. apply digits2_pos_bounds.
Qed.

(** Rounding of the quotient [N / D], scaled by [2 ^ ex], when the result
    is a normal number: the result is finite, its mantissa has 53 digits,
    and it is the quotient up to a relative error of [2 ^ -53]. *)
Lemma binary_round_aux_normal (sx : bool) (N D ex : Z) :
  0 <= N -> 0 < D ->
  53 <= Zdigits2 (N / D) ->
  -1074 <= Zdigits2 (N / D) + ex - 53 ->
  Zdigits2 (N / D) + ex - 52 <= 971 ->
  exists m e,
    binary_round_aux prec emax sx (N / D) ex (quotientLocation N D)
    = S754_finite sx m e
    /\ Zpos (digits2_pos m) = 53
    /\ Zdigits2 (N / D) + ex - 53 <= e <= Zdigits2 (N / D) + ex - 52
    /\ 2 ^ 53 * Z.abs (Zpos m * 2 ^ (e - ex) * D - N) <= N.
Proof.
  intros HN HD Hd Hlo Hhi.
  set (d := Zdigits2 (N / D)) in *.
  assert (Hmx : 0 < N / D).
  { destruct (N / D) as [|p|p] eqn:E; [subst d; simpl in Hd; lia | lia |].
    pose proof (Z.div_pos N D HN HD). lia. }
  pose proof (Zdigits2_bounds _ Hmx) as [Bl Bu]. fold d in Bl, Bu.
  set (n := d - 53).
  assert (Hn : 0 <= n) by (subst n; lia).
  assert (P2n : 0 < 2 ^ n) by (apply Z.pow_pos_nonneg; lia).
  set (D' := D * 2 ^ n).
  assert (HD' : 0 < D') by (subst D'; nia).
  pose proof (Z.div_mod N D ltac:(lia)) as E.
  pose proof (Z.mod_pos_bound N D HD) as B.
  assert (Ed : 2 ^ (d - 1) = 2 ^ 52 * 2 ^ n).
  { rewrite <- Z.pow_add_r by lia. f_equal. subst n. lia. }
  assert (Ed' : 2 ^ d = 2 ^ 53 * 2 ^ n).
  { rewrite <- Z.pow_add_r by lia. f_equal. subst n. lia. }
  assert (Nl : 2 ^ 52 * D' <= N) by (subst D'; nia).
  assert (Nu : N < 2 ^ 53 * D') by (subst D'; nia).
  unfold binary_round_aux, shr_fexp.
  rewrite !fexp_eq. fold d.
  replace (Z.max (d + ex - 53) (-1074) - ex) with n by (subst n; lia).
  destruct (Located_shr N D _ ex n HN HD (Located_of_loc N D))
    as [[Lm Ll] Le].
  destruct (shr (shr_record_of_loc (N / D) (quotientLocation N D)) ex n)
    as [mrs' e'] eqn:S1.
  cbn [fst snd] in Lm, Ll, Le.
  rewrite Z.max_l in Lm, Ll, Le by lia. fold D' in Lm, Ll.
  rewrite Lm, Ll.
  destruct (round_nearest_even_spec N D' HN ltac:(lia)) as [Hmr Herr].
  set (mr := round_nearest_even (N / D') (quotientLocation N D')) in *.
  assert (Ql : 2 ^ 52 <= N / D') by (apply Z.div_le_lower_bound; lia).
  assert (Qu : N / D' < 2 ^ 53) by (apply Z.div_lt_upper_bound; lia).
  assert (Hmr0 : 0 < mr) by lia.
  destruct (Z.lt_ge_cases mr (2 ^ 53)) as [Lt | Ge].
  - (* no carry *)
    assert (Dg : Zdigits2 mr = 53) by (apply Zdigits2_unique; lia).
    rewrite Dg, fexp_eq.
    replace (Z.max (53 + e' - 53) (-1074) - e') with 0 by lia.
    cbn [shr shr_record_of_loc shr_m].
    destruct mr as [|pm|pm] eqn:Emr; try lia.
    exists pm, e'. simpl in Dg.
    replace (e' <=? emax - prec) with true
      by (symmetry; apply Z.leb_le; unfold emax, prec; lia).
    split; [reflexivity|]. split; [exact Dg|]. split; [lia|].
    replace (e' - ex) with n by lia.
    replace (Z.pos pm * 2 ^ n * D - N) with (Z.pos pm * D' - N)
      by (subst D'; ring).
    lia.
  - (* the rounding carries into a 54th digit *)
    assert (Emr : mr = 2 ^ 53) by lia.
    rewrite Emr.
    replace (Zdigits2 (2 ^ 53)) with 54 by reflexivity.
    rewrite fexp_eq.
    replace (Z.max (54 + e' - 53) (-1074) - e') with 1 by lia.
    cbn [shr SpecFloat.iter_pos shr_record_of_loc].
    rewrite shr_1_spec by lia. cbn [shr_m].
    change (2 ^ 53 / 2) with (Zpos 4503599627370496). cbv iota beta.
    replace (e' + 1 <=? emax - prec) with true
      by (symmetry; apply Z.leb_le; unfold emax, prec; lia).
    exists 4503599627370496%positive, (e' + 1).
    split; [reflexivity|]. split; [reflexivity|]. split; [lia|].
    replace (e' + 1 - ex) with (n + 1) by lia.
    rewrite Z.pow_add_r by lia.
    assert (X : Z.pos 4503599627370496 * (2 ^ n * 2 ^ 1) * D = mr * D').
    { rewrite Emr. subst D'. change (2 ^ 1) with 2.
      change (2 ^ 53) with 9007199254740992. ring. }
    rewrite X. lia.
Qed.

(** ** From the integers of the rounding to rational numbers *)

Lemma Qabs_signOf (s : bool) : (Qabs (signOf s) == 1)%Q.
Proof. destruct s; reflexivity. Qed.

Lemma pow2_pos (e : Z) : (0 < 2 ^ e)%Q.
Proof. apply Qpower_0_lt. reflexivity. Qed.

Lemma pow2_inject (k : Z) : 0 <= k -> (2 ^ k == inject_Z (2 ^ k))%Q.
Proof. intros Hk. rewrite Zpower_Qpower by exact Hk. reflexivity. Qed.

Lemma pow2_split (ex k : Z) :
  0 <= k -> (2 ^ (ex + k) == 2 ^ ex * inject_Z (2 ^ k))%Q.
Proof.
  intros Hk. rewrite Qpower_plus by discriminate.
  rewrite Zpower_Qpower by exact Hk. reflexivity.
Qed.

Lemma round_near (sx : bool) (m : positive) (e N D ex : Z) :
  0 <= N -> 0 < D -> ex <= e ->
  2 ^ 53 * Z.abs (Zpos m * 2 ^ (e - ex) * D - N) <= N ->
  closeTo unitRoundoff (signOf sx * inject_Z (Zpos m) * 2 ^ e)
         (signOf sx * (inject_Z N / inject_Z D) * 2 ^ ex).
Proof.
  intros HN HD He H. unfold closeTo.
  replace e with (ex + (e - ex)) at 1 by lia.
  rewrite pow2_split by lia.
  set (k := e - ex) in *. set (P := (2 ^ ex)%Q).
  assert (HP : (0 < P)%Q) by apply pow2_pos.
  assert (Hd : (0 < inject_Z D)%Q).
  { change 0%Q with (inject_Z 0). rewrite <- Zlt_Qlt. exact HD. }
  assert (E1 : (signOf sx * inject_Z (Zpos m) * (P * inject_Z (2 ^ k))
                - signOf sx * (inject_Z N / inject_Z D) * P
                == signOf sx * (P / inject_Z D)
                   * inject_Z (Zpos m * 2 ^ k * D - N))%Q).
  { unfold Z.sub. rewrite inject_Z_plus, inject_Z_opp, !inject_Z_mult.
    field. intros X. rewrite X in Hd. discriminate Hd. }
  rewrite E1. rewrite !Qabs_Qmult, !Qabs_signOf.
  assert (HPd : (0 < P / inject_Z D)%Q).
  { apply Qlt_shift_div_l; [exact Hd|]. rewrite Qmult_0_l. exact HP. }
  rewrite (Qabs_pos (P / inject_Z D)) by (apply Qlt_le_weak, HPd).
  rewrite (Qabs_pos P) by (apply Qlt_le_weak, HP).
  assert (Hn : (0 <= inject_Z N)%Q).
  { change 0%Q with (inject_Z 0). rewrite <- Zle_Qle. exact HN. }
  rewrite (Qabs_pos (inject_Z N / inject_Z D))
    by (apply Qle_shift_div_l; [exact Hd | rewrite Qmult_0_l; exact Hn]).
  change (Qabs (inject_Z (Z.pos m * 2 ^ k * D - N)))
    with (inject_Z (Z.abs (Z.pos m * 2 ^ k * D - N))).
  assert (HA : (inject_Z (Z.abs (Z.pos m * 2 ^ k * D - N))
                <= unitRoundoff * inject_Z N)%Q).
  { rewrite Zle_Qle, inject_Z_mult in H.
    change (inject_Z (2 ^ 53)) with (9007199254740992 # 1)%Q in H.
    unfold unitRoundoff. lra. }
  setoid_replace (unitRoundoff * (1 * (inject_Z N / inject_Z D) * P))%Q
    with ((P / inject_Z D) * (unitRoundoff * inject_Z N))%Q
    by (field; intros X; rewrite X in Hd; discriminate Hd).
  rewrite Qmult_1_l. apply Qmult_le_l; assumption.
Qed.

Lemma iter_xO (p k : positive) :
  Zpos (Pos.iter xO p k) = Zpos p * 2 ^ Zpos k.
Proof.
  induction k as [|k IH] using Pos.peano_ind.
  - simpl. lia.
  - rewrite Pos.iter_succ, Pos2Z.inj_xO, IH, Pos2Z.inj_succ,
      Z.pow_succ_r by lia. ring.
Qed.

Lemma quotientLocation_1 (N : Z) : quotientLocation N 1 = loc_Exact.
Proof. unfold quotientLocation. rewrite Z.mod_1_r. reflexivity. Qed.

Lemma round_quotient (s : bool) (N D ex : Z) :
  0 <= N -> 0 < D ->
  53 <= Zdigits2 (N / D) ->
  -1074 <= Zdigits2 (N / D) + ex - 53 ->
  Zdigits2 (N / D) + ex - 52 <= 971 ->
  let x := binary_round_aux prec emax s (N / D) ex (quotientLocation N D) in
  normal53 x s (Zdigits2 (N / D) + ex - 53) (Zdigits2 (N / D) + ex - 52)
  /\ closeTo unitRoundoff (SF2Q x)
       (signOf s * (inject_Z N / inject_Z D) * 2 ^ ex).
Proof.
  intros HN HD H1 H2 H3 x.
  destruct (binary_round_aux_normal s N D ex HN HD H1 H2 H3)
    as (m & e & R & Dm & He & Herr).
  subst x. rewrite R. split.
  - exists m, e. repeat split; lia.
  - apply round_near; try assumption. lia.
Qed.

Lemma round_integer (s : bool) (N ex : Z) :
  53 <= Zdigits2 N -> 0 < N ->
  -1074 <= Zdigits2 N + ex - 53 ->
  Zdigits2 N + ex - 52 <= 971 ->
  let x := binary_round_aux prec emax s N ex loc_Exact in
  normal53 x s (Zdigits2 N + ex - 53) (Zdigits2 N + ex - 52)
  /\ closeTo unitRoundoff (SF2Q x) (signOf s * inject_Z N * 2 ^ ex).
Proof.
  intros H1 HN H2 H3.
  pose proof (round_quotient s N 1 ex) as R.
  rewrite Z.div_1_r, quotientLocation_1 in R.
  destruct (R ltac:(lia) ltac:(lia) H1 H2 H3) as [Rn Rq].
  split; [exact Rn|].
  unfold closeTo in *.
  setoid_replace (signOf s * inject_Z N * 2 ^ ex)%Q
    with (signOf s * (inject_Z N / inject_Z 1) * 2 ^ ex)%Q
    by (simpl; field).
  exact Rq.
Qed.

Lemma inject_Z_pos (z : Z) : 0 < z -> (0 < inject_Z z)%Q.
Proof.
  intros H. change 0%Q with (inject_Z 0). rewrite <- Zlt_Qlt. exact H.
Qed.

Lemma binary_round_int (s : bool) (p : positive) :
  Zpos p <= 2 ^ 63 ->
  let x := binary_round prec emax s p 0 in
  normal53 x s (-52) 12
  /\ closeTo unitRoundoff (SF2Q x) (signOf s * inject_Z (Zpos p)).
Proof.
  intros Hp. unfold binary_round, shl_align. rewrite fexp_eq.
  pose proof (digits2_pos_bounds p) as [Bl Bu].
  set (d := Zpos (digits2_pos p)) in *.
  assert (Hd1 : 1 <= d) by (subst d; lia).
  assert (Hd64 : d <= 64).
  { destruct (Z.lt_ge_cases 64 d) as [L|G]; [|exact G].
    assert (2 ^ 64 <= 2 ^ (d - 1)) by (apply Z.pow_le_mono_r; lia).
    change (2 ^ 64) with (2 * 2 ^ 63) in *. lia. }
  replace (Z.max (d + 0 - 53) (-1074) - 0) with (d - 53) by lia.
  replace (Z.max (d + 0 - 53) (-1074)) with (d - 53) by lia.
  assert (Whole : 53 <= d ->
          let x := binary_round_aux prec emax s (Zpos p) 0 loc_Exact in
          normal53 x s (-52) 12
          /\ closeTo unitRoundoff (SF2Q x) (signOf s * inject_Z (Zpos p))).
  { intros H53.
    destruct (round_integer s (Zpos p) 0) as [(m & e & R & Dm & He) Rq];
      try (cbn [Zdigits2]; fold d; lia).
    cbn [Zdigits2] in He. fold d in He.
    split; [exists m, e; repeat split; try assumption; lia|].
    unfold closeTo in *.
    setoid_replace (signOf s * inject_Z (Z.pos p))%Q
      with (signOf s * inject_Z (Z.pos p) * 2 ^ 0)%Q by (simpl; ring).
    exact Rq. }
  destruct (d - 53) as [|k|k] eqn:Ek; [apply Whole; lia | apply Whole; lia |].
  (* fewer than 53 digits: the mantissa is shifted, nothing is lost *)
  assert (P2k : 0 < 2 ^ Zpos k) by (apply Z.pow_pos_nonneg; lia).
  assert (Dg : Zdigits2 (Zpos (Pos.iter xO p k)) = 53).
  { apply Zdigits2_unique; [lia|]. rewrite iter_xO.
    assert (E1 : 2 ^ (53 - 1) = 2 ^ (d - 1) * 2 ^ Zpos k)
      by (rewrite <- Z.pow_add_r by lia; f_equal; lia).
    assert (E2 : 2 ^ 53 = 2 ^ d * 2 ^ Zpos k)
      by (rewrite <- Z.pow_add_r by lia; f_equal; lia).
    rewrite E1, E2. nia. }
  destruct (round_integer s (Zpos (Pos.iter xO p k)) (Zneg k))
    as [(m & e & R & Dm & He) Rq]; rewrite ?Dg; try lia.
  rewrite Dg in He.
  split; [exists m, e; repeat split; try assumption; lia|].
  unfold closeTo in *.
  setoid_replace (signOf s * inject_Z (Z.pos p))%Q
    with (signOf s * inject_Z (Z.pos (Pos.iter xO p k)) * 2 ^ Zneg k)%Q;
    [exact Rq|].
  rewrite iter_xO, inject_Z_mult.
  change (Zneg k) with (- Zpos k). rewrite Qpower_opp.
  rewrite pow2_inject by lia.
  field. intros Y. pose proof (inject_Z_pos _ P2k) as Q0.
  rewrite Y in Q0. discriminate Q0.
Qed.

Lemma closeTo_morph (eps v x x' : Q) :
  (x == x')%Q -> closeTo eps v x -> closeTo eps v x'.
Proof. unfold closeTo. intros E H. rewrite <- E. exact H. Qed.

Lemma binary_normalize_int (z : Z) :
  z <> 0 -> - 2 ^ 63 <= z <= 2 ^ 63 ->
  let x := binary_normalize prec emax z 0 false in
  normal53 x (z <? 0) (-52) 12 /\ closeTo unitRoundoff (SF2Q x) (inject_Z z).
Proof.
  intros Hz Hr. destruct z as [|p|p]; [congruence| |]; cbn [binary_normalize].
  - destruct (binary_round_int false p ltac:(lia)) as [A B].
    split; [exact A|]. apply (closeTo_morph _ _ _ _ (Qmult_1_l _) B).
  - destruct (binary_round_int true p ltac:(lia)) as [A B].
    split; [exact A|].
    refine (closeTo_morph _ _ _ _ _ B). unfold signOf.
    change (Z.neg p) with (- Z.pos p). rewrite inject_Z_opp. ring.
Qed.

Lemma new_location_eq (D k : Z) :
  new_location D k
  = if Z.even D
    then (if k =? 0 then loc_Exact else loc_Inexact (2 * k ?= D))
    else (if k =? 0 then loc_Exact
          else loc_Inexact match 2 * k + 1 ?= D with
                           | Gt => Gt
                           | _ => Lt
                           end).
Proof.
  change (new_location D k)
    with ((if Z.even D then new_location_even D else new_location_odd D) k).
  destruct (Z.even D); reflexivity.
Qed.

Lemma new_location_spec (N D : Z) :
  0 < D -> new_location D (N mod D) = quotientLocation N D.
Proof.
  intros HD. pose proof (Z.mod_pos_bound N D HD) as B.
  rewrite new_location_eq. unfold quotientLocation.
  destruct (N mod D =? 0) eqn:E0; [destruct (Z.even D); reflexivity|].
  apply Z.eqb_neq in E0.
  destruct (Z.even D) eqn:Ev; [reflexivity|].
  f_equal.
  assert (Od : Z.odd D = true) by (rewrite <- Z.negb_even, Ev; reflexivity).
  apply Z.odd_spec in Od as [h Hh].
  destruct (Z.compare_spec (2 * (N mod D) + 1) D);
    destruct (Z.compare_spec (2 * (N mod D)) D); try reflexivity; lia.
Qed.

Lemma digits53_bounds (m : positive) :
  Zpos (digits2_pos m) = 53 -> 2 ^ 52 <= Zpos m < 2 ^ 53.
Proof.
  intros H. pose proof (digits2_pos_bounds m) as B. rewrite H in B. exact B.
Qed.

Lemma signOf_xorb (a b : bool) : (signOf (xorb a b) == signOf a * signOf b)%Q.
Proof. destruct a, b; reflexivity. Qed.

Lemma signOf_nonzero (a : bool) : ~ (signOf a == 0)%Q.
Proof. destruct a; discriminate. Qed.

Lemma pow2_nonzero (e : Z) : ~ (2 ^ e == 0)%Q.
Proof.
  intros H. pose proof (pow2_pos e) as P. rewrite H in P. discriminate P.
Qed.

Lemma inject_pos_nonzero (p : positive) : ~ (inject_Z (Zpos p) == 0)%Q.
Proof. discriminate. Qed.

(** Division of two normal numbers whose quotient is normal. *)
Lemma SFdiv_normal (sa sb : bool) (ma mb : positive) (ea eb : Z) :
  Zpos (digits2_pos ma) = 53 -> Zpos (digits2_pos mb) = 53 ->
  -1000 <= ea - eb <= 900 ->
  let a := S754_finite sa ma ea in
  let b := S754_finite sb mb eb in
  let x := SFdiv prec emax a b in
  normal53 x (xorb sa sb) (ea - eb - 53) (ea - eb - 51)
  /\ closeTo unitRoundoff (SF2Q x) (SF2Q a / SF2Q b).
Proof.
  intros Da Db He a b x. subst x a b.
  pose proof (digits53_bounds ma Da) as Ba.
  pose proof (digits53_bounds mb Db) as Bb.
  unfold SFdiv, SFdiv_core_binary. cbn [Zdigits2]. rewrite Da, Db, fexp_eq.
  replace (Z.min (Z.max (53 + ea - (53 + eb) - 53) (-1074)) (ea - eb))
    with (ea - eb - 53) by lia.
  replace (ea - eb - (ea - eb - 53)) with 53 by lia.
  cbv iota beta. rewrite Z.shiftl_mul_pow2 by lia.
  set (N := Zpos ma * 2 ^ 53). set (D := Zpos mb).
  assert (HD : 0 < D) by (subst D; lia).
  assert (HN : 0 <= N) by (subst N; lia).
  destruct (Z.div_eucl N D) as [q r] eqn:E.
  assert (Eq : q = N / D) by (unfold Z.div; rewrite E; reflexivity).
  assert (Er : r = N mod D) by (unfold Z.modulo; rewrite E; reflexivity).
  subst q r. rewrite new_location_spec by exact HD.
  assert (Ql : 2 ^ 52 <= N / D).
  { apply Z.div_le_lower_bound; [exact HD|]. subst N D.
    change (2 ^ 53) with 9007199254740992 in *.
    change (2 ^ 52) with 4503599627370496 in *. nia. }
  assert (Qu : N / D < 2 ^ 54).
  { apply Z.div_lt_upper_bound; [exact HD|]. subst N D.
    change (2 ^ 53) with 9007199254740992 in *.
    change (2 ^ 52) with 4503599627370496 in *.
    change (2 ^ 54) with 18014398509481984. nia. }
  assert (Dq : 53 <= Zdigits2 (N / D) <= 54).
  { pose proof (Zdigits2_bounds (N / D) ltac:(lia)) as [B1 B2].
    split.
    - destruct (Z.lt_ge_cases (Zdigits2 (N / D)) 53) as [L|G]; [|exact G].
      assert (2 ^ Zdigits2 (N / D) <= 2 ^ 52)
        by (apply Z.pow_le_mono_r; lia). lia.
    - destruct (Z.lt_ge_cases 54 (Zdigits2 (N / D))) as [L|G]; [|exact G].
      assert (2 ^ 54 <= 2 ^ (Zdigits2 (N / D) - 1))
        by (apply Z.pow_le_mono_r; lia). lia. }
  destruct (round_quotient (xorb sa sb) N D (ea - eb - 53) HN HD
              ltac:(lia) ltac:(lia) ltac:(lia))
    as [(m & e & R & Dm & Hb) Rq].
  split; [exists m, e; repeat split; try assumption; lia|].
  refine (closeTo_morph _ _ _ _ _ Rq).
  cbn [SF2Q]. subst N D. rewrite inject_Z_mult.
  replace (ea - eb - 53) with (ea + (- eb + - (53))) by lia.
  rewrite !Qpower_plus, !Qpower_opp by discriminate.
  change (inject_Z (2 ^ 53)) with (9007199254740992 # 1)%Q.
  change (2 ^ 53)%Q with (9007199254740992 # 1)%Q.
  pose proof (pow2_nonzero ea) as Na. pose proof (pow2_nonzero eb) as Nb.
  revert Na Nb. generalize (2 ^ ea)%Q (2 ^ eb)%Q. intros A B Na Nb.
  assert (Nm : ~ (inject_Z (Z.pos mb) == 0)%Q) by discriminate.
  revert Nm. generalize (inject_Z (Z.pos mb)) (inject_Z (Z.pos ma)).
  intros Mb Ma Nm.
  destruct sa, sb; unfold signOf; cbn [xorb]; field; auto.
Qed.

(** Multiplication of two normal numbers whose product is normal. *)
Lemma SFmul_normal (sa sb : bool) (ma mb : positive) (ea eb : Z) :
  Zpos (digits2_pos ma) = 53 -> Zpos (digits2_pos mb) = 53 ->
  -1100 <= ea + eb <= 900 ->
  let a := S754_finite sa ma ea in
  let b := S754_finite sb mb eb in
  let x := SFmul prec emax a b in
  normal53 x (xorb sa sb) (ea + eb + 52) (ea + eb + 54)
  /\ closeTo unitRoundoff (SF2Q x) (SF2Q a * SF2Q b).
Proof.
  intros Da Db He a b x. subst x a b.
  pose proof (digits53_bounds ma Da) as Ba.
  pose proof (digits53_bounds mb Db) as Bb.
  unfold SFmul. rewrite Pos2Z.inj_mul.
  set (N := Zpos ma * Zpos mb).
  change (2 ^ 53) with 9007199254740992 in *.
  change (2 ^ 52) with 4503599627370496 in *.
  assert (Nl : 2 ^ 104 <= N)
    by (change (2 ^ 104) with (4503599627370496 * 4503599627370496);
        subst N; nia).
  assert (Nu : N < 2 ^ 106)
    by (change (2 ^ 106) with (9007199254740992 * 9007199254740992);
        subst N; nia).
  assert (Dq : 105 <= Zdigits2 N <= 106).
  { pose proof (Zdigits2_bounds N ltac:(lia)) as [B1 B2].
    split.
    - destruct (Z.lt_ge_cases (Zdigits2 N) 105) as [L|G]; [|exact G].
      assert (2 ^ Zdigits2 N <= 2 ^ 104) by (apply Z.pow_le_mono_r; lia).
      lia.
    - destruct (Z.lt_ge_cases 106 (Zdigits2 N)) as [L|G]; [|exact G].
      assert (2 ^ 106 <= 2 ^ (Zdigits2 N - 1))
        by (apply Z.pow_le_mono_r; lia).
      lia. }
  destruct (round_integer (xorb sa sb) N (ea + eb)
              ltac:(lia) ltac:(lia) ltac:(lia) ltac:(lia))
    as [(m & e & R & Dm & Hb) Rq].
  split; [exists m, e; repeat split; try assumption; lia|].
  refine (closeTo_morph _ _ _ _ _ Rq).
  cbn [SF2Q]. subst N. rewrite signOf_xorb, inject_Z_mult.
  rewrite Qpower_plus by discriminate. ring.
Qed.

(** ** Relative errors add up *)

Local Open Scope Q_scope.

Lemma closeTo_trans (e1 e2 v x y : Q) :
  0 <= e1 -> closeTo e1 v x -> closeTo e2 x y ->
  closeTo (e1 + e2 + e1 * e2) v y.
Proof.
  unfold closeTo. intros H1 A B.
  pose proof (Qabs_triangle (v - x) (x - y)) as T.
  setoid_replace (v - x + (x - y)) with (v - y) in T by ring.
  pose proof (Qabs_triangle (x - y) y) as T2.
  setoid_replace (x - y + y) with x in T2 by ring.
  pose proof (Qabs_nonneg y) as Py. pose proof (Qabs_nonneg x) as Px.
  revert A B T T2 Py Px.
  generalize (Qabs (v - y)) (Qabs (v - x)) (Qabs (x - y)) (Qabs x) (Qabs y).
  intros VY VX XY X Y A B T T2 Py Px.
  assert (e1 * X <= e1 * (XY + Y)) by nra.
  nra.
Qed.

Lemma closeTo_scale (e v x k : Q) : closeTo e v x -> closeTo e (v * k) (x * k).
Proof.
  unfold closeTo. intros A.
  setoid_replace (v * k - x * k) with ((v - x) * k) by ring.
  rewrite !Qabs_Qmult.
  pose proof (Qabs_nonneg k) as Pk. revert A Pk.
  generalize (Qabs (v - x)) (Qabs x) (Qabs k). intros VX X K A Pk. nra.
Qed.

Lemma closeTo_weaken (e e' v x : Q) :
  e <= e' -> closeTo e v x -> closeTo e' v x.
Proof.
  unfold closeTo. intros H A. pose proof (Qabs_nonneg x) as Px. revert A Px.
  generalize (Qabs (v - x)) (Qabs x). intros VX X A Px. nra.
Qed.

Lemma Qabs_pos_nonzero (y : Q) : ~ y == 0 -> 0 < Qabs y.
Proof.
  intros Hy. apply Qabs_case; intros H.
  - destruct (Qlt_le_dec 0 y) as [L|G]; [exact L|].
    exfalso. apply Hy. apply Qle_antisym; assumption.
  - destruct (Qlt_le_dec y 0) as [L|G]; [lra|].
    exfalso. apply Hy. apply Qle_antisym; assumption.
Qed.

Lemma closeTo_div (e1 e2 a b x y : Q) :
  0 <= e1 -> 0 <= e2 -> e2 < 1 -> ~ y == 0 ->
  closeTo e1 a x -> closeTo e2 b y ->
  closeTo ((e1 + e2) / (1 - e2)) (a / b) (x / y).
Proof.
  unfold closeTo. intros H1 H2 H2' Hy A B.
  pose proof (Qabs_pos_nonzero y Hy) as Py.
  pose proof (Qabs_triangle (y - b) b) as T.
  setoid_replace (y - b + b) with y in T by ring.
  setoid_replace (Qabs (y - b)) with (Qabs (b - y)) in T
    by (rewrite <- Qabs_opp; apply Qabs_wd; ring).
  assert (Pb : 0 < Qabs b) by nra.
  assert (Hb : ~ b == 0).
  { intros E. rewrite E in Pb. discriminate Pb. }
  setoid_replace (a / b - x / y)
    with (((a - x) * y - x * (b - y)) / (b * y)) by (field; auto).
  unfold Qdiv. rewrite !Qabs_Qmult, !Qabs_Qinv, Qabs_Qmult.
  pose proof (Qabs_triangle ((a - x) * y) (- (x * (b - y)))) as T2.
  rewrite Qabs_opp, !Qabs_Qmult in T2.
  setoid_replace ((a - x) * y + - (x * (b - y)))
    with ((a - x) * y - x * (b - y)) in T2 by ring.
  pose proof (Qabs_nonneg x) as Px.
  revert A B T T2 Py Pb Px.
  generalize (Qabs ((a - x) * y - x * (b - y))) (Qabs (a - x)) (Qabs (b - y))
    (Qabs x) (Qabs y) (Qabs b).
  intros NN AX BY X Y Bb A B T T2 Py Pb Px.
  assert (Hnum : NN <= (e1 + e2) * (X * Y)) by nra.
  assert (Hden : (1 - e2) * Y <= Bb) by nra.
  assert (P1 : 0 < 1 - e2) by lra.
  apply Qle_trans with ((e1 + e2) * (X * Y) * / (Bb * Y)).
  - apply Qmult_le_compat_r; [exact Hnum|].
    apply Qinv_le_0_compat. nra.
  - setoid_replace ((e1 + e2) * (X * Y) * / (Bb * Y))
      with ((e1 + e2) * X * / Bb) by (field; split; lra).
    setoid_replace ((e1 + e2) * / (1 - e2) * (X * / Y))
      with ((e1 + e2) * X * / ((1 - e2) * Y)) by (field; split; lra).
    apply Qle_shift_div_r; [exact Pb|].
    assert (PC : 0 < (1 - e2) * Y) by nra.
    assert (PZ : 0 <= (e1 + e2) * X * / ((1 - e2) * Y)).
    { apply Qmult_le_0_compat; [nra|]. apply Qinv_le_0_compat. lra. }
    assert (EZ : (e1 + e2) * X * / ((1 - e2) * Y) * ((1 - e2) * Y)
                 == (e1 + e2) * X) by (field; split; lra).
    revert PZ EZ. generalize ((e1 + e2) * X * / ((1 - e2) * Y)).
    intros Zv PZ EZ. nra.
Qed.

Local Close Scope Q_scope.

(** ** Conversion, division and multiplication of [float64] *)

Lemma normal53_valid (x : spec_float) (s : bool) (lo hi : Z) :
  normal53 x s lo hi -> -1074 <= lo -> hi <= 971 -> valid_binary x = true.
Proof.
  intros (m & e & -> & Dm & He) Hlo Hhi.
  unfold SpecFloat.valid_binary, bounded, canonical_mantissa.
  rewrite Dm, fexp_eq.
  apply andb_true_iff. split; [apply Z.eqb_eq; lia|].
  apply Z.leb_le. unfold emax, prec. lia.
Qed.

Lemma Prim2SF_float64 (z : Z) :
  z <> 0 -> - 2 ^ 63 <= z <= 2 ^ 63 ->
  let x := Prim2SF (GoInt.float64 z) in
  normal53 x (z <? 0) (-52) 12 /\ closeTo unitRoundoff (SF2Q x) (inject_Z z).
Proof.
  intros Hz Hr. destruct (binary_normalize_int z Hz Hr) as [A B].
  unfold GoInt.float64. cbv zeta.
  rewrite Prim2SF_SF2Prim by (apply (normal53_valid _ _ _ _ A); lia).
  split; assumption.
Qed.

Lemma Prim2SF_100 :
  Prim2SF 100%float = S754_finite false 7036874417766400 (-46).
Proof. vm_compute. reflexivity. Qed.

Lemma roundings_bound :
  (let d1 := (unitRoundoff + unitRoundoff) / (1 - unitRoundoff) in
   let d2 := unitRoundoff + d1 + unitRoundoff * d1 in
   unitRoundoff + d2 + unitRoundoff * d2 <= rateTolerance)%Q.
Proof. cbv zeta. apply Qle_bool_iff. vm_compute. reflexivity. Qed.

(** The rounded percentage against the exact one. *)
Lemma percentage_near (c t : Z) :
  c <> 0 -> - 2 ^ 63 <= c <= 2 ^ 63 -> 0 < t <= 2 ^ 63 ->
  let x := Prim2SF (percentage c t) in
  normal53 x (c <? 0) (-111) 21
  /\ closeTo rateTolerance (SF2Q x) (exactPercentage c t).
Proof.
  intros Hc Rc Rt.
  destruct (Prim2SF_float64 c Hc Rc) as [(mc & ec & Ec & Dc & Bc) Nc].
  destruct (Prim2SF_float64 t ltac:(lia) ltac:(lia))
    as [(mt & et & Et & Dt & Bt) Nt].
  replace (t <? 0) with false in Et by (symmetry; apply Z.ltb_ge; lia).
  unfold percentage. cbv zeta.
  rewrite mul_spec, div_spec, Prim2SF_100.
  rewrite Ec in Nc |- *. rewrite Et in Nt |- *.
  destruct (SFdiv_normal (c <? 0) false mc mt ec et Dc Dt ltac:(lia))
    as [(mq & eq & Eq & Dq & Bq) Nq].
  rewrite xorb_false_r in Eq.
  unfold SF64mul, SF64div. rewrite Eq in Nq |- *.
  destruct (SFmul_normal (c <? 0) false mq 7036874417766400 eq (-46) Dq
              eq_refl ltac:(lia))
    as [(mr & er & Er & Dr & Br) Nr].
  rewrite xorb_false_r in Er. rewrite Er in Nr |- *.
  split; [exists mr, er; repeat split; try assumption; lia|].
  assert (Ht : ~ (inject_Z t == 0)%Q).
  { intros E. pose proof (inject_Z_pos t ltac:(lia)) as P.
    rewrite E in P. discriminate P. }
  assert (U0 : (0 <= unitRoundoff)%Q) by discriminate.
  assert (U1 : (unitRoundoff < 1)%Q) by reflexivity.
  pose proof (closeTo_div unitRoundoff unitRoundoff _ _ _ _ U0 U0 U1 Ht Nc Nt)
    as N1.
  assert (N2 := closeTo_trans _ _ _ _ _ U0 Nq N1).
  assert (N3 := closeTo_scale _ _ _
                  (SF2Q (S754_finite false 7036874417766400 (-46))) N2).
  assert (N4 := closeTo_trans _ _ _ _ _ U0 Nr N3).
  apply (closeTo_weaken _ _ _ _ roundings_bound).
  refine (closeTo_morph _ _ _ _ _ N4).
  unfold exactPercentage. rewrite inject_Z_mult.
  setoid_replace (SF2Q (S754_finite false 7036874417766400 (-46)))
    with (inject_Z 100) by (vm_compute; reflexivity).
  field. exact Ht.
Qed.

Lemma percentage_zero (t : Z) :
  0 < t <= 2 ^ 63 -> Prim2SF (percentage 0 t) = S754_zero false.
Proof.
  intros Rt.
  destruct (Prim2SF_float64 t ltac:(lia) ltac:(lia))
    as [(mt & et & Et & Dt & Bt) Nt].
  replace (t <? 0) with false in Et by (symmetry; apply Z.ltb_ge; lia).
  unfold percentage. rewrite mul_spec, div_spec, Prim2SF_100, Et.
  replace (Prim2SF (GoInt.float64 0)) with (S754_zero false)
    by (vm_compute; reflexivity).
  reflexivity.
Qed.

(** ** The rates of a summary *)

Lemma in_range_bounds (z : Z) :
  GoInt.in_range z = true -> - 2 ^ 63 <= z <= 2 ^ 63.
Proof.
  unfold GoInt.in_range, GoInt.min_int, GoInt.max_int. intros H.
  apply andb_prop in H as [Hlo Hhi].
  apply Z.leb_le in Hlo. apply Z.leb_le in Hhi. lia.
Qed.

(** The program's expression, at counts that an [int] can hold, gives a
    finite number that is the exact quotient up to [rateTolerance]. *)
Lemma percentage_value (c t : Z) :
  GoInt.in_range c = true -> GoInt.in_range t = true -> 0 < t ->
  exists v,
    rationalOf (percentage c t) = Some v
    /\ closeTo rateTolerance v (exactPercentage c t).
Proof.
  intros Rc Rt Ht.
  apply in_range_bounds in Rc. apply in_range_bounds in Rt.
  destruct (Z.eq_dec c 0) as [-> | Hc].
  - exists 0%Q. unfold rationalOf.
    rewrite (percentage_zero t ltac:(lia)). split; [reflexivity|].
    unfold closeTo, exactPercentage. cbn [Z.mul].
    setoid_replace (inject_Z 0 / inject_Z t)%Q with 0%Q
      by (unfold Qdiv; apply Qmult_0_l).
    discriminate.
  - destruct (percentage_near c t Hc Rc ltac:(lia))
      as [(m & e & E & _) N].
    exists (SF2Q (Prim2SF (percentage c t))).
    split; [|exact N]. unfold rationalOf. rewrite E. reflexivity.
Qed.

Lemma Extended_totals_in_range (p : Parser) (s : Extended.Summary)
    (e : option error) :
  Extended.Parse p = (Some s, e) ->
  GoInt.in_range (Extended.TotalLines s) = true
  /\ GoInt.in_range (Extended.CoveredLines s) = true
  /\ GoInt.in_range (Extended.TotalFunctions s) = true
  /\ GoInt.in_range (Extended.CoveredFunctions s) = true
  /\ GoInt.in_range (Extended.TotalBranches s) = true
  /\ GoInt.in_range (Extended.CoveredBranches s) = true.
Proof.
  intros H.
  destruct (Extended_Parse_inv _ _ _ H) as (sm & cf & Hloop & -> & _).
  assert (T0 : TotalsOfFiles Extended.emptySummary) by (repeat split).
  destruct (Extended_loop_totals_of_files _ _ _ Hloop T0)
    as (_ & T2 & T3 & T4 & T5 & T6 & T7).
  assert (Z0 : ExtendedRatesZero sm).
  { apply (Extended_loop_rates _ _ _ Hloop). repeat split. }
  destruct (Extended_rates_spec sm Z0)
    as ((_ & R2 & R3 & R4 & R5 & R6 & R7 & _) & _).
  cbv zeta in *. cbn [fst] in *.
  rewrite R2, R3, R4, R5, R6, R7, T2, T3, T4, T5, T6, T7, !sum_wrap.
  repeat split; apply wrap_range.
Qed.

Lemma RoundedPercentage_intro (rate : float) (covered total : Z) :
  GoInt.in_range covered = true -> GoInt.in_range total = true ->
  (0 < total -> rate = percentage covered total) ->
  (total <= 0 -> rate = 0%float) ->
  RoundedPercentage rate covered total.
Proof.
  intros Rc Rt Hp Hz. split; [exact Hz|]. intros Ht.
  rewrite (Hp Ht). split; [reflexivity|].
  apply percentage_value; assumption.
Qed.

(** C1, amended.  Whenever [Parse] returns a summary, each of its three
    rates is 0.0 when its total is zero (or negative: no division takes
    place), and is otherwise the binary64 result of
    [float64(covered) / float64(total) * 100]: a finite number, equal to
    [100 * covered / total] up to a relative error of [2 ^ -50]. *)
Theorem rates_of_returned_summary (p : Parser) (s : Extended.Summary)
    (e : option error) :
  Extended.Parse p = (Some s, e) ->
  RoundedPercentage (Extended.LineCoverageRate s)
                    (Extended.CoveredLines s) (Extended.TotalLines s)
  /\ RoundedPercentage (Extended.FunctionCoverageRate s)
                       (Extended.CoveredFunctions s)
                       (Extended.TotalFunctions s)
  /\ RoundedPercentage (Extended.BranchCoverageRate s)
                       (Extended.CoveredBranches s)
                       (Extended.TotalBranches s).
Proof.
  intros H.
  destruct (Extended_totals_in_range _ _ _ H)
    as (I1 & I2 & I3 & I4 & I5 & I6).
  destruct (Extended_rates_of_returned_summary _ _ _ H)
    as ((L1 & L2) & (F1 & F2) & (B1 & B2)).
  split; [|split]; apply RoundedPercentage_intro; assumption.
Qed.

Lemma rates_of_returned_summary_witness :
  exists s,
    Extended.Summarize scenarioFunctions = (Some s, None)
    /\ Extended.LineCoverageRate s = 100%float
    /\ Extended.FunctionCoverageRate s = 50%float
    /\ Extended.BranchCoverageRate s = 50%float.
Proof.
  eexists. split; [vm_compute; reflexivity|].
  match goal with
  | |- Extended.LineCoverageRate ?s = _ /\ _ =>
      destruct (rates_of_returned_summary (NewParser scenarioFunctions) s
                  None)
        as ((_ & Hl) & (_ & Hf) & (_ & Hb))
  end.
  - vm_compute. reflexivity.
  - destruct Hl as [El _]; [vm_compute; reflexivity|].
    destruct Hf as [Ef _]; [vm_compute; reflexivity|].
    destruct Hb as [Eb _]; [vm_compute; reflexivity|].
    rewrite El, Ef, Eb. vm_compute. repeat split.
Defined.

(** The claim of C1 fails as an equality: with 7 lines covered of 25 the
    exact quotient is 28, and so is [100 * 7 / 25] evaluated in binary64
    in that order; the rate returned is the next number above 28. *)
Lemma rate_is_not_the_exact_quotient :
  exists s v,
    Extended.Summarize
      (textReader ["SF:/a.go"; "LF:25"; "LH:7"; "end_of_record"]%string)
    = (Some s, None)
    /\ Extended.TotalLines s = 25 /\ Extended.CoveredLines s = 7
    /\ (exactPercentage 7 25 == 28)%Q
    /\ (100 * 7 / 25)%float = 28%float
    /\ Extended.LineCoverageRate s <> 28%float
    /\ rationalOf (Extended.LineCoverageRate s) = Some v
    /\ (v == 28 + (1 # 281474976710656))%Q.
Proof.
  eexists. eexists. split; [vm_compute; reflexivity|].
  split; [reflexivity|]. split; [reflexivity|].
  split; [vm_compute; reflexivity|]. split; [vm_compute; reflexivity|].
  split.
  - intros E. apply (f_equal Prim2SF) in E. vm_compute in E.
    discriminate E.
  - split; vm_compute; reflexivity.
Qed.
